(** * Unscented Kalman filter (src/SFND_Unscented_Kalman_Filter/src/ukf.cpp)

    A shallow embedding of the class [UKF] of ukf.cpp and the properties of
    its measurement cycle.

    Numbers.  The filter computes in C++ [double].  The embedding reads the
    source in two arithmetics:
    - exact real arithmetic ([R]), in which the whole filter is written and
      the algebraic properties are proved;
    - IEEE binary64 ([PrimFloat]), for the three fragments whose behaviour
      depends on rounding or on non-finite values: the weight construction,
      the angle-normalisation loops and the radar range-rate quotient.
    These three fragments are translated once, over an interface of
    arithmetic operations, and instantiated at both.

    Eigen.  The dense-matrix library is external to the repository.  Its
    element-wise operations and products are written out on lists of columns;
    its two non-trivial routines, the Cholesky factorisation [llt()] and
    [inverse()], are parameters of the filter ([EigenOps]), and a reference
    implementation of each is given for evaluating the filter on concrete
    inputs.

    Ranges.  Exact arithmetic has no NaN, no infinity, no underflow and no
    wrap-around, and its angle loops always terminate.  The integer
    difference of the timestamps is modelled with its 64-bit wrap-around,
    and the constant of the yaw-rate test is the double it is in the code.
    A property that depends on values staying where the double computation
    behaves like the real one carries that range as a hypothesis ([int64],
    [radar_safe], [moderate]), or is restricted to the LIDAR cycle, which
    divides only by the innovation covariance. *)

From Stdlib Require Import ZArith QArith List Bool Floats.
From Stdlib Require Uint63.
From Stdlib Require Import Reals Lra Lia.
Import ListNotations.

Open Scope R_scope.

(* ================================================================== *)
(** * Lists as dense storage *)

(** Coefficient write [l(i) = v]; a write outside the storage is an Eigen
    assertion failure (undefined without assertions) and is modelled as no
    write. *)
Fixpoint upd {A : Type} (i : nat) (v : A) (l : list A) : list A :=
  match l, i with
  | [], _ => []
  | _ :: t, O => v :: t
  | h :: t, S k => h :: upd k v t
  end.

Fixpoint map2 {A B C : Type} (f : A -> B -> C) (l : list A) (m : list B) : list C :=
  match l, m with
  | a :: l', b :: m' => f a b :: map2 f l' m'
  | _, _ => []
  end.

(** [dst.head(n) = src]: the first [n] coefficients of [dst] are replaced. *)
Fixpoint overwrite_head {A : Type} (n : nat) (src dst : list A) : list A :=
  match n, src, dst with
  | S k, a :: src', _ :: dst' => a :: overwrite_head k src' dst'
  | _, _, _ => dst
  end.

(* ================================================================== *)
(** * The arithmetic interface and the fragments read in both arithmetics *)

Record Arith (D : Type) : Type := mkArith {
  d_add : D -> D -> D;
  d_sub : D -> D -> D;
  d_mul : D -> D -> D;
  d_div : D -> D -> D;
  d_opp : D -> D;
  d_sqrt : D -> D;
  d_gt : D -> D -> bool;
  d_lt : D -> D -> bool;
  (** conversion of an [int] operand to [double] *)
  d_of_int : Z -> D;
  (** the literals [0.5] and [2.] and the macro [M_PI] *)
  d_half : D;
  d_two : D;
  d_M_PI : D
}.

Arguments d_add {D} _ _ _.
Arguments d_sub {D} _ _ _.
Arguments d_mul {D} _ _ _.
Arguments d_div {D} _ _ _.
Arguments d_opp {D} _ _.
Arguments d_sqrt {D} _ _.
Arguments d_gt {D} _ _ _.
Arguments d_lt {D} _ _ _.
Arguments d_of_int {D} _ _.
Arguments d_half {D} _.
Arguments d_two {D} _.
Arguments d_M_PI {D} _.

Section Scalar.

Context {D : Type} (A : Arith D).

Local Notation "x +. y" := (d_add A x y) (at level 50, left associativity).
Local Notation "x -. y" := (d_sub A x y) (at level 50, left associativity).
Local Notation "x *. y" := (d_mul A x y) (at level 40, left associativity).
Local Notation "x /. y" := (d_div A x y) (at level 40, left associativity).

(** ukf.cpp:295-298, [while (a > M_PI) a -= 2. * M_PI;].  [None] when the
    fuel runs out before the loop condition becomes false. *)
Fixpoint while_above (fuel : nat) (a : D) : option D :=
  match fuel with
  | O => None
  | S k =>
      if d_gt A a (d_M_PI A)
      then while_above k (a -. d_two A *. d_M_PI A)
      else Some a
  end.

(** ukf.cpp:299-302, [while (a < -M_PI) a += 2. * M_PI;]. *)
Fixpoint while_below (fuel : nat) (a : D) : option D :=
  match fuel with
  | O => None
  | S k =>
      if d_lt A a (d_opp A (d_M_PI A))
      then while_below k (a +. d_two A *. d_M_PI A)
      else Some a
  end.

(** The two loops in sequence, as they stand at ukf.cpp:294-302, 344-352,
    472-480, 484-492 and 503-511. *)
Definition angle_loops (fuel : nat) (a : D) : option D :=
  match while_above fuel a with
  | Some b => while_below fuel b
  | None => None
  end.

(** ukf.cpp:173-181: the weights written into the 2*n_aug+1 vector. *)
Definition init_weights (lambda : D) (n_aug : nat) (weights : list D) : list D :=
  let weight_0 := lambda /. (lambda +. d_of_int A (Z.of_nat n_aug)) in
  let weights := upd 0 weight_0 weights in
  fold_left
    (fun w i =>
       let weight := d_half A /. (d_of_int A (Z.of_nat n_aug) +. lambda) in
       upd i weight w)
    (seq 1 (2 * n_aug + 1 - 1)) weights.

(** The sum of a vector, accumulated in index order from zero. *)
Definition sum_in_order (w : list D) : D :=
  fold_left (fun acc x => acc +. x) w (d_of_int A 0).

(** ukf.cpp:327, the range-rate quotient
    [(p_x * v1 + p_y * v2) / sqrt(p_x * p_x + p_y * p_y)]. *)
Definition radar_rho (p_x p_y : D) : D :=
  d_sqrt A (p_x *. p_x +. p_y *. p_y).

Definition radar_r_dot (p_x p_y v1 v2 : D) : D :=
  (p_x *. v1 +. p_y *. v2) /. radar_rho p_x p_y.

End Scalar.

(** Exact real arithmetic. *)
Definition Rgtb (a b : R) : bool := if Rgt_dec a b then true else false.
Definition Rltb (a b : R) : bool := if Rlt_dec a b then true else false.

Definition exact : Arith R :=
  mkArith R Rplus Rminus Rmult Rdiv Ropp sqrt Rgtb Rltb IZR 0.5 2 PI.

(** IEEE binary64, round to nearest even.  [M_PI] is the double
    3.141592653589793 of <cmath>; an [int] converts exactly. *)
Definition M_PI_b64 : float := 0x1.921fb54442d18p+1%float.

Definition b64_of_int (z : Z) : float :=
  if (z <? 0)%Z
  then PrimFloat.opp (PrimFloat.of_uint63 (Uint63.of_Z (- z)))
  else PrimFloat.of_uint63 (Uint63.of_Z z).

Definition binary64 : Arith float :=
  mkArith float PrimFloat.add PrimFloat.sub PrimFloat.mul PrimFloat.div
    PrimFloat.opp PrimFloat.sqrt (fun a b => PrimFloat.ltb b a) PrimFloat.ltb
    b64_of_int 0.5%float 2%float M_PI_b64.

(** A double is finite when it is neither an infinity nor a NaN. *)
Definition b64_finite (a : float) : bool :=
  negb (PrimFloat.is_nan a) && negb (PrimFloat.is_infinity a).

(** The rational number a finite double stands for. *)
Definition b64_value (a : float) : option Q :=
  match Prim2SF a with
  | S754_zero _ => Some 0%Q
  | S754_finite s m e =>
      let magnitude := (inject_Z (Zpos m) * Qpower 2 e)%Q in
      Some (if s then Qopp magnitude else magnitude)
  | _ => None
  end.

(** The rational sum of the values of a vector of finite doubles. *)
Definition b64_exact_sum (w : list float) : option Q :=
  fold_left
    (fun acc a =>
       match acc, b64_value a with
       | Some x, Some y => Some (Qred (x + y))
       | _, _ => None
       end)
    w (Some 0%Q).

(* ================================================================== *)
(** * Angle normalisation in exact arithmetic *)

(** Enough iterations for both loops on the input [a]. *)
Definition loop_fuel (a : R) : nat := S (Z.to_nat (up (Rabs a / (2 * PI)))).

(** The value the two loops leave in the coefficient. *)
Definition angle_normalization (a : R) : R :=
  match angle_loops exact (loop_fuel a) a with
  | Some b => b
  | None => a
  end.

(** [atan2] of <cmath> in exact arithmetic. *)
Definition atan2 (y x : R) : R :=
  if Rlt_dec 0 x then atan (y / x)
  else if Rlt_dec x 0 then
    (if Rle_dec 0 y then atan (y / x) + PI else atan (y / x) - PI)
  else if Rlt_dec 0 y then PI / 2
  else if Rlt_dec y 0 then - (PI / 2)
  else 0.

(* ================================================================== *)
(** * Eigen vectors and matrices *)

(** [VectorXd]: the coefficients in index order. *)
Definition Vector : Type := list R.

(** [MatrixXd]: column-major, the list of the columns. *)
Definition Matrix : Type := list (list R).

Definition vget (x : Vector) (i : nat) : R := nth i x 0.
Definition col (M : Matrix) (c : nat) : Vector := nth c M [].
Definition mget (M : Matrix) (r c : nat) : R := vget (col M c) r.
Definition vset (i : nat) (v : R) (x : Vector) : Vector := upd i v x.
Definition set_col (c : nat) (v : Vector) (M : Matrix) : Matrix := upd c v M.
Definition mset (r c : nat) (v : R) (M : Matrix) : Matrix :=
  upd c (upd r v (col M c)) M.

(** [x.fill(v)] and [M.fill(v)] keep the dimensions. *)
Definition vfill (x : Vector) (v : R) : Vector := map (fun _ => v) x.
Definition mfill (M : Matrix) (v : R) : Matrix := map (fun c => vfill c v) M.

(** [VectorXd(n)] and [MatrixXd(rows, cols)] followed by [fill(0.0)]. *)
Definition vzero (n : nat) : Vector := repeat 0 n.
Definition mzero (rows cols : nat) : Matrix := repeat (vzero rows) cols.

Definition vadd : Vector -> Vector -> Vector := map2 Rplus.
Definition vsub : Vector -> Vector -> Vector := map2 Rminus.
Definition vscale (a : R) (x : Vector) : Vector := map (fun xi => a * xi) x.
Definition madd : Matrix -> Matrix -> Matrix := map2 vadd.
Definition msub : Matrix -> Matrix -> Matrix := map2 vsub.

(** [x * y.transpose()]: column [j] is [x] scaled by [y(j)]. *)
Definition outer (x y : Vector) : Matrix :=
  map (fun yj => map (fun xi => xi * yj) x) y.

Definition rows (M : Matrix) : nat := length (col M 0).
Definition row (M : Matrix) (r : nat) : Vector := map (fun c => vget c r) M.
Definition dot (x y : Vector) : R := fold_right Rplus 0 (map2 Rmult x y).
Definition mat_vec (M : Matrix) (b : Vector) : Vector :=
  map (fun r => dot (row M r) b) (seq 0 (rows M)).
Definition mmul (M N : Matrix) : Matrix := map (mat_vec M) N.
Definition transpose (M : Matrix) : Matrix := map (row M) (seq 0 (rows M)).

(** [dst.topLeftCorner(r, c) = src]. *)
Fixpoint overwrite_topleft (r c : nat) (src dst : Matrix) : Matrix :=
  match c, src, dst with
  | S k, a :: src', b :: dst' =>
      overwrite_head r a b :: overwrite_topleft r k src' dst'
  | _, _, _ => dst
  end.

(** A diagonal matrix, as the comma initialisers of ukf.cpp:149-153,
    359-361 and 400-401 write it. *)
Definition diag (d : list R) : Matrix :=
  map (fun i => upd i (nth i d 0) (vzero (length d))) (seq 0 (length d)).

(* ================================================================== *)
(** * The two Eigen routines the filter calls *)

(** [Eigen::ComputationInfo], as far as [LLT::info()] reports it. *)
Inductive ComputationInfo : Type := Success | NumericalIssue.

(** The object [P_aug.llt()]: the factor read by [matrixL()] and the status
    read by [info()]. *)
Record LLT : Type := mkLLT { matrixL : Matrix; info : ComputationInfo }.

Record EigenOps : Type := mkEigenOps {
  llt : Matrix -> LLT;
  inverse : Matrix -> Matrix
}.

(** Reference Cholesky factorisation: Eigen's unblocked in-place algorithm
    (Eigen/src/Cholesky/LLT.h).  Step [k] computes the pivot
    [x = A(k,k) - sum_j L(k,j)^2]; a pivot [x <= 0] stops the factorisation
    with [NumericalIssue], leaving the columns from [k] on as they were. *)
Definition llt_pivot (mat : Matrix) (k : nat) : R :=
  mget mat k k - fold_right Rplus 0 (map (fun j => mget mat k j * mget mat k j) (seq 0 k)).

Definition llt_column (x : R) (k size : nat) (mat : Matrix) : Matrix :=
  fold_left
    (fun m i =>
       mset i k
         ((mget m i k
           - fold_right Rplus 0 (map (fun j => mget m i j * mget m k j) (seq 0 k))) / x)
         m)
    (seq (k + 1) (size - k - 1)) mat.

Fixpoint llt_unblocked (ks : list nat) (size : nat) (mat : Matrix)
  : Matrix * ComputationInfo :=
  match ks with
  | [] => (mat, Success)
  | k :: ks' =>
      let x := llt_pivot mat k in
      if Rle_dec x 0 then (mat, NumericalIssue)
      else
        let x := sqrt x in
        llt_unblocked ks' size (llt_column x k size (mset k k x mat))
  end.

(** The triangular view [matrixL()]: the coefficients above the diagonal
    read as zero. *)
Definition lower_triangle (M : Matrix) : Matrix :=
  map (fun c => map (fun r => if (r <? c)%nat then 0 else mget M r c)
                    (seq 0 (length (col M c))))
      (seq 0 (length M)).

Definition llt_reference (M : Matrix) : LLT :=
  let '(mat, status) := llt_unblocked (seq 0 (length M)) (length M) M in
  mkLLT (lower_triangle mat) status.

(** Reference inverse: adjugate over determinant, with the determinant
    expanded along the first column. *)
Fixpoint remove_nth {A : Type} (i : nat) (l : list A) : list A :=
  match l, i with
  | [], _ => []
  | _ :: t, O => t
  | h :: t, S k => h :: remove_nth k t
  end.

Definition minor (r c : nat) (M : Matrix) : Matrix :=
  map (remove_nth r) (remove_nth c M).

Definition sign (i : nat) : R := if Nat.even i then 1 else -1.

Fixpoint det (n : nat) (M : Matrix) : R :=
  match n with
  | O => 1
  | S k =>
      fold_right Rplus 0
        (map (fun i => sign i * mget M i 0 * det k (minor i 0 M)) (seq 0 (S k)))
  end.

Definition inverse_reference (M : Matrix) : Matrix :=
  let n := length M in
  map (fun c =>
         map (fun r => sign (r + c) * det (n - 1) (minor c r M) / det n M) (seq 0 n))
      (seq 0 n).

Definition eigen_reference : EigenOps := mkEigenOps llt_reference inverse_reference.

(* ================================================================== *)
(** * The measurement package and the filter object *)

(** [MeasurementPackage::SensorType]. *)
Inductive SensorType : Type := LASER | RADAR.

Record MeasurementPackage : Type := mkMeas {
  timestamp_ : Z;
  sensor_type_ : SensorType;
  raw_measurements_ : Vector
}.

(** The data members of [class UKF], in the order the constructor sets
    them. *)
Record UKF : Type := mkUKF {
  is_initialized_ : bool;
  use_laser_ : bool;
  use_radar_ : bool;
  x_ : Vector;
  P_ : Matrix;
  time_us_ : Z;
  std_a_ : R;
  std_yawdd_ : R;
  std_laspx_ : R;
  std_laspy_ : R;
  std_radr_ : R;
  std_radphi_ : R;
  std_radrd_ : R;
  n_x_ : nat;
  n_aug_ : nat;
  Xsig_ : Matrix;
  Xsig_aug_ : Matrix;
  Xsig_pred_ : Matrix;
  weights_ : Vector;
  lambda_ : R;
  n_z_radar_ : nat;
  n_z_lidar_ : nat;
  z_pred_r_ : Vector;
  S_r_ : Matrix;
  Zsig_radar : Matrix;
  Zsig_lidar : Matrix;
  z_pred_l_ : Vector;
  S_l_ : Matrix
}.

Definition set_is_initialized_ (v : bool) (u : UKF) : UKF :=
  mkUKF v (use_laser_ u) (use_radar_ u) (x_ u) (P_ u) (time_us_ u) (std_a_ u)
    (std_yawdd_ u) (std_laspx_ u) (std_laspy_ u) (std_radr_ u) (std_radphi_ u)
    (std_radrd_ u) (n_x_ u) (n_aug_ u) (Xsig_ u) (Xsig_aug_ u) (Xsig_pred_ u) (weights_
    u) (lambda_ u) (n_z_radar_ u) (n_z_lidar_ u) (z_pred_r_ u) (S_r_ u) (Zsig_radar u)
    (Zsig_lidar u) (z_pred_l_ u) (S_l_ u).

Definition set_use_laser_ (v : bool) (u : UKF) : UKF :=
  mkUKF (is_initialized_ u) v (use_radar_ u) (x_ u) (P_ u) (time_us_ u) (std_a_ u)
    (std_yawdd_ u) (std_laspx_ u) (std_laspy_ u) (std_radr_ u) (std_radphi_ u)
    (std_radrd_ u) (n_x_ u) (n_aug_ u) (Xsig_ u) (Xsig_aug_ u) (Xsig_pred_ u) (weights_
    u) (lambda_ u) (n_z_radar_ u) (n_z_lidar_ u) (z_pred_r_ u) (S_r_ u) (Zsig_radar u)
    (Zsig_lidar u) (z_pred_l_ u) (S_l_ u).

Definition set_use_radar_ (v : bool) (u : UKF) : UKF :=
  mkUKF (is_initialized_ u) (use_laser_ u) v (x_ u) (P_ u) (time_us_ u) (std_a_ u)
    (std_yawdd_ u) (std_laspx_ u) (std_laspy_ u) (std_radr_ u) (std_radphi_ u)
    (std_radrd_ u) (n_x_ u) (n_aug_ u) (Xsig_ u) (Xsig_aug_ u) (Xsig_pred_ u) (weights_
    u) (lambda_ u) (n_z_radar_ u) (n_z_lidar_ u) (z_pred_r_ u) (S_r_ u) (Zsig_radar u)
    (Zsig_lidar u) (z_pred_l_ u) (S_l_ u).

Definition set_x_ (v : Vector) (u : UKF) : UKF :=
  mkUKF (is_initialized_ u) (use_laser_ u) (use_radar_ u) v (P_ u) (time_us_ u) (std_a_
    u) (std_yawdd_ u) (std_laspx_ u) (std_laspy_ u) (std_radr_ u) (std_radphi_ u)
    (std_radrd_ u) (n_x_ u) (n_aug_ u) (Xsig_ u) (Xsig_aug_ u) (Xsig_pred_ u) (weights_
    u) (lambda_ u) (n_z_radar_ u) (n_z_lidar_ u) (z_pred_r_ u) (S_r_ u) (Zsig_radar u)
    (Zsig_lidar u) (z_pred_l_ u) (S_l_ u).

Definition set_P_ (v : Matrix) (u : UKF) : UKF :=
  mkUKF (is_initialized_ u) (use_laser_ u) (use_radar_ u) (x_ u) v (time_us_ u) (std_a_
    u) (std_yawdd_ u) (std_laspx_ u) (std_laspy_ u) (std_radr_ u) (std_radphi_ u)
    (std_radrd_ u) (n_x_ u) (n_aug_ u) (Xsig_ u) (Xsig_aug_ u) (Xsig_pred_ u) (weights_
    u) (lambda_ u) (n_z_radar_ u) (n_z_lidar_ u) (z_pred_r_ u) (S_r_ u) (Zsig_radar u)
    (Zsig_lidar u) (z_pred_l_ u) (S_l_ u).

Definition set_time_us_ (v : Z) (u : UKF) : UKF :=
  mkUKF (is_initialized_ u) (use_laser_ u) (use_radar_ u) (x_ u) (P_ u) v (std_a_ u)
    (std_yawdd_ u) (std_laspx_ u) (std_laspy_ u) (std_radr_ u) (std_radphi_ u)
    (std_radrd_ u) (n_x_ u) (n_aug_ u) (Xsig_ u) (Xsig_aug_ u) (Xsig_pred_ u) (weights_
    u) (lambda_ u) (n_z_radar_ u) (n_z_lidar_ u) (z_pred_r_ u) (S_r_ u) (Zsig_radar u)
    (Zsig_lidar u) (z_pred_l_ u) (S_l_ u).

Definition set_Xsig_aug_ (v : Matrix) (u : UKF) : UKF :=
  mkUKF (is_initialized_ u) (use_laser_ u) (use_radar_ u) (x_ u) (P_ u) (time_us_ u)
    (std_a_ u) (std_yawdd_ u) (std_laspx_ u) (std_laspy_ u) (std_radr_ u) (std_radphi_
    u) (std_radrd_ u) (n_x_ u) (n_aug_ u) (Xsig_ u) v (Xsig_pred_ u) (weights_ u)
    (lambda_ u) (n_z_radar_ u) (n_z_lidar_ u) (z_pred_r_ u) (S_r_ u) (Zsig_radar u)
    (Zsig_lidar u) (z_pred_l_ u) (S_l_ u).

Definition set_Xsig_pred_ (v : Matrix) (u : UKF) : UKF :=
  mkUKF (is_initialized_ u) (use_laser_ u) (use_radar_ u) (x_ u) (P_ u) (time_us_ u)
    (std_a_ u) (std_yawdd_ u) (std_laspx_ u) (std_laspy_ u) (std_radr_ u) (std_radphi_
    u) (std_radrd_ u) (n_x_ u) (n_aug_ u) (Xsig_ u) (Xsig_aug_ u) v (weights_ u)
    (lambda_ u) (n_z_radar_ u) (n_z_lidar_ u) (z_pred_r_ u) (S_r_ u) (Zsig_radar u)
    (Zsig_lidar u) (z_pred_l_ u) (S_l_ u).

Definition set_weights_ (v : Vector) (u : UKF) : UKF :=
  mkUKF (is_initialized_ u) (use_laser_ u) (use_radar_ u) (x_ u) (P_ u) (time_us_ u)
    (std_a_ u) (std_yawdd_ u) (std_laspx_ u) (std_laspy_ u) (std_radr_ u) (std_radphi_
    u) (std_radrd_ u) (n_x_ u) (n_aug_ u) (Xsig_ u) (Xsig_aug_ u) (Xsig_pred_ u) v
    (lambda_ u) (n_z_radar_ u) (n_z_lidar_ u) (z_pred_r_ u) (S_r_ u) (Zsig_radar u)
    (Zsig_lidar u) (z_pred_l_ u) (S_l_ u).

Definition set_lambda_ (v : R) (u : UKF) : UKF :=
  mkUKF (is_initialized_ u) (use_laser_ u) (use_radar_ u) (x_ u) (P_ u) (time_us_ u)
    (std_a_ u) (std_yawdd_ u) (std_laspx_ u) (std_laspy_ u) (std_radr_ u) (std_radphi_
    u) (std_radrd_ u) (n_x_ u) (n_aug_ u) (Xsig_ u) (Xsig_aug_ u) (Xsig_pred_ u)
    (weights_ u) v (n_z_radar_ u) (n_z_lidar_ u) (z_pred_r_ u) (S_r_ u) (Zsig_radar u)
    (Zsig_lidar u) (z_pred_l_ u) (S_l_ u).

Definition set_z_pred_r_ (v : Vector) (u : UKF) : UKF :=
  mkUKF (is_initialized_ u) (use_laser_ u) (use_radar_ u) (x_ u) (P_ u) (time_us_ u)
    (std_a_ u) (std_yawdd_ u) (std_laspx_ u) (std_laspy_ u) (std_radr_ u) (std_radphi_
    u) (std_radrd_ u) (n_x_ u) (n_aug_ u) (Xsig_ u) (Xsig_aug_ u) (Xsig_pred_ u)
    (weights_ u) (lambda_ u) (n_z_radar_ u) (n_z_lidar_ u) v (S_r_ u) (Zsig_radar u)
    (Zsig_lidar u) (z_pred_l_ u) (S_l_ u).

Definition set_S_r_ (v : Matrix) (u : UKF) : UKF :=
  mkUKF (is_initialized_ u) (use_laser_ u) (use_radar_ u) (x_ u) (P_ u) (time_us_ u)
    (std_a_ u) (std_yawdd_ u) (std_laspx_ u) (std_laspy_ u) (std_radr_ u) (std_radphi_
    u) (std_radrd_ u) (n_x_ u) (n_aug_ u) (Xsig_ u) (Xsig_aug_ u) (Xsig_pred_ u)
    (weights_ u) (lambda_ u) (n_z_radar_ u) (n_z_lidar_ u) (z_pred_r_ u) v (Zsig_radar
    u) (Zsig_lidar u) (z_pred_l_ u) (S_l_ u).

Definition set_Zsig_radar (v : Matrix) (u : UKF) : UKF :=
  mkUKF (is_initialized_ u) (use_laser_ u) (use_radar_ u) (x_ u) (P_ u) (time_us_ u)
    (std_a_ u) (std_yawdd_ u) (std_laspx_ u) (std_laspy_ u) (std_radr_ u) (std_radphi_
    u) (std_radrd_ u) (n_x_ u) (n_aug_ u) (Xsig_ u) (Xsig_aug_ u) (Xsig_pred_ u)
    (weights_ u) (lambda_ u) (n_z_radar_ u) (n_z_lidar_ u) (z_pred_r_ u) (S_r_ u) v
    (Zsig_lidar u) (z_pred_l_ u) (S_l_ u).

Definition set_Zsig_lidar (v : Matrix) (u : UKF) : UKF :=
  mkUKF (is_initialized_ u) (use_laser_ u) (use_radar_ u) (x_ u) (P_ u) (time_us_ u)
    (std_a_ u) (std_yawdd_ u) (std_laspx_ u) (std_laspy_ u) (std_radr_ u) (std_radphi_
    u) (std_radrd_ u) (n_x_ u) (n_aug_ u) (Xsig_ u) (Xsig_aug_ u) (Xsig_pred_ u)
    (weights_ u) (lambda_ u) (n_z_radar_ u) (n_z_lidar_ u) (z_pred_r_ u) (S_r_ u)
    (Zsig_radar u) v (z_pred_l_ u) (S_l_ u).

Definition set_z_pred_l_ (v : Vector) (u : UKF) : UKF :=
  mkUKF (is_initialized_ u) (use_laser_ u) (use_radar_ u) (x_ u) (P_ u) (time_us_ u)
    (std_a_ u) (std_yawdd_ u) (std_laspx_ u) (std_laspy_ u) (std_radr_ u) (std_radphi_
    u) (std_radrd_ u) (n_x_ u) (n_aug_ u) (Xsig_ u) (Xsig_aug_ u) (Xsig_pred_ u)
    (weights_ u) (lambda_ u) (n_z_radar_ u) (n_z_lidar_ u) (z_pred_r_ u) (S_r_ u)
    (Zsig_radar u) (Zsig_lidar u) v (S_l_ u).

Definition set_S_l_ (v : Matrix) (u : UKF) : UKF :=
  mkUKF (is_initialized_ u) (use_laser_ u) (use_radar_ u) (x_ u) (P_ u) (time_us_ u)
    (std_a_ u) (std_yawdd_ u) (std_laspx_ u) (std_laspy_ u) (std_radr_ u) (std_radphi_
    u) (std_radrd_ u) (n_x_ u) (n_aug_ u) (Xsig_ u) (Xsig_aug_ u) (Xsig_pred_ u)
    (weights_ u) (lambda_ u) (n_z_radar_ u) (n_z_lidar_ u) (z_pred_r_ u) (S_r_ u)
    (Zsig_radar u) (Zsig_lidar u) (z_pred_l_ u) v.
(** ukf.cpp:11-105, the constructor.  Eigen leaves the coefficients of a
    freshly sized vector or matrix unspecified, and [time_us_] is not set;
    they read as zero here, and every property below that starts from an
    uninitialised filter is stated for arbitrary contents. *)
Definition UKF_new : UKF :=
  let n_x := 5%nat in
  let n_aug := 7%nat in
  let n_z_radar := 3%nat in
  let n_z_lidar := 2%nat in
  mkUKF
    false true true
    (vzero 5) (mzero 5 5) 0%Z
    1.5 2.0 0.15 0.15 0.3 0.03 0.3
    n_x n_aug
    (mzero n_x (2 * n_x + 1))
    (mzero n_aug (2 * n_aug + 1))
    (mzero n_x (2 * n_aug + 1))
    (vzero (2 * n_aug + 1))
    (IZR (3 - Z.of_nat n_x))
    n_z_radar n_z_lidar
    (vzero n_z_radar) (mzero n_z_radar n_z_radar)
    (mzero n_z_radar (2 * n_aug + 1))
    (mzero n_z_lidar (2 * n_aug + 1))
    (vzero n_z_lidar) (mzero n_z_lidar n_z_lidar).

(* ================================================================== *)
(** * The member functions *)

(** ukf.cpp:149-153, the prior covariance. *)
Definition P_prior : Matrix := diag [1; 1; 1; 0.5; 0.5].

(** ukf.cpp:141-182. *)
Definition InitializeUKF (u : UKF) (meas_package : MeasurementPackage) : UKF :=
  let u := set_is_initialized_ true u in
  let u := set_time_us_ (timestamp_ meas_package) u in
  let u := set_P_ P_prior u in
  let '(px, py) :=
    match sensor_type_ meas_package with
    | LASER =>
        (vget (raw_measurements_ meas_package) 0,
         vget (raw_measurements_ meas_package) 1)
    | RADAR =>
        let rho := vget (raw_measurements_ meas_package) 0 in
        let phi := vget (raw_measurements_ meas_package) 1 in
        (cos phi * rho, sin phi * rho)
    end in
  let u := set_x_ [px; py; 0; 0; 0] u in
  set_weights_ (init_weights exact (lambda_ u) (n_aug_ u) (weights_ u)) u.

(** ukf.cpp:201-211, the augmented mean and covariance. *)
Definition augmented_mean (u : UKF) : Vector :=
  overwrite_head (n_x_ u) (x_ u) (vzero (n_aug_ u)).

Definition augmented_covariance (u : UKF) : Matrix :=
  let P_aug := mzero (n_aug_ u) (n_aug_ u) in
  let P_aug := overwrite_topleft (n_x_ u) (n_x_ u) (P_ u) P_aug in
  let P_aug := mset (n_x_ u) (n_x_ u) (std_a_ u * std_a_ u) P_aug in
  mset (n_x_ u + 1) (n_x_ u + 1) (std_yawdd_ u * std_yawdd_ u) P_aug.

(** The constant of the test at ukf.cpp:245.  The literal [0.001] is a
    [double]: the binary64 number nearest to 1/1000, which is
    0x1.0624dd2f1a9fcp-10 = 1152921504606847 / 2^60, a little above
    1/1000. *)
Definition yawd_guard : R := 1152921504606847 / 1152921504606846976.

(** ukf.cpp:226-275, one iteration of the loop over the sigma points. *)
Definition SigmaPointPrediction_body (delta_t : R) (Xsig_aug : Matrix)
    (Xsig_pred : Matrix) (i : nat) : Matrix :=
  let p_x := mget Xsig_aug 0 i in
  let p_y := mget Xsig_aug 1 i in
  let v := mget Xsig_aug 2 i in
  let yaw := mget Xsig_aug 3 i in
  let yawd := mget Xsig_aug 4 i in
  let nu_a := mget Xsig_aug 5 i in
  let nu_yawdd := mget Xsig_aug 6 i in
  let '(px_p, py_p) :=
    if Rgt_dec (Rabs yawd) yawd_guard
    then (p_x + v / yawd * (sin (yaw + yawd * delta_t) - sin yaw),
          p_y + v / yawd * (cos yaw - cos (yaw + yawd * delta_t)))
    else (p_x + v * delta_t * cos yaw,
          p_y + v * delta_t * sin yaw) in
  let v_p := v in
  let yaw_p := yaw + yawd * delta_t in
  let yawd_p := yawd in
  let px_p := px_p + 0.5 * nu_a * delta_t * delta_t * cos yaw in
  let py_p := py_p + 0.5 * nu_a * delta_t * delta_t * sin yaw in
  let v_p := v_p + nu_a * delta_t in
  let yaw_p := yaw_p + 0.5 * nu_yawdd * delta_t * delta_t in
  let yawd_p := yawd_p + nu_yawdd * delta_t in
  let Xsig_pred := mset 0 i px_p Xsig_pred in
  let Xsig_pred := mset 1 i py_p Xsig_pred in
  let Xsig_pred := mset 2 i v_p Xsig_pred in
  let Xsig_pred := mset 3 i yaw_p Xsig_pred in
  mset 4 i yawd_p Xsig_pred.

Definition SigmaPointPrediction (u : UKF) (delta_t : R) : UKF :=
  let Xsig_pred := mfill (Xsig_pred_ u) 0 in
  set_Xsig_pred_
    (fold_left (SigmaPointPrediction_body delta_t (Xsig_aug_ u))
       (seq 0 (2 * n_aug_ u + 1)) Xsig_pred)
    u.

(** ukf.cpp:292-304 and 483-492: a state difference with its heading
    coefficient passed through the two loops. *)
Definition normalize_at (k : nat) (d : Vector) : Vector :=
  vset k (angle_normalization (vget d k)) d.

(** ukf.cpp:279-285, the loop that accumulates the predicted state mean. *)
Definition PredictMeanAndCovariance_x (u : UKF) : Vector :=
  fold_left
    (fun x i => vadd x (vscale (vget (weights_ u) i) (col (Xsig_pred_ u) i)))
    (seq 0 (2 * n_aug_ u + 1)) (vfill (x_ u) 0).

(** ukf.cpp:287-305, the loop that accumulates the predicted state
    covariance around the mean [x]. *)
Definition PredictMeanAndCovariance_P (u : UKF) (x : Vector) : Matrix :=
  fold_left
    (fun P i =>
       let x_diff := vsub (col (Xsig_pred_ u) i) x in
       let x_diff := normalize_at 3 x_diff in
       madd P (outer (vscale (vget (weights_ u) i) x_diff) x_diff))
    (seq 0 (2 * n_aug_ u + 1)) (mfill (P_ u) 0).

(** ukf.cpp:277-306. *)
Definition PredictMeanAndCovariance (u : UKF) : UKF :=
  let x := PredictMeanAndCovariance_x u in
  let P := PredictMeanAndCovariance_P u x in
  set_P_ P (set_x_ x u).

(** ukf.cpp:311-328, one iteration of the projection loop. *)
Definition PredictRadarMeasurement_body (Xsig_pred : Matrix) (Zsig : Matrix)
    (i : nat) : Matrix :=
  let p_x := mget Xsig_pred 0 i in
  let p_y := mget Xsig_pred 1 i in
  let v := mget Xsig_pred 2 i in
  let yaw := mget Xsig_pred 3 i in
  let v1 := cos yaw * v in
  let v2 := sin yaw * v in
  let Zsig := mset 0 i (radar_rho exact p_x p_y) Zsig in
  let Zsig := mset 1 i (atan2 p_y p_x) Zsig in
  mset 2 i (radar_r_dot exact p_x p_y v1 v2) Zsig.

Definition PredictRadarMeasurement_Zsig (u : UKF) : Matrix :=
  fold_left (PredictRadarMeasurement_body (Xsig_pred_ u))
    (seq 0 (2 * n_aug_ u + 1)) (mfill (Zsig_radar u) 0).

(** ukf.cpp:330-335. *)
Definition PredictRadarMeasurement_z_pred (u : UKF) (Zsig : Matrix) : Vector :=
  fold_left
    (fun z i => vadd z (vscale (vget (weights_ u) i) (col Zsig i)))
    (seq 0 (2 * n_aug_ u + 1)) (vfill (z_pred_r_ u) 0).

(** ukf.cpp:337-362. *)
Definition PredictRadarMeasurement_S (u : UKF) (Zsig : Matrix) (z_pred : Vector)
  : Matrix :=
  let S :=
    fold_left
      (fun S i =>
         let z_diff := vsub (col Zsig i) z_pred in
         let z_diff := normalize_at 1 z_diff in
         madd S (outer (vscale (vget (weights_ u) i) z_diff) z_diff))
      (seq 0 (2 * n_aug_ u + 1)) (mfill (S_r_ u) 0) in
  let R :=
    diag [std_radr_ u * std_radr_ u;
          std_radphi_ u * std_radphi_ u;
          std_radrd_ u * std_radrd_ u] in
  madd S R.

(** ukf.cpp:308-363. *)
Definition PredictRadarMeasurement (u : UKF) : UKF :=
  let Zsig := PredictRadarMeasurement_Zsig u in
  let z_pred := PredictRadarMeasurement_z_pred u Zsig in
  let S := PredictRadarMeasurement_S u Zsig z_pred in
  set_S_r_ S (set_z_pred_r_ z_pred (set_Zsig_radar Zsig u)).

(** ukf.cpp:368-379, one iteration of the projection loop. *)
Definition PredictLidarMeasurement_body (Xsig_pred : Matrix) (Zsig : Matrix)
    (i : nat) : Matrix :=
  let p_x := mget Xsig_pred 0 i in
  let p_y := mget Xsig_pred 1 i in
  let Zsig := mset 0 i p_x Zsig in
  mset 1 i p_y Zsig.

Definition PredictLidarMeasurement_Zsig (u : UKF) : Matrix :=
  fold_left (PredictLidarMeasurement_body (Xsig_pred_ u))
    (seq 0 (2 * n_aug_ u + 1)) (mfill (Zsig_lidar u) 0).

(** ukf.cpp:381-386. *)
Definition PredictLidarMeasurement_z_pred (u : UKF) (Zsig : Matrix) : Vector :=
  fold_left
    (fun z i => vadd z (vscale (vget (weights_ u) i) (col Zsig i)))
    (seq 0 (2 * n_aug_ u + 1)) (vfill (z_pred_l_ u) 0).

(** ukf.cpp:388-403. *)
Definition PredictLidarMeasurement_S (u : UKF) (Zsig : Matrix) (z_pred : Vector)
  : Matrix :=
  let S :=
    fold_left
      (fun S i =>
         let z_diff := vsub (col Zsig i) z_pred in
         madd S (outer (vscale (vget (weights_ u) i) z_diff) z_diff))
      (seq 0 (2 * n_aug_ u + 1)) (mfill (S_l_ u) 0) in
  let R := diag [std_laspx_ u * std_laspx_ u; std_laspy_ u * std_laspy_ u] in
  madd S R.

(** ukf.cpp:365-404. *)
Definition PredictLidarMeasurement (u : UKF) : UKF :=
  let Zsig := PredictLidarMeasurement_Zsig u in
  let z_pred := PredictLidarMeasurement_z_pred u Zsig in
  let S := PredictLidarMeasurement_S u Zsig z_pred in
  set_S_l_ S (set_z_pred_l_ z_pred (set_Zsig_lidar Zsig u)).

(** ukf.cpp:418-432, the cross-correlation matrix of the lidar update. *)
Definition UpdateLidar_Tc (u : UKF) : Matrix :=
  fold_left
    (fun Tc i =>
       let z_diff := vsub (col (Zsig_lidar u) i) (z_pred_l_ u) in
       let x_diff := vsub (col (Xsig_pred_ u) i) (x_ u) in
       madd Tc (outer (vscale (vget (weights_ u) i) x_diff) z_diff))
    (seq 0 (2 * n_aug_ u + 1)) (mzero (n_x_ u) (n_z_lidar_ u)).

(** ukf.cpp:462-495, the cross-correlation matrix of the radar update. *)
Definition UpdateRadar_Tc (u : UKF) : Matrix :=
  fold_left
    (fun Tc i =>
       let z_diff := vsub (col (Zsig_radar u) i) (z_pred_r_ u) in
       let z_diff := normalize_at 1 z_diff in
       let x_diff := vsub (col (Xsig_pred_ u) i) (x_ u) in
       let x_diff := normalize_at 3 x_diff in
       madd Tc (outer (vscale (vget (weights_ u) i) x_diff) z_diff))
    (seq 0 (2 * n_aug_ u + 1)) (mzero (n_x_ u) (n_z_radar_ u)).

Section Filter.

Variable E : EigenOps.

(** ukf.cpp:196-224. *)
Definition GenerateAugmentedSigmaPoints (u : UKF) : UKF :=
  let Xsig_aug := mfill (Xsig_aug_ u) 0 in
  let x_aug := augmented_mean u in
  let P_aug := augmented_covariance u in
  let L := matrixL (llt E P_aug) in
  let Xsig_aug := set_col 0 x_aug Xsig_aug in
  let Xsig_aug :=
    fold_left
      (fun X i =>
         let X :=
           set_col (i + 1)
             (vadd x_aug (vscale (sqrt (lambda_ u + INR (n_aug_ u))) (col L i))) X in
         set_col (i + 1 + n_aug_ u)
           (vsub x_aug (vscale (sqrt (lambda_ u + INR (n_aug_ u))) (col L i))) X)
      (seq 0 (n_aug_ u)) Xsig_aug in
  set_Xsig_aug_ Xsig_aug u.

(** ukf.cpp:184-194. *)
Definition Prediction (u : UKF) (delta_t : R) : UKF :=
  let u := GenerateAugmentedSigmaPoints u in
  let u := SigmaPointPrediction u delta_t in
  PredictMeanAndCovariance u.

(** ukf.cpp:405-443. *)
Definition UpdateLidar (u : UKF) (meas_package : MeasurementPackage) : UKF :=
  let z :=
    [vget (raw_measurements_ meas_package) 0;
     vget (raw_measurements_ meas_package) 1] in
  let Tc := UpdateLidar_Tc u in
  let K := mmul Tc (inverse E (S_l_ u)) in
  let z_diff := vsub z (z_pred_l_ u) in
  let x := vadd (x_ u) (mat_vec K z_diff) in
  let P := msub (P_ u) (mmul (mmul K (S_l_ u)) (transpose K)) in
  set_P_ P (set_x_ x u).

(** ukf.cpp:445-516. *)
Definition UpdateRadar (u : UKF) (meas_package : MeasurementPackage) : UKF :=
  let z :=
    [vget (raw_measurements_ meas_package) 0;
     vget (raw_measurements_ meas_package) 1;
     vget (raw_measurements_ meas_package) 2] in
  let Tc := UpdateRadar_Tc u in
  let K := mmul Tc (inverse E (S_r_ u)) in
  let z_diff := vsub z (z_pred_r_ u) in
  let z_diff := normalize_at 1 z_diff in
  let x := vadd (x_ u) (mat_vec K z_diff) in
  let P := msub (P_ u) (mmul (mmul K (S_r_ u)) (transpose K)) in
  set_P_ P (set_x_ x u).

(** The value a 64-bit two's-complement integer holds for [z]: the
    timestamps are [long long], and their difference wraps modulo 2^64. *)
Definition wrap64 (z : Z) : Z := ((z + 2 ^ 63) mod 2 ^ 64 - 2 ^ 63)%Z.

(** ukf.cpp:121-122, the elapsed time in seconds: the 64-bit difference of
    the two integer microsecond timestamps, divided by the double
    1000000.0. *)
Definition elapsed_seconds (u : UKF) (meas_package : MeasurementPackage) : R :=
  IZR (wrap64 (timestamp_ meas_package - time_us_ u)) / 1000000.0.

(** ukf.cpp:128-138, the dispatch on the sensor type. *)
Definition Update (u : UKF) (meas_package : MeasurementPackage) : UKF :=
  match sensor_type_ meas_package with
  | LASER => UpdateLidar (PredictLidarMeasurement u) meas_package
  | RADAR => UpdateRadar (PredictRadarMeasurement u) meas_package
  end.

(** ukf.cpp:109-139. *)
Definition ProcessMeasurement (u : UKF) (meas_package : MeasurementPackage) : UKF :=
  if negb (is_initialized_ u) then InitializeUKF u meas_package
  else
    let delta_t := elapsed_seconds u meas_package in
    let u := set_time_us_ (timestamp_ meas_package) u in
    let u := Prediction u delta_t in
    Update u meas_package.

End Filter.

(* ================================================================== *)
(** * Dimensions *)

(** A matrix of [r] rows and [c] columns. *)
Definition dims (r c : nat) (M : Matrix) : Prop :=
  length M = c /\ Forall (fun v => length v = r) M.

(** The sizes the constructor gives the members (ukf.cpp:61-104); no member
    function resizes them. *)
Record well_formed (u : UKF) : Prop := mk_well_formed {
  wf_n_x : n_x_ u = 5%nat;
  wf_n_aug : n_aug_ u = 7%nat;
  wf_n_z_radar : n_z_radar_ u = 3%nat;
  wf_n_z_lidar : n_z_lidar_ u = 2%nat;
  wf_x : length (x_ u) = 5%nat;
  wf_P : dims 5 5 (P_ u);
  wf_Xsig_aug : dims 7 15 (Xsig_aug_ u);
  wf_Xsig_pred : dims 5 15 (Xsig_pred_ u);
  wf_weights : length (weights_ u) = 15%nat;
  wf_z_pred_r : length (z_pred_r_ u) = 3%nat;
  wf_S_r : dims 3 3 (S_r_ u);
  wf_Zsig_radar : dims 3 15 (Zsig_radar u);
  wf_Zsig_lidar : dims 2 15 (Zsig_lidar u);
  wf_z_pred_l : length (z_pred_l_ u) = 2%nat;
  wf_S_l : dims 2 2 (S_l_ u)
}.

(* ================================================================== *)
(** * Example states *)

(** The filter after a first LIDAR measurement [1.0, 2.0] at one second. *)
Definition tracked : UKF :=
  InitializeUKF UKF_new (mkMeas 1000000 LASER [1.0; 2.0]).

(** A filter with the constructor's noise parameters and spreading
    parameter and the weights of [InitializeUKF]. *)
Record configured (u : UKF) : Prop := mk_configured {
  cf_wf : well_formed u;
  cf_std_a : std_a_ u = 1.5;
  cf_std_yawdd : std_yawdd_ u = 2.0;
  cf_lambda : lambda_ u = -2;
  cf_weights :
    weights_ u = lambda_ u / (lambda_ u + 7) :: repeat (0.5 / (7 + lambda_ u)) 14
}.

(** A filter moving at 1 m/s along x whose heading variance is 5 rad^2. *)
Definition cruising : UKF :=
  set_P_ (diag [1; 1; 1; 5; 0.5]) (set_x_ [1.0; 2.0; 1.0; 0; 0] tracked).


(* ================================================================== *)
(** * The specification's readings *)

(** One column of the prediction loop as a function of the augmented
    column, the yaw rate being tested against [guard]. *)
Definition ctrv_column (guard dt : R) (p : Vector) : Vector :=
  let px := vget p 0 in
  let py := vget p 1 in
  let v := vget p 2 in
  let yaw := vget p 3 in
  let yaw_rate := vget p 4 in
  let nu_a := vget p 5 in
  let nu_yawdd := vget p 6 in
  let px' :=
    if Rgt_dec (Rabs yaw_rate) guard
    then px + (v / yaw_rate) * (sin (yaw + yaw_rate * dt) - sin yaw)
    else px + v * dt * cos yaw in
  let py' :=
    if Rgt_dec (Rabs yaw_rate) guard
    then py + (v / yaw_rate) * (cos yaw - cos (yaw + yaw_rate * dt))
    else py + v * dt * sin yaw in
  [px' + / 2 * nu_a * dt ^ 2 * cos yaw;
   py' + / 2 * nu_a * dt ^ 2 * sin yaw;
   v + nu_a * dt;
   yaw + yaw_rate * dt + / 2 * nu_yawdd * dt ^ 2;
   yaw_rate + nu_yawdd * dt].

(** The column ukf.cpp:233-273 computes: the test is against the double
    constant. *)
Definition ctrv_step (dt : R) (p : Vector) : Vector := ctrv_column yawd_guard dt p.

(** The CTRV step of one augmented sigma point as section 4.2 of the
    specification writes it: the general branch exactly when
    [|yaw_rate| > 1e-3]. *)
Definition ctrv_spec (dt : R) (p : Vector) : Vector := ctrv_column (1 / 1000) dt p.


(** [M] has at least one column, every column has [n] coefficients, and row
    [r] is zero. *)
Definition row_zero (n r : nat) (M : Matrix) : Prop :=
  M <> [] /\ Forall (fun c => length c = n /\ vget c r = 0) M.


(** ** Closed forms for one cycle from a state with a diagonal factor *)

(** The augmented sigma points of the state [px, py, v, yaw, yawd] when the
    factor of the augmented covariance is diag(l) and the spread is
    [gamma]. *)
Definition sigma_aug (px py v yaw yawd gamma : R) (l : list R) : Matrix :=
  let x0 := [px; py; v; yaw; yawd; 0; 0] in
  x0 :: map (fun k => upd k (nth k x0 0 + gamma * nth k l 0) x0) (seq 0 7)
     ++ map (fun k => upd k (nth k x0 0 - gamma * nth k l 0) x0) (seq 0 7).

(** The displacement of a unit-speed point over [t] seconds, by the branch
    of ukf.cpp:245-254 that the yaw rate selects. *)
Definition ctrv_dx (yaw yawd t : R) : R :=
  if Rgt_dec (Rabs yawd) yawd_guard
  then (sin (yaw + yawd * t) - sin yaw) / yawd
  else t * cos yaw.

Definition ctrv_dy (yaw yawd t : R) : R :=
  if Rgt_dec (Rabs yawd) yawd_guard
  then (cos yaw - cos (yaw + yawd * t)) / yawd
  else t * sin yaw.

(** The seven predicted sigma points on one side of the mean; [g k] is the
    signed offset [+- gamma * l(k)]. *)
Definition sigma_pred_half (px py v yaw yawd t : R) (g : nat -> R) : Matrix :=
  let dx := ctrv_dx yaw yawd t in
  let dy := ctrv_dy yaw yawd t in
  let h := yaw + yawd * t in
  [[px + g 0%nat + v * dx; py + v * dy; v; h; yawd];
   [px + v * dx; py + g 1%nat + v * dy; v; h; yawd];
   [px + (v + g 2%nat) * dx; py + (v + g 2%nat) * dy; v + g 2%nat; h; yawd];
   [px + v * ctrv_dx (yaw + g 3%nat) yawd t; py + v * ctrv_dy (yaw + g 3%nat) yawd t;
    v; yaw + g 3%nat + yawd * t; yawd];
   [px + v * ctrv_dx yaw (yawd + g 4%nat) t; py + v * ctrv_dy yaw (yawd + g 4%nat) t;
    v; yaw + (yawd + g 4%nat) * t; yawd + g 4%nat];
   [px + v * dx + / 2 * g 5%nat * t ^ 2 * cos yaw;
    py + v * dy + / 2 * g 5%nat * t ^ 2 * sin yaw;
    v + g 5%nat * t; h; yawd];
   [px + v * dx; py + v * dy; v; h + / 2 * g 6%nat * t ^ 2; yawd + g 6%nat * t]].

Definition sigma_pred (px py v yaw yawd gamma t : R) (l : list R) : Matrix :=
  [px + v * ctrv_dx yaw yawd t; py + v * ctrv_dy yaw yawd t; v; yaw + yawd * t; yawd]
  :: sigma_pred_half px py v yaw yawd t (fun k => gamma * nth k l 0)
  ++ sigma_pred_half px py v yaw yawd t (fun k => - (gamma * nth k l 0)).

(** The radar image of a predicted sigma point (ukf.cpp:316-327). *)
Definition radar_point (c : Vector) : Vector :=
  [radar_rho exact (vget c 0) (vget c 1);
   atan2 (vget c 1) (vget c 0);
   radar_r_dot exact (vget c 0) (vget c 1)
     (cos (vget c 3) * vget c 2) (sin (vget c 3) * vget c 2)].

(** [ProcessMeasurement] as sections 5 and 7 of the specification describe
    it: when the timestamp is not later than the previous one the elapsed
    time is clamped to zero. *)
Definition ProcessMeasurement_clamped (E : EigenOps) (u : UKF)
    (meas_package : MeasurementPackage) : UKF :=
  if negb (is_initialized_ u) then InitializeUKF u meas_package
  else
    let delta_t := elapsed_seconds u meas_package in
    let delta_t := if Rle_dec delta_t 0 then 0 else delta_t in
    let u := set_time_us_ (timestamp_ meas_package) u in
    let u := Prediction E u delta_t in
    Update E u meas_package.

(** The cross-correlation of the lidar update as section 4.4 of the
    specification describes it: the heading coefficient of every state
    deviation is normalised, as [UpdateRadar] does. *)
Definition UpdateLidar_Tc_spec (u : UKF) : Matrix :=
  fold_left
    (fun Tc i =>
       let z_diff := vsub (col (Zsig_lidar u) i) (z_pred_l_ u) in
       let x_diff := vsub (col (Xsig_pred_ u) i) (x_ u) in
       let x_diff := normalize_at 3 x_diff in
       madd Tc (outer (vscale (vget (weights_ u) i) x_diff) z_diff))
    (seq 0 (2 * n_aug_ u + 1)) (mzero (n_x_ u) (n_z_lidar_ u)).

(** A reference Eigen whose factorisation always reports [Success]. *)
Definition eigen_silent : EigenOps :=
  mkEigenOps (fun M => mkLLT (matrixL (llt_reference M)) Success) inverse_reference.

(* ================================================================== *)
(** * Shapes and closed forms used by the properties of the cycle *)

(** What the filter takes for granted from Eigen: the factor of a 7x7
    matrix is 7x7, and the inverse of a square matrix has its size. *)
Record well_shaped (E : EigenOps) : Prop := mk_well_shaped {
  ws_llt : forall M : Matrix, dims 7 7 M -> dims 7 7 (matrixL (llt E M));
  ws_inverse : forall (n : nat) (M : Matrix), dims n n M -> dims n n (inverse E M)
}.

(** ** Closed forms for a radar cycle at no elapsed time from a state at rest *)

(** The predicted sigma points of the state [px, py, 0, 0, 0] after no
    elapsed time: the augmented sigma points without their noise
    coefficients. *)
Definition still_half (px py : R) (g : nat -> R) : Matrix :=
  [[px + g 0%nat; py; 0; 0; 0];
   [px; py + g 1%nat; 0; 0; 0];
   [px; py; g 2%nat; 0; 0];
   [px; py; 0; g 3%nat; 0];
   [px; py; 0; 0; g 4%nat];
   [px; py; 0; 0; 0];
   [px; py; 0; 0; 0]].

Definition still_points (px py gamma : R) (l : list R) : Matrix :=
  [px; py; 0; 0; 0]
  :: still_half px py (fun k => gamma * nth k l 0)
  ++ still_half px py (fun k => - (gamma * nth k l 0)).

(** Their radar images when the state lies on the x axis at [p], ahead of
    the spread [gamma * l0]. *)
Definition still_radar_half (p rho2 theta g0 g2 : R) : Matrix :=
  [[p + g0; 0; 0];
   [rho2; theta; 0];
   [p; 0; g2];
   [p; 0; 0];
   [p; 0; 0];
   [p; 0; 0];
   [p; 0; 0]].

Definition still_radar (p gamma l0 l1 l2 : R) : Matrix :=
  let rho2 := sqrt (p * p + gamma * l1 * (gamma * l1)) in
  let theta := atan (gamma * l1 / p) in
  [p; 0; 0]
  :: still_radar_half p rho2 theta (gamma * l0) (gamma * l2)
  ++ still_radar_half p rho2 (- theta) (- (gamma * l0)) (- (gamma * l2)).

(** ** Closed forms for a lidar cycle from a state moving along x *)

(** The predicted sigma points of the state [px, py, v, 0, 0] after [t]
    seconds; [sgn] is the side of the mean. *)
Definition straight_half (px py v t sgn : R) (g : nat -> R) : Matrix :=
  [[px + sgn * g 0%nat + v * t; py; v; 0; 0];
   [px + v * t; py + sgn * g 1%nat; v; 0; 0];
   [px + (v + sgn * g 2%nat) * t; py; v + sgn * g 2%nat; 0; 0];
   [px + v * (t * cos (g 3%nat)); py + sgn * (v * (t * sin (g 3%nat))); v; sgn * g 3%nat; 0];
   [px + v * (sin (g 4%nat * t) / g 4%nat);
    py + sgn * (v * ((1 - cos (g 4%nat * t)) / g 4%nat));
    v; sgn * (g 4%nat * t); sgn * g 4%nat];
   [px + v * t + sgn * (/ 2 * g 5%nat * t ^ 2); py; v + sgn * (g 5%nat * t); 0; 0];
   [px + v * t; py; v; sgn * (/ 2 * g 6%nat * t ^ 2); sgn * (g 6%nat * t)]].

Definition straight_points (px py v gamma t : R) (l : list R) : Matrix :=
  [px + v * t; py; v; 0; 0]
  :: straight_half px py v t 1 (fun k => gamma * nth k l 0)
  ++ straight_half px py v t (-1) (fun k => gamma * nth k l 0).

(** The predicted x position, the two diagonal coefficients of the lidar
    innovation covariance and the heading-to-py cross-correlation of that
    state; [std] is the lidar noise standard deviation. *)
Definition straight_mean_x (px v gamma t l3 l4 : R) : R :=
  let w := / (2 * (gamma * gamma)) in
  px + v * t
  + 2 * w * v * (t * cos (gamma * l3) + sin (gamma * l4 * t) / (gamma * l4) - 2 * t).

Definition straight_S00 (std v gamma t l0 l2 l3 l4 l5 : R) : R :=
  let w := / (2 * (gamma * gamma)) in
  let e4 := v * (t * cos (gamma * l3)) - v * t in
  let e5 := v * (sin (gamma * l4 * t) / (gamma * l4)) - v * t in
  2 * w * ((gamma * l0) ^ 2 + (gamma * l2 * t) ^ 2 + (/ 2 * (gamma * l5) * t ^ 2) ^ 2)
  + 2 * w * (e4 ^ 2 + e5 ^ 2) - (2 * w * (e4 + e5)) ^ 2
  + std * std.

Definition straight_S11 (std v gamma t l1 l3 l4 : R) : R :=
  let w := / (2 * (gamma * gamma)) in
  2 * w * ((gamma * l1) ^ 2 + (v * (t * sin (gamma * l3))) ^ 2
           + (v * ((1 - cos (gamma * l4 * t)) / (gamma * l4))) ^ 2)
  + std * std.

Definition straight_Tc31 (v gamma t l3 l4 : R) : R :=
  let w := / (2 * (gamma * gamma)) in
  2 * w * v * t * (gamma * l3 * sin (gamma * l3) + (1 - cos (gamma * l4 * t))).

(** ** Two measurements that set a filter moving along the x axis *)

(** A first LIDAR return on the x axis, and a RADAR return with the same
    timestamp and a range rate of 1.09 m/s. *)
Definition first_return : MeasurementPackage := mkMeas 1000000 LASER [10; 0].
Definition radar_return : MeasurementPackage := mkMeas 1000000 RADAR [10; 0; 1.09].

(** A filter whose fifteen predicted sigma points all sit at (3, 4) with a
    speed of 2 m/s along x. *)
Definition approaching : UKF :=
  set_Xsig_pred_ (repeat [3; 4; 2; 0; 0] 15) tracked.

(** A filter whose fifteen augmented sigma points are all
    (1, 2, 3, 0.5, 0.1, 0.2, 0.3): a point that turns at 0.1 rad/s. *)
Definition turning : UKF :=
  set_Xsig_aug_ (repeat [1; 2; 3; 0.5; 0.1; 0.2; 0.3] 15) tracked.

(** A filter whose fifteen augmented sigma points move at 1 m/s along x
    with a yaw rate equal to the double constant of ukf.cpp:245. *)
Definition at_the_guard : UKF :=
  set_Xsig_aug_ (repeat [0; 0; 1; 0; yawd_guard; 0; 0] 15) tracked.

(** ** Ranges in which the double computation neither wraps, underflows nor
    overflows *)

(** A value of a [long long]. *)
Definition int64 (z : Z) : Prop := (- 2 ^ 63 <= z < 2 ^ 63)%Z.

(** A predicted sigma point whose radar projection stays among the normal
    doubles: its position is at least 1e-150 from the origin in one
    coordinate, and position and speed are at most 1e150, so that neither
    [p_x * p_x + p_y * p_y] nor [p_x * v1 + p_y * v2] underflows to zero or
    overflows. *)
Definition radar_safe (p : Vector) : Prop :=
  (/ 10 ^ 150 <= Rabs (vget p 0) \/ / 10 ^ 150 <= Rabs (vget p 1))
  /\ Rabs (vget p 0) <= 10 ^ 150
  /\ Rabs (vget p 1) <= 10 ^ 150
  /\ Rabs (vget p 2) <= 10 ^ 150.

(** Values far from the overflow threshold of a double: at most 1000 in
    absolute value. *)
Definition moderate (l : list R) : Prop := Forall (fun x => Rabs x <= 1000) l.

(** The filter [tracked] with a covariance whose first variance is zero: its
    augmented covariance is not positive definite. *)
Definition degenerate : UKF := set_P_ (diag [0; 1; 1; 0.5; 0.5]) tracked.

(** The filter after [first_return] and [radar_return]: its estimate moves
    at 1 m/s along the x axis. *)
Definition moving : UKF :=
  ProcessMeasurement eigen_reference
    (ProcessMeasurement eigen_reference UKF_new first_return) radar_return.

(* ================================================================== *)
(** * Tactics and list lemmas *)

(** A list of known length, opened into its elements. *)
Ltac open_list l :=
  repeat (let a := fresh "a" in destruct l as [|a l]; [discriminate|]);
  destruct l; [|discriminate].

(** Decimal literals, unfolded to quotients of integers for [field]. *)
Ltac norm_decimals :=
  try unfold Q2R; cbn [QArith_base.Qnum QArith_base.Qden].

(** Ring equations in which [0.5] stands for a half and quotients are
    products by an inverse. *)
Ltac half_ring := try replace 0.5 with (/ 2) by lra; unfold Rdiv; ring.

Ltac eval_lists :=
  cbv beta iota zeta delta
    [fold_left fold_right seq map map2 nth upd repeat length app
     Nat.add Nat.mul Nat.sub Nat.ltb Nat.leb Nat.even Nat.eqb
     vget col mget vset set_col mset vfill mfill vzero mzero vadd vsub vscale madd msub
     outer rows row dot mat_vec mmul transpose overwrite_head overwrite_topleft diag
     llt_pivot llt_column llt_unblocked lower_triangle llt_reference
     remove_nth minor sign det inverse_reference].

Ltac list_eq tac :=
  repeat (apply f_equal2; [tac|]); try reflexivity.

Lemma dims_mzero (r c : nat) : dims r c (mzero r c).
Proof.
  split; [apply repeat_length|].
  apply Forall_forall. intros v Hv. apply repeat_spec in Hv. subst v. apply repeat_length.
Qed.

Lemma well_formed_new : well_formed UKF_new.
Proof.
  constructor; try reflexivity; try apply dims_mzero.
Qed.

Lemma upd_length {A : Type} (i : nat) (v : A) (l : list A) : length (upd i v l) = length l.
Proof.
  revert i. induction l as [|h t IH]; intros [|i]; simpl; auto.
Qed.

Lemma nth_upd_eq {A : Type} (i : nat) (v d : A) (l : list A) :
  (i < length l)%nat -> nth i (upd i v l) d = v.
Proof.
  revert i. induction l as [|h t IH]; intros [|i] H; simpl in *; try lia; auto.
  apply IH. lia.
Qed.

Lemma nth_upd_neq {A : Type} (i j : nat) (v d : A) (l : list A) :
  i <> j -> nth j (upd i v l) d = nth j l d.
Proof.
  revert i j. induction l as [|h t IH]; intros [|i] [|j] H; simpl; auto; try congruence.
Qed.

Lemma upd_upd {A : Type} (i : nat) (v w : A) (l : list A) :
  upd i v (upd i w l) = upd i v l.
Proof.
  revert i. induction l as [|h t IH]; intros [|i]; simpl; auto. f_equal. apply IH.
Qed.

(** A write at position [k] into a storage whose first [k] cells are [l1]. *)
Lemma upd_app_skipn {A : Type} (l1 M : list A) (v : A) :
  (length l1 < length M)%nat ->
  upd (length l1) v (l1 ++ skipn (length l1) M) = (l1 ++ [v]) ++ skipn (S (length l1)) M.
Proof.
  revert M. induction l1 as [|h t IH]; intros M H; simpl in *.
  - destruct M; simpl in *; [lia | reflexivity].
  - destruct M as [|m M]; simpl in *; [lia|]. f_equal. apply IH. lia.
Qed.

Lemma upd_app_skipn_at {A : Type} (k : nat) (l1 M : list A) (v : A) :
  length l1 = k -> (k < length M)%nat ->
  upd k v (l1 ++ skipn k M) = (l1 ++ [v]) ++ skipn (S k) M.
Proof. intros <- H. apply upd_app_skipn. exact H. Qed.

(** A loop over the indices [0 .. n-1] whose iteration [i] overwrites cell
    [i] with [F i] builds the table of [F]. *)
Lemma fold_left_overwrite {A : Type} (body : list A -> nat -> list A) (F : nat -> A)
    (Q : A -> Prop) :
  (forall M i, (i < length M)%nat -> Forall Q M -> body M i = upd i (F i) M) ->
  (forall i, Q (F i)) ->
  forall M, Forall Q M ->
    fold_left body (seq 0 (length M)) M = map F (seq 0 (length M)).
Proof.
  intros Hbody HF M HM.
  assert (Hk : forall k, (k <= length M)%nat ->
             fold_left body (seq 0 k) M = map F (seq 0 k) ++ skipn k M).
  { induction k as [|k IH]; intros Hle; [reflexivity|].
    rewrite seq_S, fold_left_app, IH by lia. simpl.
    assert (Hlen : length (map F (seq 0 k)) = k) by (rewrite length_map, length_seq; reflexivity).
    rewrite Hbody.
    - rewrite (upd_app_skipn_at k) by (auto; lia).
      rewrite map_app. reflexivity.
    - rewrite length_app, Hlen, length_skipn. lia.
    - apply Forall_app. split.
      + apply Forall_forall. intros x Hx. apply in_map_iff in Hx.
        destruct Hx as (j & <- & _). apply HF.
      + apply Forall_forall. intros x Hx. rewrite Forall_forall in HM. apply HM.
        revert Hx. clear. revert M. induction k; intros [|m M]; simpl; auto. }
  rewrite Hk by lia. rewrite skipn_all. apply app_nil_r.
Qed.

Lemma col_upd_same (i : nat) (c : Vector) (M : Matrix) :
  (i < length M)%nat -> col (upd i c M) i = c.
Proof. intros H. unfold col. apply nth_upd_eq. exact H. Qed.

Lemma mset_upd (r i : nat) (v : R) (c : Vector) (M : Matrix) :
  (i < length M)%nat -> mset r i v (upd i c M) = upd i (upd r v c) M.
Proof.
  intros H. unfold mset. rewrite col_upd_same by exact H. apply upd_upd.
Qed.

Lemma mset_col (r i : nat) (v : R) (M : Matrix) :
  mset r i v M = upd i (upd r v (col M i)) M.
Proof. reflexivity. Qed.


Lemma nth_map_seq {A : Type} (F : nat -> A) (n i : nat) (d : A) :
  (i < n)%nat -> nth i (map F (seq 0 n)) d = F i.
Proof.
  intros H. rewrite (nth_indep _ d (F 0%nat)) by (rewrite length_map, length_seq; exact H).
  rewrite (map_nth F (seq 0 n) 0%nat i), seq_nth by exact H. reflexivity.
Qed.

Lemma nth_map2 {A B C : Type} (f : A -> B -> C) (l : list A) (m : list B)
    (i : nat) (da : A) (db : B) (dc : C) :
  (i < length l)%nat -> (i < length m)%nat ->
  nth i (map2 f l m) dc = f (nth i l da) (nth i m db).
Proof.
  revert m i. induction l as [|a l IH]; intros [|b m] [|i] Hl Hm; simpl in *; try lia; auto.
  apply IH; lia.
Qed.

Lemma length_map2 {A B C : Type} (f : A -> B -> C) (l : list A) (m : list B) :
  length l = length m -> length (map2 f l m) = length l.
Proof.
  revert m. induction l as [|a l IH]; intros [|b m] H; simpl in *; try lia; auto.
Qed.

Lemma vget_vadd (x y : Vector) (r : nat) :
  (r < length x)%nat -> (r < length y)%nat -> vget (vadd x y) r = vget x r + vget y r.
Proof. intros Hx Hy. unfold vget, vadd. apply nth_map2; assumption. Qed.

Lemma vget_vsub (x y : Vector) (r : nat) :
  (r < length x)%nat -> (r < length y)%nat -> vget (vsub x y) r = vget x r - vget y r.
Proof. intros Hx Hy. unfold vget, vsub. apply nth_map2; assumption. Qed.

Lemma col_msub (M N : Matrix) (c : nat) :
  (c < length M)%nat -> (c < length N)%nat -> col (msub M N) c = vsub (col M c) (col N c).
Proof. intros HM HN. unfold col, msub. apply nth_map2; assumption. Qed.

Lemma mfill_dims (r c : nat) (M : Matrix) : dims r c M -> mfill M 0 = mzero r c.
Proof.
  intros [Hlen Hcols]. subst c. unfold mfill, mzero.
  induction M as [|v M IH]; [reflexivity|].
  inversion Hcols as [|? ? Hv HM]; subst. cbn [map length repeat]. f_equal; [|apply IH; exact HM].
  unfold vfill, vzero. clear. induction v; [reflexivity|]. cbn. f_equal. assumption.
Qed.

Lemma vfill_length (n : nat) (x : Vector) : length x = n -> vfill x 0 = vzero n.
Proof.
  intros <-. unfold vfill, vzero. induction x; [reflexivity|]. cbn. f_equal. assumption.
Qed.


Lemma well_formed_set_Xsig_aug_ (u : UKF) (M : Matrix) :
  well_formed u -> dims 7 15 M -> well_formed (set_Xsig_aug_ M u).
Proof. intros [] HM. constructor; assumption. Qed.

Lemma well_formed_set_Xsig_pred_ (u : UKF) (M : Matrix) :
  well_formed u -> dims 5 15 M -> well_formed (set_Xsig_pred_ M u).
Proof. intros [] HM. constructor; assumption. Qed.

Lemma dims_explicit (r c : nat) (M : Matrix) :
  length M = c -> forallb (fun v => Nat.eqb (length v) r) M = true -> dims r c M.
Proof.
  intros Hlen Hall. split; [exact Hlen|]. apply Forall_forall. intros v Hv.
  rewrite forallb_forall in Hall. apply Nat.eqb_eq. apply Hall. exact Hv.
Qed.


Lemma init_weights_exact (lambda : R) (w : list R) :
  length w = 15%nat ->
  init_weights exact lambda 7 w
  = lambda / (lambda + 7) :: repeat (0.5 / (7 + lambda)) 14.
Proof.
  intros Hw. open_list w. reflexivity.
Qed.

Lemma half_over (c : R) : 0.5 / c = 1 / (2 * c).
Proof.
  destruct (Req_dec c 0) as [->|Hc].
  - unfold Rdiv. rewrite Rmult_0_r, Rinv_0. lra.
  - replace 0.5 with (/ 2) by lra. field. exact Hc.
Qed.

(* ================================================================== *)
(** * The angle-normalisation loops in exact arithmetic *)

Lemma Rgtb_true (a b : R) : a > b -> Rgtb a b = true.
Proof. intros H. unfold Rgtb. destruct (Rgt_dec a b); [reflexivity | contradiction]. Qed.

Lemma Rgtb_false (a b : R) : a <= b -> Rgtb a b = false.
Proof. intros H. unfold Rgtb. destruct (Rgt_dec a b); [lra | reflexivity]. Qed.

Lemma Rltb_true (a b : R) : a < b -> Rltb a b = true.
Proof. intros H. unfold Rltb. destruct (Rlt_dec a b); [reflexivity | contradiction]. Qed.

Lemma Rltb_false (a b : R) : b <= a -> Rltb a b = false.
Proof. intros H. unfold Rltb. destruct (Rlt_dec a b); [lra | reflexivity]. Qed.

Lemma while_above_step (fuel : nat) (a : R) :
  while_above exact (S fuel) a
  = if Rgtb a PI then while_above exact fuel (a - 2 * PI) else Some a.
Proof. reflexivity. Qed.

Lemma while_below_step (fuel : nat) (a : R) :
  while_below exact (S fuel) a
  = if Rltb a (- PI) then while_below exact fuel (a + 2 * PI) else Some a.
Proof. reflexivity. Qed.

(** The first loop leaves a value at most [PI] after at most [n]
    subtractions when [a <= PI + 2 PI n]; a value that was subtracted from
    ends above [-PI]. *)
Lemma while_above_terminates (n : nat) :
  forall (a : R) (fuel : nat),
    a <= PI + 2 * PI * INR n -> (n < fuel)%nat ->
    exists b, while_above exact fuel a = Some b
              /\ b <= PI /\ (a <= PI -> b = a) /\ (PI < a -> - PI < b).
Proof.
  pose proof PI_RGT_0 as Hpi.
  induction n as [|n IH]; intros a fuel Ha Hfuel.
  - destruct fuel as [|fuel]; [lia|].
    rewrite while_above_step. simpl in Ha.
    rewrite Rgtb_false by lra.
    exists a. repeat split; auto; lra.
  - destruct fuel as [|fuel]; [lia|].
    rewrite while_above_step.
    destruct (Rle_or_lt a PI) as [Hle|Hgt].
    + rewrite Rgtb_false by lra. exists a. repeat split; auto; lra.
    + rewrite Rgtb_true by lra.
      rewrite S_INR in Ha.
      destruct (IH (a - 2 * PI) fuel) as (b & Hb & Hub & Hid & Hlow); [lra | lia |].
      exists b. split; [exact Hb|]. split; [exact Hub|]. split; [lra|].
      intros _. destruct (Rle_or_lt (a - 2 * PI) PI) as [Hle'|Hgt'].
      * rewrite (Hid Hle'). lra.
      * apply Hlow. exact Hgt'.
Qed.

Lemma while_below_terminates (n : nat) :
  forall (a : R) (fuel : nat),
    - PI - 2 * PI * INR n <= a -> (n < fuel)%nat ->
    exists b, while_below exact fuel a = Some b
              /\ - PI <= b /\ (- PI <= a -> b = a) /\ (a < - PI -> b < PI).
Proof.
  pose proof PI_RGT_0 as Hpi.
  induction n as [|n IH]; intros a fuel Ha Hfuel.
  - destruct fuel as [|fuel]; [lia|].
    rewrite while_below_step. simpl in Ha.
    rewrite Rltb_false by lra.
    exists a. repeat split; auto; lra.
  - destruct fuel as [|fuel]; [lia|].
    rewrite while_below_step.
    destruct (Rle_or_lt (- PI) a) as [Hle|Hgt].
    + rewrite Rltb_false by lra. exists a. repeat split; auto; lra.
    + rewrite Rltb_true by lra.
      rewrite S_INR in Ha.
      destruct (IH (a + 2 * PI) fuel) as (b & Hb & Hlb & Hid & Hup); [lra | lia |].
      exists b. split; [exact Hb|]. split; [exact Hlb|]. split; [lra|].
      intros _. destruct (Rle_or_lt (- PI) (a + 2 * PI)) as [Hle'|Hgt'].
      * rewrite (Hid Hle'). lra.
      * apply Hup. exact Hgt'.
Qed.

(** More fuel does not change a result already reached. *)
Lemma while_above_fuel_mono (fuel : nat) :
  forall (a b : R) (fuel' : nat),
    while_above exact fuel a = Some b -> (fuel <= fuel')%nat ->
    while_above exact fuel' a = Some b.
Proof.
  induction fuel as [|fuel IH]; intros a b fuel' H Hle; [discriminate|].
  destruct fuel' as [|fuel']; [lia|].
  rewrite while_above_step in *.
  destruct (Rgtb a PI); [apply IH; [exact H | lia] | exact H].
Qed.

Lemma while_below_fuel_mono (fuel : nat) :
  forall (a b : R) (fuel' : nat),
    while_below exact fuel a = Some b -> (fuel <= fuel')%nat ->
    while_below exact fuel' a = Some b.
Proof.
  induction fuel as [|fuel IH]; intros a b fuel' H Hle; [discriminate|].
  destruct fuel' as [|fuel']; [lia|].
  rewrite while_below_step in *.
  destruct (Rltb a (- PI)); [apply IH; [exact H | lia] | exact H].
Qed.

Lemma angle_loops_fuel_mono (fuel fuel' : nat) (a b : R) :
  angle_loops exact fuel a = Some b -> (fuel <= fuel')%nat ->
  angle_loops exact fuel' a = Some b.
Proof.
  unfold angle_loops. intros H Hle.
  destruct (while_above exact fuel a) as [c|] eqn:Hc; [|discriminate].
  rewrite (while_above_fuel_mono fuel a c fuel' Hc Hle).
  apply (while_below_fuel_mono fuel); assumption.
Qed.

(** [loop_fuel a] covers the distance of [a] from the interval. *)
Lemma loop_fuel_covers (a : R) :
  exists n : nat, loop_fuel a = S n /\ Rabs a <= 2 * PI * INR n.
Proof.
  pose proof PI_RGT_0 as Hpi.
  unfold loop_fuel. exists (Z.to_nat (up (Rabs a / (2 * PI)))). split; [reflexivity|].
  destruct (archimed (Rabs a / (2 * PI))) as [Hup _].
  assert (Hq : 0 <= Rabs a / (2 * PI)).
  { apply Rmult_le_pos; [apply Rabs_pos | left; apply Rinv_0_lt_compat; lra]. }
  assert (Hz : (0 <= up (Rabs a / (2 * PI)))%Z).
  { apply le_IZR. simpl. lra. }
  rewrite INR_IZR_INZ, Z2Nat.id by exact Hz.
  assert (Hmul : Rabs a = Rabs a / (2 * PI) * (2 * PI)) by (field; lra).
  rewrite Hmul at 1. nra.
Qed.

(** In exact arithmetic the two loops in sequence terminate on every input
    with a value in [[-PI, PI]], unchanged when the input is already there. *)
Lemma angle_loops_exact (a : R) :
  exists b, angle_loops exact (loop_fuel a) a = Some b
            /\ - PI <= b <= PI /\ (- PI <= a <= PI -> b = a).
Proof.
  pose proof PI_RGT_0 as Hpi.
  destruct (loop_fuel_covers a) as (n & Hn & Hcov).
  rewrite Hn. unfold angle_loops.
  assert (Habs : - Rabs a <= a <= Rabs a).
  { split; [pose proof (Rle_abs (- a)) as H; rewrite Rabs_Ropp in H; lra | apply Rle_abs]. }
  destruct (while_above_terminates n a (S n)) as (b & Hb & Hub & Hid & Hlow); [lra | lia |].
  rewrite Hb.
  destruct (Rle_or_lt a PI) as [Hle|Hgt].
  - rewrite (Hid Hle).
    destruct (while_below_terminates n a (S n)) as (c & Hc & Hlb & Hid' & Hup); [lra | lia |].
    exists c. split; [exact Hc|]. split.
    + split; [exact Hlb|].
      destruct (Rle_or_lt (- PI) a) as [Hin|Hout]; [rewrite (Hid' Hin); exact Hle|].
      left. apply Hup. exact Hout.
    + intros [Hin _]. apply Hid'. exact Hin.
  - specialize (Hlow Hgt).
    destruct (while_below_terminates 0 b (S n)) as (c & Hc & Hlb & Hid' & _);
      [simpl; lra | lia |].
    exists c. split; [exact Hc|]. rewrite (Hid' ltac:(lra)). split; lra.
Qed.


Lemma angle_normalization_id (a : R) :
  - PI <= a <= PI -> angle_normalization a = a.
Proof.
  intros Ha. unfold angle_normalization.
  destruct (angle_loops_exact a) as (b & Hb & _ & Hid). rewrite Hb. auto.
Qed.


Lemma angle_normalization_above (a : R) :
  PI < a <= 3 * PI -> angle_normalization a = a - 2 * PI.
Proof.
  intros [Hlo Hhi]. pose proof PI_RGT_0 as Hpi.
  unfold angle_normalization.
  destruct (angle_loops_exact a) as (b & Hb & Hr & _). rewrite Hb.
  assert (Hfuel : angle_loops exact 2 a = Some (a - 2 * PI)).
  { unfold angle_loops. rewrite while_above_step, Rgtb_true by lra.
    rewrite while_above_step, Rgtb_false by lra.
    rewrite while_below_step, Rltb_false by lra. reflexivity. }
  destruct (Nat.le_ge_cases 2 (loop_fuel a)) as [Hle|Hge].
  - rewrite (angle_loops_fuel_mono 2 (loop_fuel a) a _ Hfuel Hle) in Hb.
    injection Hb as <-. reflexivity.
  - rewrite (angle_loops_fuel_mono (loop_fuel a) 2 a _ Hb Hge) in Hfuel.
    injection Hfuel as ->. reflexivity.
Qed.

Lemma angle_normalization_below (a : R) :
  - 3 * PI <= a < - PI -> angle_normalization a = a + 2 * PI.
Proof.
  intros [Hlo Hhi]. pose proof PI_RGT_0 as Hpi.
  unfold angle_normalization.
  destruct (angle_loops_exact a) as (b & Hb & Hr & _). rewrite Hb.
  assert (Hfuel : angle_loops exact 2 a = Some (a + 2 * PI)).
  { unfold angle_loops. rewrite while_above_step, Rgtb_false by lra.
    rewrite while_below_step, Rltb_true by lra.
    rewrite while_below_step, Rltb_false by lra. reflexivity. }
  destruct (Nat.le_ge_cases 2 (loop_fuel a)) as [Hle|Hge].
  - rewrite (angle_loops_fuel_mono 2 (loop_fuel a) a _ Hfuel Hle) in Hb.
    injection Hb as <-. reflexivity.
  - rewrite (angle_loops_fuel_mono (loop_fuel a) 2 a _ Hb Hge) in Hfuel.
    injection Hfuel as ->. reflexivity.
Qed.


(* ================================================================== *)
(** * The sigma-point prediction loop *)

Lemma SigmaPointPrediction_body_spec (dt : R) (Xsig_aug M : Matrix) (i : nat) :
  (i < length M)%nat -> Forall (fun c => length c = 5%nat) M ->
  SigmaPointPrediction_body dt Xsig_aug M i = upd i (ctrv_step dt (col Xsig_aug i)) M.
Proof.
  intros Hi HM.
  assert (Hc : length (col M i) = 5%nat).
  { rewrite Forall_forall in HM. apply HM. apply nth_In. exact Hi. }
  unfold SigmaPointPrediction_body, ctrv_step, ctrv_column, mget.
  destruct (Rgt_dec (Rabs (vget (col Xsig_aug i) 4)) yawd_guard);
    cbv zeta; rewrite (mset_col 0), !mset_upd by exact Hi;
    destruct (col M i) as [|c0 [|c1 [|c2 [|c3 [|c4 [|]]]]]]; try discriminate;
    cbn [upd]; apply (f_equal (fun c => upd i c M));
    repeat (apply f_equal2; [half_ring|]); reflexivity.
Qed.

Lemma SigmaPointPrediction_columns (u : UKF) (dt : R) :
  well_formed u ->
  Xsig_pred_ (SigmaPointPrediction u dt)
  = map (fun i => ctrv_step dt (col (Xsig_aug_ u) i)) (seq 0 15).
Proof.
  intros Hwf. destruct (wf_Xsig_pred u Hwf) as [Hlen Hcols].
  unfold SigmaPointPrediction. cbn [Xsig_pred_ set_Xsig_pred_].
  rewrite (wf_n_aug u Hwf).
  assert (Hfill : dims 5 15 (mfill (Xsig_pred_ u) 0)).
  { split; unfold mfill; [rewrite length_map; exact Hlen|].
    apply Forall_forall. intros c Hc. apply in_map_iff in Hc.
    destruct Hc as (c' & <- & Hin). unfold vfill. rewrite length_map.
    rewrite Forall_forall in Hcols. apply Hcols. exact Hin. }
  destruct Hfill as [Hlen' Hcols'].
  change (2 * 7 + 1)%nat with 15%nat. rewrite <- Hlen'.
  apply (fold_left_overwrite _ _ (fun c => length c = 5%nat)).
  - intros M i Hi HM. apply SigmaPointPrediction_body_spec; assumption.
  - intros i. reflexivity.
  - exact Hcols'.
Qed.

(* ================================================================== *)
(** * A zero row of the cross-correlation survives the update *)

Lemma dot_zero_row (M : Matrix) (r : nat) (b : Vector) :
  Forall (fun c => vget c r = 0) M -> dot (row M r) b = 0.
Proof.
  unfold dot, row. intros H. revert b.
  induction H as [|c M Hc HM IH]; intros b; [reflexivity|].
  destruct b as [|b0 b]; [reflexivity|]. cbn [map map2 fold_right].
  rewrite Hc, IH. ring.
Qed.

Lemma rows_of (n r : nat) (M : Matrix) : row_zero n r M -> rows M = n.
Proof.
  intros [Hne HM]. destruct M as [|c M]; [contradiction|].
  inversion HM as [|? ? Hhd _]; subst. exact (proj1 Hhd).
Qed.

Lemma mat_vec_row_zero (n r : nat) (M : Matrix) (b : Vector) :
  row_zero n r M -> length (mat_vec M b) = n /\ vget (mat_vec M b) r = 0.
Proof.
  intros HM. unfold mat_vec. rewrite (rows_of n r M HM).
  split; [rewrite length_map, length_seq; reflexivity|].
  destruct HM as [_ HM].
  assert (Hz : Forall (fun c => vget c r = 0) M).
  { eapply Forall_impl; [|exact HM]. intros c [_ Hc]. exact Hc. }
  unfold vget at 1.
  destruct (Nat.lt_ge_cases r n) as [Hlt|Hge].
  - rewrite nth_map_seq by exact Hlt. apply dot_zero_row. exact Hz.
  - apply nth_overflow. rewrite length_map, length_seq. exact Hge.
Qed.

Lemma mmul_row_zero (n r : nat) (M N : Matrix) :
  row_zero n r M -> N <> [] -> row_zero n r (mmul M N).
Proof.
  intros HM HN. unfold mmul. split.
  - destruct N; [contradiction | discriminate].
  - apply Forall_forall. intros c Hc. apply in_map_iff in Hc.
    destruct Hc as (b & <- & _). apply mat_vec_row_zero. exact HM.
Qed.

Lemma length_mmul (M N : Matrix) : length (mmul M N) = length N.
Proof. apply length_map. Qed.

Lemma length_transpose (M : Matrix) : length (transpose M) = rows M.
Proof. unfold transpose. rewrite length_map, length_seq. reflexivity. Qed.

(** The state update [x_ + K * z_diff] and the covariance update
    [P_ - K * S * K^T] (ukf.cpp:441-442, 514-515) leave row [r] of the
    estimate as predicted when row [r] of [Tc] is zero. *)
Lemma update_keeps_row (r : nat) (Tc S Sinv P : Matrix) (x z_diff : Vector) :
  row_zero 5 r Tc -> S <> [] -> Sinv <> [] ->
  length x = 5%nat -> dims 5 5 P -> (r < 5)%nat ->
  let K := mmul Tc Sinv in
  vget (vadd x (mat_vec K z_diff)) r = vget x r
  /\ forall c, (c < 5)%nat ->
       mget (msub P (mmul (mmul K S) (transpose K))) r c = mget P r c.
Proof.
  intros HTc HS HSinv Hx [HPlen HPcols] Hr K.
  assert (HK : row_zero 5 r K) by (apply mmul_row_zero; assumption).
  split.
  - destruct (mat_vec_row_zero 5 r K z_diff HK) as [Hlen Hz].
    rewrite vget_vadd by lia. rewrite Hz. ring.
  - intros c Hc.
    assert (HKt : transpose K <> []).
    { intros Habs. pose proof (length_transpose K) as Hl.
      rewrite Habs, (rows_of 5 r K HK) in Hl. discriminate. }
    assert (HM : row_zero 5 r (mmul (mmul K S) (transpose K))).
    { apply mmul_row_zero; [apply mmul_row_zero; assumption | exact HKt]. }
    assert (HMlen : length (mmul (mmul K S) (transpose K)) = 5%nat).
    { rewrite length_mmul, length_transpose. apply (rows_of 5 r K HK). }
    destruct HM as [_ HM]. rewrite Forall_forall in HM, HPcols.
    set (M := mmul (mmul K S) (transpose K)) in *.
    unfold mget. rewrite col_msub by lia.
    destruct (HM (col M c)) as [HMc HMz]; [apply nth_In; lia|].
    pose proof (HPcols (col P c) ltac:(apply nth_In; lia)) as HPc.
    rewrite vget_vsub by lia. rewrite HMz. ring.
Qed.

(* ================================================================== *)
(** * The reference Eigen routines on the matrices of the examples *)

Lemma llt_reference_diag7 (d0 d1 d2 d3 d4 d5 d6 : R) :
  0 < d0 -> 0 < d1 -> 0 < d2 -> 0 < d3 -> 0 < d4 -> 0 < d5 -> 0 < d6 ->
  llt_reference (diag [d0; d1; d2; d3; d4; d5; d6])
  = mkLLT (diag [sqrt d0; sqrt d1; sqrt d2; sqrt d3; sqrt d4; sqrt d5; sqrt d6]) Success.
Proof.
  intros H0 H1 H2 H3 H4 H5 H6.
  pose proof (sqrt_lt_R0 d0 H0). pose proof (sqrt_lt_R0 d1 H1).
  pose proof (sqrt_lt_R0 d2 H2). pose proof (sqrt_lt_R0 d3 H3).
  pose proof (sqrt_lt_R0 d4 H4). pose proof (sqrt_lt_R0 d5 H5).
  pose proof (sqrt_lt_R0 d6 H6).
  eval_lists.
  repeat match goal with
         | |- context [Rle_dec ?a 0] => destruct (Rle_dec a 0) as [Hle|_]; [exfalso; lra|]
         end.
  eval_lists.
  apply (f_equal (fun M => mkLLT M Success)).
  repeat (apply f_equal2;
          [repeat (apply f_equal2; [first [reflexivity | lra | apply f_equal; lra] |]);
           reflexivity |]).
  reflexivity.
Qed.


(* ================================================================== *)
(** * One cycle from a state with a diagonal Cholesky factor *)

Section DiagonalCycle.

Variable E : EigenOps.
Variable u : UKF.
Variables px py v yaw yawd gamma l0 l1 l2 l3 l4 l5 l6 : R.

Hypothesis Hwf : well_formed u.
Hypothesis Hx : x_ u = [px; py; v; yaw; yawd].
Hypothesis Hgamma : 0 < gamma.
Hypothesis Hlambda : lambda_ u + 7 = gamma * gamma.
Hypothesis HL :
  matrixL (llt E (augmented_covariance u)) = diag [l0; l1; l2; l3; l4; l5; l6].

Lemma sqrt_spread : sqrt (lambda_ u + INR (n_aug_ u)) = gamma.
Proof.
  rewrite (wf_n_aug u Hwf). replace (INR 7) with 7 by (simpl; lra).
  rewrite Hlambda. apply sqrt_square. lra.
Qed.

Lemma GenerateAugmentedSigmaPoints_diag :
  Xsig_aug_ (GenerateAugmentedSigmaPoints E u)
  = sigma_aug px py v yaw yawd gamma [l0; l1; l2; l3; l4; l5; l6].
Proof.
  unfold GenerateAugmentedSigmaPoints. cbn [Xsig_aug_ set_Xsig_aug_].
  rewrite sqrt_spread, HL. unfold augmented_mean.
  rewrite (mfill_dims 7 15) by exact (wf_Xsig_aug u Hwf).
  rewrite (wf_n_aug u Hwf), (wf_n_x u Hwf), Hx.
  unfold sigma_aug. eval_lists.
  list_eq ltac:(list_eq ltac:(ring)).
Qed.

Lemma GenerateAugmentedSigmaPoints_wf : well_formed (GenerateAugmentedSigmaPoints E u).
Proof.
  unfold GenerateAugmentedSigmaPoints at 1.
  apply well_formed_set_Xsig_aug_; [exact Hwf|].
  change (dims 7 15 (Xsig_aug_ (GenerateAugmentedSigmaPoints E u))).
  rewrite GenerateAugmentedSigmaPoints_diag.
  apply dims_explicit; reflexivity.
Qed.

Lemma SigmaPointPrediction_diag (t : R) :
  Xsig_pred_ (SigmaPointPrediction (GenerateAugmentedSigmaPoints E u) t)
  = sigma_pred px py v yaw yawd gamma t [l0; l1; l2; l3; l4; l5; l6].
Proof.
  rewrite SigmaPointPrediction_columns by exact GenerateAugmentedSigmaPoints_wf.
  rewrite GenerateAugmentedSigmaPoints_diag.
  unfold sigma_aug, sigma_pred, sigma_pred_half, ctrv_step, ctrv_column, ctrv_dx, ctrv_dy.
  cbv beta iota zeta delta [map seq app nth upd col vget].
  unfold Rminus.
  list_eq ltac:(
    repeat match goal with
           | |- context [Rgt_dec (Rabs ?y) yawd_guard] =>
               destruct (Rgt_dec (Rabs y) yawd_guard) as [Hgt|Hle]
           end;
    list_eq ltac:(half_ring)).
Qed.

Let w : R := / (2 * (gamma * gamma)).

Hypothesis Hw : weights_ u = (1 - 14 * w) :: repeat w 14.

Let u2 (t : R) : UKF := SigmaPointPrediction (GenerateAugmentedSigmaPoints E u) t.

Lemma SigmaPointPrediction_wf (t : R) : well_formed (u2 t).
Proof.
  unfold u2, SigmaPointPrediction at 1.
  apply well_formed_set_Xsig_pred_; [exact GenerateAugmentedSigmaPoints_wf|].
  change (dims 5 15 (Xsig_pred_ (SigmaPointPrediction (GenerateAugmentedSigmaPoints E u) t))).
  rewrite SigmaPointPrediction_diag. apply dims_explicit; reflexivity.
Qed.

Lemma u2_fields (t : R) :
  weights_ (u2 t) = (1 - 14 * w) :: repeat w 14
  /\ n_aug_ (u2 t) = 7%nat /\ x_ (u2 t) = [px; py; v; yaw; yawd]
  /\ Xsig_pred_ (u2 t) = sigma_pred px py v yaw yawd gamma t [l0; l1; l2; l3; l4; l5; l6].
Proof.
  split; [exact Hw|]. split; [exact (wf_n_aug u Hwf)|]. split; [exact Hx|].
  apply SigmaPointPrediction_diag.
Qed.

Lemma PredictMeanAndCovariance_x_diag (t : R) :
  exists mx my,
    PredictMeanAndCovariance_x (u2 t) = [mx; my; v; yaw + yawd * t; yawd]
    /\ (v = 0 -> mx = px /\ my = py).
Proof.
  destruct (u2_fields t) as (Hw2 & Hn & Hx2 & HX).
  unfold PredictMeanAndCovariance_x. rewrite Hw2, Hn, Hx2, HX.
  unfold sigma_pred, sigma_pred_half. eval_lists.
  do 2 eexists. split.
  - apply f_equal2; [reflexivity|]. apply f_equal2; [reflexivity|].
    list_eq ltac:(ring).
  - intros ->. split; ring.
Qed.

Lemma PredictMeanAndCovariance_P_diag (t mx my : R) :
  let P := PredictMeanAndCovariance_P (u2 t) [mx; my; v; yaw + yawd * t; yawd] in
  dims 5 5 P /\ mget P 4 4 = l4 ^ 2 + l6 ^ 2 * t ^ 2.
Proof.
  destruct (u2_fields t) as (Hw2 & Hn & Hx2 & HX).
  unfold PredictMeanAndCovariance_P. rewrite Hw2, Hn, HX.
  rewrite (mfill_dims 5 5) by exact (wf_P (u2 t) (SigmaPointPrediction_wf t)).
  unfold sigma_pred, sigma_pred_half, normalize_at. eval_lists.
  split; [apply dims_explicit; reflexivity|].
  unfold w. field. lra.
Qed.

(** The state after [Prediction]: the mean keeps speed and yaw rate and
    advances the heading by [yawd * t]; the yaw-rate variance grows by the
    yaw-acceleration noise. *)
Lemma Prediction_diag (t : R) :
  let u3 := Prediction E u t in
  exists mx my,
    x_ u3 = [mx; my; v; yaw + yawd * t; yawd]
    /\ (v = 0 -> mx = px /\ my = py)
    /\ dims 5 5 (P_ u3) /\ mget (P_ u3) 4 4 = l4 ^ 2 + l6 ^ 2 * t ^ 2
    /\ weights_ u3 = (1 - 14 * w) :: repeat w 14
    /\ Xsig_pred_ u3
       = sigma_pred px py v yaw yawd gamma t [l0; l1; l2; l3; l4; l5; l6]
    /\ well_formed u3.
Proof.
  destruct (u2_fields t) as (Hw2 & Hn & Hx2 & HX).
  destruct (PredictMeanAndCovariance_x_diag t) as (mx & my & Hmean & Hrest).
  pose proof (PredictMeanAndCovariance_P_diag t mx my) as HP. cbv zeta in HP.
  pose proof (SigmaPointPrediction_wf t) as Hwf2.
  unfold Prediction, PredictMeanAndCovariance. cbv zeta. fold (u2 t).
  rewrite Hmean. destruct HP as [HPd HP44].
  exists mx, my.
  split; [reflexivity|]. split; [exact Hrest|]. split; [exact HPd|].
  split; [exact HP44|]. split; [exact Hw2|]. split; [exact HX|].
  destruct Hwf2. constructor; try assumption. reflexivity.
Qed.

End DiagonalCycle.

Section UpdateDiagonal.

Variable E : EigenOps.
Variable u3 : UKF.
Variables mx my px py v yaw yawd gamma t l0 l1 l2 l3 l4 l5 l6 w : R.

Hypothesis Hwf3 : well_formed u3.
Hypothesis Hx3 : x_ u3 = [mx; my; v; yaw + yawd * t; yawd].
Hypothesis Hw3 : weights_ u3 = (1 - 14 * w) :: repeat w 14.
Hypothesis HX3 :
  Xsig_pred_ u3 = sigma_pred px py v yaw yawd gamma t [l0; l1; l2; l3; l4; l5; l6].
Hypothesis Hinv : forall S : Matrix, S <> [] -> inverse E S <> [].

Lemma PredictLidarMeasurement_Zsig_at_rest :
  PredictLidarMeasurement_Zsig u3
  = map (fun c => [vget c 0; vget c 1])
      (sigma_pred px py v yaw yawd gamma t [l0; l1; l2; l3; l4; l5; l6]).
Proof.
  unfold PredictLidarMeasurement_Zsig, PredictLidarMeasurement_body.
  rewrite (mfill_dims 2 15) by exact (wf_Zsig_lidar u3 Hwf3).
  rewrite HX3, (wf_n_aug u3 Hwf3).
  unfold sigma_pred, sigma_pred_half. eval_lists. reflexivity.
Qed.

Lemma PredictLidarMeasurement_shape :
  let u4 := PredictLidarMeasurement u3 in
  (exists a b, z_pred_l_ u4 = [a; b]) /\ dims 2 2 (S_l_ u4).
Proof.
  unfold PredictLidarMeasurement. cbv zeta. cbn [z_pred_l_ S_l_ set_S_l_ set_z_pred_l_].
  rewrite PredictLidarMeasurement_Zsig_at_rest.
  unfold PredictLidarMeasurement_S, PredictLidarMeasurement_z_pred.
  rewrite (mfill_dims 2 2) by exact (wf_S_l u3 Hwf3).
  rewrite (vfill_length 2) by exact (wf_z_pred_l u3 Hwf3).
  rewrite Hw3, (wf_n_aug u3 Hwf3).
  unfold sigma_pred, sigma_pred_half. eval_lists.
  split; [do 2 eexists; reflexivity | apply dims_explicit; reflexivity].
Qed.

(** From here on the state is at rest. *)
Hypothesis Hv : v = 0.

Lemma UpdateLidar_Tc_at_rest :
  let Tc := UpdateLidar_Tc (PredictLidarMeasurement u3) in
  row_zero 5 3 Tc /\ row_zero 5 4 Tc.
Proof.
  destruct PredictLidarMeasurement_shape as [(a & b & Hz) _].
  unfold UpdateLidar_Tc. rewrite Hz.
  unfold PredictLidarMeasurement. cbv zeta.
  cbn [Zsig_lidar Xsig_pred_ x_ weights_ n_aug_ n_x_ n_z_lidar_
         set_S_l_ set_z_pred_l_ set_Zsig_lidar].
  rewrite PredictLidarMeasurement_Zsig_at_rest.
  rewrite HX3, Hx3, Hw3, (wf_n_aug u3 Hwf3), (wf_n_x u3 Hwf3), (wf_n_z_lidar u3 Hwf3).
  unfold sigma_pred, sigma_pred_half. eval_lists. rewrite Hv.
  split; (split; [discriminate|]);
    repeat (apply Forall_cons; [split; [reflexivity | cbv [vget nth]; ring]|]);
    apply Forall_nil.
Qed.

Lemma UpdateLidar_at_rest (m : MeasurementPackage) :
  let u' := UpdateLidar E (PredictLidarMeasurement u3) m in
  vget (x_ u') 3 = yaw + yawd * t
  /\ vget (x_ u') 4 = yawd
  /\ forall c, (c < 5)%nat ->
       mget (P_ u') 3 c = mget (P_ u3) 3 c /\ mget (P_ u') 4 c = mget (P_ u3) 4 c.
Proof.
  destruct UpdateLidar_Tc_at_rest as [H3 H4].
  destruct PredictLidarMeasurement_shape as [_ [HSlen _]].
  set (u4 := PredictLidarMeasurement u3) in *.
  assert (HS : S_l_ u4 <> []) by (intros Habs; rewrite Habs in HSlen; discriminate).
  assert (Hx4 : x_ u4 = [mx; my; v; yaw + yawd * t; yawd]) by exact Hx3.
  assert (HP4 : P_ u4 = P_ u3) by reflexivity.
  assert (HPd : dims 5 5 (P_ u4)) by (rewrite HP4; exact (wf_P u3 Hwf3)).
  assert (Hlx : length (x_ u4) = 5%nat) by (rewrite Hx4; reflexivity).
  unfold UpdateLidar. cbv zeta. cbn [x_ P_ set_x_ set_P_].
  set (z_diff := vsub _ (z_pred_l_ u4)).
  destruct (update_keeps_row 3 (UpdateLidar_Tc u4) (S_l_ u4) (inverse E (S_l_ u4))
              (P_ u4) (x_ u4) z_diff H3 HS (Hinv _ HS) Hlx HPd ltac:(lia)) as [Hx3' HP3'].
  destruct (update_keeps_row 4 (UpdateLidar_Tc u4) (S_l_ u4) (inverse E (S_l_ u4))
              (P_ u4) (x_ u4) z_diff H4 HS (Hinv _ HS) Hlx HPd ltac:(lia)) as [Hx4' HP4'].
  cbv zeta in *. rewrite Hx3', Hx4', Hx4.
  split; [reflexivity|]. split; [reflexivity|].
  intros c Hc. rewrite (HP3' c Hc), (HP4' c Hc), HP4. split; reflexivity.
Qed.


Lemma PredictRadarMeasurement_Zsig_at_rest :
  PredictRadarMeasurement_Zsig u3
  = map radar_point (sigma_pred px py v yaw yawd gamma t [l0; l1; l2; l3; l4; l5; l6]).
Proof.
  unfold PredictRadarMeasurement_Zsig, PredictRadarMeasurement_body, radar_point.
  rewrite (mfill_dims 3 15) by exact (wf_Zsig_radar u3 Hwf3).
  rewrite HX3, (wf_n_aug u3 Hwf3).
  unfold sigma_pred, sigma_pred_half. eval_lists. reflexivity.
Qed.

Lemma PredictRadarMeasurement_shape :
  let u4 := PredictRadarMeasurement u3 in
  (exists a b c, z_pred_r_ u4 = [a; b; c]) /\ dims 3 3 (S_r_ u4).
Proof.
  unfold PredictRadarMeasurement. cbv zeta. cbn [z_pred_r_ S_r_ set_S_r_ set_z_pred_r_].
  rewrite PredictRadarMeasurement_Zsig_at_rest.
  unfold PredictRadarMeasurement_S, PredictRadarMeasurement_z_pred, normalize_at, radar_point.
  rewrite (mfill_dims 3 3) by exact (wf_S_r u3 Hwf3).
  rewrite (vfill_length 3) by exact (wf_z_pred_r u3 Hwf3).
  rewrite Hw3, (wf_n_aug u3 Hwf3).
  unfold sigma_pred, sigma_pred_half. eval_lists.
  split; [do 3 eexists; reflexivity | apply dims_explicit; reflexivity].
Qed.

Lemma UpdateRadar_Tc_at_rest :
  row_zero 5 4 (UpdateRadar_Tc (PredictRadarMeasurement u3)).
Proof.
  destruct PredictRadarMeasurement_shape as [(a & b & c & Hz) _].
  unfold UpdateRadar_Tc. rewrite Hz.
  unfold PredictRadarMeasurement. cbv zeta.
  cbn [Zsig_radar Xsig_pred_ x_ weights_ n_aug_ n_x_ n_z_radar_
         set_S_r_ set_z_pred_r_ set_Zsig_radar].
  rewrite PredictRadarMeasurement_Zsig_at_rest.
  rewrite HX3, Hx3, Hw3, (wf_n_aug u3 Hwf3), (wf_n_x u3 Hwf3), (wf_n_z_radar u3 Hwf3).
  unfold sigma_pred, sigma_pred_half, normalize_at, radar_point. eval_lists.
  rewrite Hv, ?Rmult_0_l, ?Rmult_0_r, ?Rplus_0_r.
  split; [discriminate|].
  repeat (apply Forall_cons;
          [split; [reflexivity
                  | cbv [vget nth radar_r_dot radar_rho exact d_add d_mul d_div d_sqrt];
                    unfold Rdiv; ring]|]);
    apply Forall_nil.
Qed.

Lemma UpdateRadar_at_rest (m : MeasurementPackage) :
  let u' := UpdateRadar E (PredictRadarMeasurement u3) m in
  vget (x_ u') 4 = yawd
  /\ forall c, (c < 5)%nat -> mget (P_ u') 4 c = mget (P_ u3) 4 c.
Proof.
  pose proof UpdateRadar_Tc_at_rest as H4.
  destruct PredictRadarMeasurement_shape as [_ [HSlen _]].
  set (u4 := PredictRadarMeasurement u3) in *.
  assert (HS : S_r_ u4 <> []) by (intros Habs; rewrite Habs in HSlen; discriminate).
  assert (Hx4 : x_ u4 = [mx; my; v; yaw + yawd * t; yawd]) by exact Hx3.
  assert (HP4 : P_ u4 = P_ u3) by reflexivity.
  assert (HPd : dims 5 5 (P_ u4)) by (rewrite HP4; exact (wf_P u3 Hwf3)).
  assert (Hlx : length (x_ u4) = 5%nat) by (rewrite Hx4; reflexivity).
  unfold UpdateRadar. cbv zeta. cbn [x_ P_ set_x_ set_P_].
  set (z_diff := normalize_at 1 _).
  destruct (update_keeps_row 4 (UpdateRadar_Tc u4) (S_r_ u4) (inverse E (S_r_ u4))
              (P_ u4) (x_ u4) z_diff H4 HS (Hinv _ HS) Hlx HPd ltac:(lia)) as [Hx4' HP4'].
  cbv zeta in *. rewrite Hx4', Hx4.
  split; [reflexivity|].
  intros c0 Hc. rewrite (HP4' c0 Hc), HP4. reflexivity.
Qed.

End UpdateDiagonal.

(* ================================================================== *)
(** * Ranges *)

Lemma wrap64_id (z : Z) : int64 z -> wrap64 z = z.
Proof.
  unfold int64, wrap64. intros H.
  change (2 ^ 63)%Z with 9223372036854775808%Z in *.
  change (2 ^ 64)%Z with 18446744073709551616%Z.
  rewrite Z.mod_small by lia. lia.
Qed.

Lemma elapsed_seconds_in_range (u : UKF) (m : MeasurementPackage) :
  int64 (timestamp_ m - time_us_ u) ->
  elapsed_seconds u m = IZR (timestamp_ m - time_us_ u) / 1000000.
Proof.
  intros H. unfold elapsed_seconds. rewrite (wrap64_id _ H). lra.
Qed.

Lemma yawd_guard_bounds : 1 / 1000 < yawd_guard < 2 / 1000.
Proof. unfold yawd_guard. lra. Qed.

Lemma tiny_positive : 0 < / 10 ^ 150.
Proof. apply Rinv_0_lt_compat, pow_lt. lra. Qed.

Lemma tiny_below_one : / 10 ^ 150 <= 1.
Proof.
  apply Rle_trans with (/ 1); [|rewrite Rinv_1; lra].
  apply Rinv_le_contravar; [lra|]. apply pow_R1_Rle. lra.
Qed.

Lemma one_below_huge : 1 <= 10 ^ 150.
Proof. apply pow_R1_Rle. lra. Qed.

Lemma moderate_cons (x : R) (l : list R) :
  moderate (x :: l) -> Rabs x <= 1000 /\ moderate l.
Proof. intros H. split; [exact (Forall_inv H) | exact (Forall_inv_tail H)]. Qed.

(* ================================================================== *)
(** * ProcessMeasurement after initialisation *)

Lemma inverse_reference_nonempty (S : Matrix) : S <> [] -> inverse_reference S <> [].
Proof.
  intros HS Habs. apply (f_equal (@length _)) in Habs.
  unfold inverse_reference in Habs. rewrite length_map, length_seq in Habs.
  destruct S; [contradiction | discriminate].
Qed.

Lemma well_formed_set_time_us_ (u : UKF) (ts : Z) :
  well_formed u -> well_formed (set_time_us_ ts u).
Proof. intros []. constructor; assumption. Qed.

Lemma well_formed_set_use_laser_ (u : UKF) (b : bool) :
  well_formed u -> well_formed (set_use_laser_ b u).
Proof. intros []. constructor; assumption. Qed.

Lemma well_formed_set_use_radar_ (u : UKF) (b : bool) :
  well_formed u -> well_formed (set_use_radar_ b u).
Proof. intros []. constructor; assumption. Qed.

Lemma well_formed_set_x_ (u : UKF) (x : Vector) :
  well_formed u -> length x = 5%nat -> well_formed (set_x_ x u).
Proof. intros [] Hx. constructor; assumption. Qed.

Lemma well_formed_set_P_ (u : UKF) (P : Matrix) :
  well_formed u -> dims 5 5 P -> well_formed (set_P_ P u).
Proof. intros [] HP. constructor; assumption. Qed.

Lemma InitializeUKF_wf (u : UKF) (m : MeasurementPackage) :
  well_formed u -> well_formed (InitializeUKF u m).
Proof.
  intros Hwf. pose proof (init_weights_exact (lambda_ u) (weights_ u) (wf_weights u Hwf)) as Hw.
  pose proof (wf_n_aug u Hwf) as Hn.
  destruct Hwf. unfold InitializeUKF.
  destruct (sensor_type_ m); constructor; try assumption; try reflexivity;
    try (apply dims_explicit; reflexivity);
    change (length (init_weights exact (lambda_ u) (n_aug_ u) (weights_ u)) = 15%nat);
    rewrite Hn, Hw; reflexivity.
Qed.

(** After initialisation every measurement runs [Prediction] with the raw
    elapsed time and then the update of its sensor. *)
Lemma ProcessMeasurement_initialized (E : EigenOps) (u : UKF) (m : MeasurementPackage) :
  is_initialized_ u = true ->
  ProcessMeasurement E u m
  = Update E (Prediction E (set_time_us_ (timestamp_ m) u) (elapsed_seconds u m)) m.
Proof. intros H. unfold ProcessMeasurement. rewrite H. reflexivity. Qed.

Section AtRestCycle.

Variable E : EigenOps.
Variable u : UKF.
Variables px py yaw yawd gamma l0 l1 l2 l3 l4 l5 l6 : R.

Hypothesis Hwf : well_formed u.
Hypothesis Hx : x_ u = [px; py; 0; yaw; yawd].
Hypothesis Hgamma : 0 < gamma.
Hypothesis Hlambda : lambda_ u + 7 = gamma * gamma.
Hypothesis HL :
  matrixL (llt E (augmented_covariance u)) = diag [l0; l1; l2; l3; l4; l5; l6].
Hypothesis Hw :
  weights_ u = (1 - 14 * / (2 * (gamma * gamma))) :: repeat (/ (2 * (gamma * gamma))) 14.
Hypothesis Hinv : forall S : Matrix, S <> [] -> inverse E S <> [].

(** One prediction and update from a state at rest: the yaw rate is kept,
    its variance becomes [l4^2 + l6^2 t^2], and after a lidar update the
    heading is [yaw + yawd * t]. *)
Lemma cycle_at_rest (t : R) (m : MeasurementPackage) :
  let u' := Update E (Prediction E u t) m in
  vget (x_ u') 4 = yawd
  /\ mget (P_ u') 4 4 = l4 ^ 2 + l6 ^ 2 * t ^ 2
  /\ (sensor_type_ m = LASER -> vget (x_ u') 3 = yaw + yawd * t).
Proof.
  destruct (Prediction_diag E u px py 0 yaw yawd gamma l0 l1 l2 l3 l4 l5 l6
              Hwf Hx Hgamma Hlambda HL Hw t)
    as (mx & my & Hx3 & _ & HPd & HP44 & Hw3 & HX3 & Hwf3).
  unfold Update. cbv zeta. destruct (sensor_type_ m).
  - destruct (UpdateLidar_at_rest E (Prediction E u t) mx my px py 0 yaw yawd gamma t
                l0 l1 l2 l3 l4 l5 l6 _ Hwf3 Hx3 Hw3 HX3 Hinv eq_refl m) as (H3 & H4 & HP).
    split; [exact H4|]. split; [|intros _; exact H3].
    rewrite (proj2 (HP 4%nat ltac:(lia))). exact HP44.
  - destruct (UpdateRadar_at_rest E (Prediction E u t) mx my px py 0 yaw yawd gamma t
                l0 l1 l2 l3 l4 l5 l6 _ Hwf3 Hx3 Hw3 HX3 Hinv eq_refl m) as (H4 & HP).
    split; [exact H4|]. split; [|intros Habs; discriminate].
    rewrite (HP 4%nat ltac:(lia)). exact HP44.
Qed.

End AtRestCycle.

Lemma configured_tracked : configured tracked.
Proof.
  constructor; try reflexivity.
  apply InitializeUKF_wf, well_formed_new.
Qed.

Lemma configured_weights (u : UKF) :
  configured u ->
  lambda_ u + 7 = sqrt 5 * sqrt 5
  /\ weights_ u = (1 - 14 * / (2 * (sqrt 5 * sqrt 5)))
                  :: repeat (/ (2 * (sqrt 5 * sqrt 5))) 14.
Proof.
  intros Hc. rewrite (cf_weights u Hc), (cf_lambda u Hc), sqrt_sqrt by lra.
  split; [lra|]. apply f_equal2; [lra|]. f_equal. lra.
Qed.

Lemma augmented_covariance_diag (u : UKF) (d0 d1 d2 d3 d4 : R) :
  configured u -> P_ u = diag [d0; d1; d2; d3; d4] ->
  augmented_covariance u = diag [d0; d1; d2; d3; d4; 1.5 * 1.5; 2.0 * 2.0].
Proof.
  intros Hc HP. unfold augmented_covariance.
  rewrite (wf_n_x u (cf_wf u Hc)), (wf_n_aug u (cf_wf u Hc)), HP,
    (cf_std_a u Hc), (cf_std_yawdd u Hc).
  reflexivity.
Qed.

(** One cycle of the reference filter from a state at rest with the prior
    covariance: the yaw-rate variance grows from 0.5 to 0.5 + 4 t^2, for
    either sensor. *)
Lemma cycle_from_prior (u : UKF) (px py yaw yawd t : R) (m : MeasurementPackage) :
  configured u -> x_ u = [px; py; 0; yaw; yawd] -> P_ u = P_prior ->
  let u' := Update eigen_reference (Prediction eigen_reference u t) m in
  vget (x_ u') 4 = yawd
  /\ mget (P_ u') 4 4 = 0.5 + 4 * t ^ 2
  /\ (sensor_type_ m = LASER -> vget (x_ u') 3 = yaw + yawd * t).
Proof.
  intros Hc Hx HP.
  destruct (configured_weights u Hc) as [Hlam Hw].
  assert (HL : matrixL (llt eigen_reference (augmented_covariance u))
               = diag [sqrt 1; sqrt 1; sqrt 1; sqrt 0.5; sqrt 0.5;
                       sqrt (1.5 * 1.5); sqrt (2.0 * 2.0)]).
  { rewrite (augmented_covariance_diag u 1 1 1 0.5 0.5 Hc HP).
    cbn [llt eigen_reference]. rewrite llt_reference_diag7 by lra. reflexivity. }
  pose proof (cycle_at_rest eigen_reference u px py yaw yawd (sqrt 5)
                _ _ _ _ _ _ _ (cf_wf u Hc) Hx (sqrt_lt_R0 5 ltac:(lra)) Hlam HL Hw
                inverse_reference_nonempty t m) as H.
  cbv zeta in H |- *. destruct H as (H4 & HP44 & H3).
  split; [exact H4|]. split; [|exact H3].
  rewrite HP44, !pow2_sqrt by lra. lra.
Qed.

(* ================================================================== *)
(** * The example states *)

Lemma configured_set_time_us_ (u : UKF) (ts : Z) :
  configured u -> configured (set_time_us_ ts u).
Proof.
  intros []. constructor; try assumption. apply well_formed_set_time_us_. assumption.
Qed.

Lemma configured_set_use_laser_ (u : UKF) (b : bool) :
  configured u -> configured (set_use_laser_ b u).
Proof.
  intros []. constructor; try assumption. apply well_formed_set_use_laser_. assumption.
Qed.

Lemma configured_set_use_radar_ (u : UKF) (b : bool) :
  configured u -> configured (set_use_radar_ b u).
Proof.
  intros []. constructor; try assumption. apply well_formed_set_use_radar_. assumption.
Qed.

Lemma configured_set_x_ (u : UKF) (x : Vector) :
  configured u -> length x = 5%nat -> configured (set_x_ x u).
Proof.
  intros [] Hx. constructor; try assumption. apply well_formed_set_x_; assumption.
Qed.

Lemma configured_set_P_ (u : UKF) (P : Matrix) :
  configured u -> dims 5 5 P -> configured (set_P_ P u).
Proof.
  intros [] HP. constructor; try assumption. apply well_formed_set_P_; assumption.
Qed.

(** A first pivot that is not positive stops the reference factorisation at
    once: the matrix is left as it was. *)
Lemma llt_reference_zero_pivot (a b : R) :
  llt_reference (diag [0; 0; 0; 0; 0; a; b])
  = mkLLT (diag [0; 0; 0; 0; 0; a; b]) NumericalIssue.
Proof.
  unfold llt_reference.
  change (length (diag [0; 0; 0; 0; 0; a; b])) with 7%nat.
  cbn [seq llt_unblocked].
  assert (Hp : llt_pivot (diag [0; 0; 0; 0; 0; a; b]) 0 = 0 - 0) by reflexivity.
  rewrite Hp. destruct (Rle_dec (0 - 0) 0) as [_|Hn]; [|exfalso; lra].
  reflexivity.
Qed.

(** The two flags are never read: setting one commutes with the cycle. *)
Lemma ProcessMeasurement_use_laser (E : EigenOps) (u : UKF) (m : MeasurementPackage)
    (b : bool) :
  ProcessMeasurement E (set_use_laser_ b u) m = set_use_laser_ b (ProcessMeasurement E u m).
Proof.
  unfold ProcessMeasurement, Update, InitializeUKF.
  destruct (is_initialized_ u) eqn:Hi; cbn [is_initialized_ set_use_laser_ negb];
    rewrite Hi; cbn [negb]; destruct (sensor_type_ m) eqn:Hs; reflexivity.
Qed.

Lemma ProcessMeasurement_use_radar (E : EigenOps) (u : UKF) (m : MeasurementPackage)
    (b : bool) :
  ProcessMeasurement E (set_use_radar_ b u) m = set_use_radar_ b (ProcessMeasurement E u m).
Proof.
  unfold ProcessMeasurement, Update, InitializeUKF.
  destruct (is_initialized_ u) eqn:Hi; cbn [is_initialized_ set_use_radar_ negb];
    rewrite Hi; cbn [negb]; destruct (sensor_type_ m) eqn:Hs; reflexivity.
Qed.


(* ================================================================== *)
(** * Dimensions of the cross-correlation and the gain *)

Lemma length_vsub (x y : Vector) : length x = length y -> length (vsub x y) = length x.
Proof. apply length_map2. Qed.

Lemma dims_outer (x y : Vector) : dims (length x) (length y) (outer x y).
Proof.
  unfold outer. split; [apply length_map|].
  apply Forall_forall. intros c Hc. apply in_map_iff in Hc.
  destruct Hc as (yj & <- & _). apply length_map.
Qed.

Lemma dims_madd (r c : nat) (M N : Matrix) :
  dims r c M -> dims r c N -> dims r c (madd M N).
Proof.
  intros [HM HMc] [HN HNc]. unfold madd. split.
  - rewrite length_map2; [exact HM|].
    etransitivity; [exact HM | symmetry; exact HN].
  - clear HM HN. revert N HNc.
    induction M as [|m M IH]; intros [|n N] HNc; cbn [map2]; try constructor.
    + unfold vadd. rewrite length_map2; [exact (Forall_inv HMc)|].
      etransitivity; [exact (Forall_inv HMc) | symmetry; exact (Forall_inv HNc)].
    + apply IH; [exact (Forall_inv_tail HMc) | exact (Forall_inv_tail HNc)].
Qed.

Lemma fold_madd_dims (r c : nat) (F : nat -> Matrix) (l : list nat) :
  (forall i, In i l -> dims r c (F i)) ->
  forall M, dims r c M -> dims r c (fold_left (fun M i => madd M (F i)) l M).
Proof.
  induction l as [|i l IH]; intros HF M HM; [exact HM|].
  cbn [fold_left]. apply IH.
  - intros j Hj. apply HF. right. exact Hj.
  - apply dims_madd; [exact HM | apply HF; left; reflexivity].
Qed.

Lemma length_col (r c : nat) (M : Matrix) (i : nat) :
  dims r c M -> (i < c)%nat -> length (col M i) = r.
Proof.
  intros [Hlen Hcols] Hi. rewrite Forall_forall in Hcols. apply Hcols.
  apply nth_In. lia.
Qed.

Lemma length_vscale (a : R) (x : Vector) : length (vscale a x) = length x.
Proof. apply length_map. Qed.

Lemma length_normalize_at (k : nat) (d : Vector) : length (normalize_at k d) = length d.
Proof. apply upd_length. Qed.

Lemma UpdateLidar_Tc_dims (u : UKF) : well_formed u -> dims 5 2 (UpdateLidar_Tc u).
Proof.
  intros Hwf. unfold UpdateLidar_Tc.
  rewrite (wf_n_x u Hwf), (wf_n_z_lidar u Hwf), (wf_n_aug u Hwf).
  apply (fold_madd_dims 5 2
           (fun i => outer (vscale (vget (weights_ u) i)
                              (vsub (col (Xsig_pred_ u) i) (x_ u)))
                       (vsub (col (Zsig_lidar u) i) (z_pred_l_ u))));
    [|apply dims_mzero].
  intros i Hi. apply in_seq in Hi.
  pose proof (length_col 5 15 _ i (wf_Xsig_pred u Hwf) ltac:(lia)) as HX.
  pose proof (length_col 2 15 _ i (wf_Zsig_lidar u Hwf) ltac:(lia)) as HZ.
  pose proof (dims_outer (vscale (vget (weights_ u) i)
                            (vsub (col (Xsig_pred_ u) i) (x_ u)))
                (vsub (col (Zsig_lidar u) i) (z_pred_l_ u))) as Hd.
  rewrite length_vscale, !length_vsub in Hd;
    rewrite ?HX, ?HZ, ?(wf_x u Hwf), ?(wf_z_pred_l u Hwf) in *; auto.
Qed.

Lemma UpdateRadar_Tc_dims (u : UKF) : well_formed u -> dims 5 3 (UpdateRadar_Tc u).
Proof.
  intros Hwf. unfold UpdateRadar_Tc.
  rewrite (wf_n_x u Hwf), (wf_n_z_radar u Hwf), (wf_n_aug u Hwf).
  apply (fold_madd_dims 5 3
           (fun i => outer (vscale (vget (weights_ u) i)
                              (normalize_at 3 (vsub (col (Xsig_pred_ u) i) (x_ u))))
                       (normalize_at 1 (vsub (col (Zsig_radar u) i) (z_pred_r_ u)))));
    [|apply dims_mzero].
  intros i Hi. apply in_seq in Hi.
  pose proof (length_col 5 15 _ i (wf_Xsig_pred u Hwf) ltac:(lia)) as HX.
  pose proof (length_col 3 15 _ i (wf_Zsig_radar u Hwf) ltac:(lia)) as HZ.
  pose proof (dims_outer (vscale (vget (weights_ u) i)
                            (normalize_at 3 (vsub (col (Xsig_pred_ u) i) (x_ u))))
                (normalize_at 1 (vsub (col (Zsig_radar u) i) (z_pred_r_ u)))) as Hd.
  rewrite length_vscale, !length_normalize_at, !length_vsub in Hd;
    rewrite ?HX, ?HZ, ?(wf_x u Hwf), ?(wf_z_pred_r u Hwf) in *; auto.
Qed.

(** The gain [Tc * Sinv] has as many rows as [Tc]. *)
Lemma length_gain_correction (n c : nat) (Tc Sinv : Matrix) (z_diff : Vector) :
  dims n (S c) Tc -> Sinv <> [] -> length (mat_vec (mmul Tc Sinv) z_diff) = n.
Proof.
  intros HTc HS. unfold mat_vec. rewrite length_map, length_seq.
  unfold rows, col, mmul. destruct Sinv as [|b Sinv]; [contradiction|].
  cbn [map nth]. unfold mat_vec. rewrite length_map, length_seq.
  apply (length_col n (S c) Tc 0 HTc). lia.
Qed.


(* ================================================================== *)
(** * Initialisation (ukf.cpp:115-119, 141-182) *)

(** C6.  On the first measurement [ProcessMeasurement] only initialises:
    it returns what [InitializeUKF] returns and leaves the sigma-point and
    measurement-prediction members as they were.  A first LIDAR measurement
    [a, b] gives x = [a, b, 0, 0, 0]; a first RADAR measurement
    [rho, phi, rho_dot] gives the polar-to-Cartesian position
    x = [cos(phi) rho, sin(phi) rho, 0, 0, 0], whatever [rho_dot] is; either
    way the covariance is the fixed prior diag(1, 1, 1, 0.5, 0.5).  In
    particular LIDAR [1.0, 2.0] gives x = [1, 2, 0, 0, 0] and RADAR
    [rho = 5.0, phi = 0.0, rho_dot = 0.0] gives x = [5, 0, 0, 0, 0]. *)
Theorem C6_first_measurement (E : EigenOps) (u : UKF) (ts : Z)
    (a b rho phi rho_dot : R) :
  is_initialized_ u = false ->
  let prior :=
    [[1; 0; 0; 0; 0]; [0; 1; 0; 0; 0]; [0; 0; 1; 0; 0];
     [0; 0; 0; 0.5; 0]; [0; 0; 0; 0; 0.5]] in
  let after := fun raw kind => ProcessMeasurement E u (mkMeas ts kind raw) in
  (x_ (after [a; b] LASER) = [a; b; 0; 0; 0]
   /\ P_ (after [a; b] LASER) = prior)
  /\ (x_ (after [rho; phi; rho_dot] RADAR) = [cos phi * rho; sin phi * rho; 0; 0; 0]
      /\ P_ (after [rho; phi; rho_dot] RADAR) = prior)
  /\ (x_ (after [1.0; 2.0] LASER) = [1.0; 2.0; 0; 0; 0]
      /\ x_ (after [5.0; 0.0; 0.0] RADAR) = [5.0; 0.0; 0; 0; 0])
  /\ forall m : MeasurementPackage,
       ProcessMeasurement E u m = InitializeUKF u m
       /\ is_initialized_ (ProcessMeasurement E u m) = true
       /\ time_us_ (ProcessMeasurement E u m) = timestamp_ m
       /\ Xsig_aug_ (ProcessMeasurement E u m) = Xsig_aug_ u
       /\ Xsig_pred_ (ProcessMeasurement E u m) = Xsig_pred_ u
       /\ Zsig_lidar (ProcessMeasurement E u m) = Zsig_lidar u
       /\ Zsig_radar (ProcessMeasurement E u m) = Zsig_radar u
       /\ S_l_ (ProcessMeasurement E u m) = S_l_ u
       /\ S_r_ (ProcessMeasurement E u m) = S_r_ u.
Proof.
  intros Hinit prior after.
  assert (Hpm : forall m, ProcessMeasurement E u m = InitializeUKF u m).
  { intros m. unfold ProcessMeasurement. rewrite Hinit. reflexivity. }
  unfold after. rewrite !Hpm.
  split; [split; reflexivity|]. split; [split; reflexivity|]. split.
  - split; [reflexivity|].
    change (x_ (InitializeUKF u (mkMeas ts RADAR [5.0; 0.0; 0.0])))
      with [cos 0.0 * 5.0; sin 0.0 * 5.0; 0; 0; 0].
    replace 0.0 with 0 by lra. rewrite cos_0, sin_0.
    repeat (apply f_equal2; [lra|]). reflexivity.
  - intros m. rewrite Hpm. unfold InitializeUKF.
    destruct (sensor_type_ m); repeat split; reflexivity.
Qed.

Lemma C6_first_measurement_witness :
  is_initialized_ UKF_new = false
  /\ x_ (ProcessMeasurement eigen_reference UKF_new (mkMeas 0 LASER [3; 4]))
     = [3; 4; 0; 0; 0]
  /\ x_ (ProcessMeasurement eigen_reference UKF_new (mkMeas 0 RADAR [2; 1; 7]))
     = [cos 1 * 2; sin 1 * 2; 0; 0; 0]
  /\ x_ (ProcessMeasurement eigen_reference UKF_new (mkMeas 0 LASER [1.0; 2.0]))
     = [1.0; 2.0; 0; 0; 0]
  /\ x_ (ProcessMeasurement eigen_reference UKF_new (mkMeas 0 RADAR [5.0; 0.0; 0.0]))
     = [5.0; 0.0; 0; 0; 0].
Proof.
  split; [reflexivity|].
  pose proof (C6_first_measurement eigen_reference UKF_new 0 3 4 2 1 7 eq_refl) as H.
  cbv zeta in H. destruct H as ((Hl & _) & (Hr & _) & (Hl' & Hr') & _).
  split; [exact Hl|]. split; [exact Hr|]. split; [exact Hl' | exact Hr'].
Defined.

(** C8 (amended, exact arithmetic).  When [lambda + 7 <> 0], initialisation writes
    weight 0 = lambda / (lambda + 7) and the other fourteen weights
    = 1 / (2 (lambda + 7)), and the fifteen weights sum to 1. *)
Theorem C8_weights_exact (u : UKF) (m : MeasurementPackage) :
  length (weights_ u) = 15%nat -> n_aug_ u = 7%nat -> lambda_ u + 7 <> 0 ->
  let lambda := lambda_ u in
  let w := weights_ (InitializeUKF u m) in
  w = lambda / (lambda + 7) :: repeat (1 / (2 * (lambda + 7))) 14
  /\ fold_right Rplus 0 w = 1.
Proof.
  intros Hlen Hn Hne lambda w.
  assert (Hw : w = lambda / (lambda + 7) :: repeat (0.5 / (7 + lambda)) 14).
  { subst w lambda. unfold InitializeUKF.
    destruct (sensor_type_ m);
      cbn [weights_ set_weights_ set_x_ set_P_ set_time_us_ set_is_initialized_
             n_aug_ lambda_];
      rewrite Hn; apply init_weights_exact; exact Hlen. }
  split.
  - rewrite Hw, half_over. replace (7 + lambda) with (lambda + 7) by ring. reflexivity.
  - rewrite Hw. cbn [repeat fold_right]. fold lambda in Hne.
    replace 0.5 with (/ 2) by lra. field. lra.
Qed.

Lemma C8_weights_exact_witness :
  fold_right Rplus 0 (weights_ (InitializeUKF UKF_new (mkMeas 0 LASER [1.0; 2.0]))) = 1.
Proof.
  refine (proj2 (C8_weights_exact UKF_new (mkMeas 0 LASER [1.0; 2.0]) eq_refl eq_refl _)).
  cbn. lra.
Defined.

(** C8 (counterexample, binary64).  With the constructor's spreading
    parameter [lambda_ = 3 - n_x_ = -2] the fifteen doubles are -0.4 and
    fourteen times 0.1, each rounded.  Accumulated in index order their sum
    is 0.99999999999999989 = 1 - 2^-53; as rational numbers they add up to
    1 + 2^-54.  With [lambda = -7] both quotients divide by zero and the sum
    is a NaN. *)
Lemma C8_binary64_sum_not_one :
  let w := init_weights binary64 (b64_of_int (3 - 5)) 7 (repeat 0%float 15) in
  sum_in_order binary64 w = 0x1.fffffffffffffp-1%float
  /\ PrimFloat.eqb (sum_in_order binary64 w) 1%float = false
  /\ b64_exact_sum w = Some (18014398509481985 # 18014398509481984)%Q
  /\ PrimFloat.is_nan
       (sum_in_order binary64
          (init_weights binary64 (b64_of_int (-7)) 7 (repeat 0%float 15)))
     = true.
Proof. repeat split; vm_compute; reflexivity. Qed.

(* ================================================================== *)
(** * The measurement cycle: elapsed time, sensor flags, failures, heading *)

(** C1 (counterexample).  The filter initialised at t = 1 s by LIDAR [1, 2]
    receives a LIDAR measurement stamped t = 0 s.  The elapsed time is -1 s,
    not 0; [Prediction] runs with it and the yaw-rate variance goes from 0.5
    to 4.5, where the clamped cycle would leave it at 0.5. *)
Lemma C1_backward_timestamp :
  let m := mkMeas 0 LASER [1.0; 2.0] in
  is_initialized_ tracked = true
  /\ (timestamp_ m <= time_us_ tracked)%Z
  /\ elapsed_seconds tracked m = -1
  /\ mget (P_ tracked) 4 4 = 0.5
  /\ mget (P_ (ProcessMeasurement eigen_reference tracked m)) 4 4 = 4.5
  /\ mget (P_ (ProcessMeasurement_clamped eigen_reference tracked m)) 4 4 = 0.5.
Proof.
  intros m.
  assert (Hdt : elapsed_seconds tracked m = -1).
  { change (IZR (-1000000) / 1000000.0 = -1). lra. }
  assert (Hc : configured (set_time_us_ (timestamp_ m) tracked))
    by (apply configured_set_time_us_, configured_tracked).
  split; [reflexivity|]. split; [discriminate|]. split; [exact Hdt|].
  split; [reflexivity|]. split.
  - rewrite ProcessMeasurement_initialized, Hdt by reflexivity.
    destruct (cycle_from_prior _ 1.0 2.0 0 0 (-1) m Hc eq_refl eq_refl) as (_ & HP & _).
    rewrite HP. lra.
  - unfold ProcessMeasurement_clamped.
    change (negb (is_initialized_ tracked)) with false. cbv iota zeta.
    rewrite Hdt. destruct (Rle_dec (-1) 0) as [_|Hn]; [|exfalso; lra].
    destruct (cycle_from_prior _ 1.0 2.0 0 0 0 m Hc eq_refl eq_refl) as (_ & HP & _).
    rewrite HP. lra.
Qed.

(** C1 (amended).  After initialisation [ProcessMeasurement] hands
    [Prediction] the raw elapsed time (timestamp - time_us_) / 1e6 (the
    difference being a [long long]), negative when the timestamp is earlier
    than the previous one, and then updates: nothing compares the two
    timestamps.  From a state at rest with the prior covariance a LIDAR
    cycle leaves the yaw-rate variance at 0.5 + 4 dt^2 and the heading at
    yaw + yawd * dt, for dt of either sign (all values at most 1000 in
    absolute value). *)
Theorem C1_elapsed_time_not_clamped (u : UKF) (m : MeasurementPackage) :
  is_initialized_ u = true ->
  int64 (timestamp_ m - time_us_ u) ->
  let dt := IZR (timestamp_ m - time_us_ u) / 1000000 in
  let u' := ProcessMeasurement eigen_reference u m in
  elapsed_seconds u m = dt
  /\ ((timestamp_ m < time_us_ u)%Z -> dt < 0)
  /\ u' = Update eigen_reference
            (Prediction eigen_reference (set_time_us_ (timestamp_ m) u) dt) m
  /\ forall px py yaw yawd : R,
       configured u -> x_ u = [px; py; 0; yaw; yawd] -> P_ u = P_prior ->
       sensor_type_ m = LASER -> moderate [px; py; yaw; yawd; dt] ->
       mget (P_ u') 4 4 = 0.5 + 4 * dt ^ 2
       /\ vget (x_ u') 3 = yaw + yawd * dt.
Proof.
  intros Hinit Hrange dt u'.
  assert (Hdt : elapsed_seconds u m = dt) by exact (elapsed_seconds_in_range u m Hrange).
  assert (Hu' : u' = Update eigen_reference
                       (Prediction eigen_reference (set_time_us_ (timestamp_ m) u) dt) m).
  { unfold u'. rewrite ProcessMeasurement_initialized, Hdt by exact Hinit. reflexivity. }
  split; [exact Hdt|]. split; [|split; [exact Hu'|]].
  - intros Hlt. unfold dt. apply IZR_lt in Hlt. rewrite minus_IZR. lra.
  - intros px py yaw yawd Hc Hx HP Hm _. rewrite Hu'.
    destruct (cycle_from_prior (set_time_us_ (timestamp_ m) u) px py yaw yawd dt m
                (configured_set_time_us_ u _ Hc) Hx HP) as (_ & HP44 & H3).
    split; [exact HP44 | exact (H3 Hm)].
Qed.

Lemma one_second_back : int64 (0 - 1000000).
Proof. unfold int64. split; [discriminate | reflexivity]. Qed.

Lemma one_second_back_moderate :
  moderate [1.0; 2.0; 0; 0; IZR (0 - 1000000) / 1000000].
Proof.
  repeat (apply Forall_cons; [apply Rabs_le; simpl; lra|]). apply Forall_nil.
Qed.

Lemma C1_elapsed_time_not_clamped_witness :
  let m := mkMeas 0 LASER [1.0; 2.0] in
  let dt := IZR (0 - 1000000) / 1000000 in
  elapsed_seconds tracked m = dt
  /\ mget (P_ (ProcessMeasurement eigen_reference tracked m)) 4 4 = 0.5 + 4 * dt ^ 2
  /\ vget (x_ (ProcessMeasurement eigen_reference tracked m)) 3 = 0 + 0 * dt.
Proof.
  pose proof (C1_elapsed_time_not_clamped tracked (mkMeas 0 LASER [1.0; 2.0])
                eq_refl one_second_back) as H.
  cbv zeta in H. destruct H as (Hdt & _ & _ & Hrest).
  split; [exact Hdt|].
  exact (Hrest 1.0 2.0 0 0 configured_tracked eq_refl eq_refl eq_refl
           one_second_back_moderate).
Defined.

(** C5.  With both flags false the initialised filter still runs the whole
    cycle on a LASER and on a RADAR measurement: the yaw-rate variance goes
    from 0.5 to 4.5 either way. *)
Theorem C5_disabled_sensors_still_update :
  let u := set_use_radar_ false (set_use_laser_ false tracked) in
  let laser := mkMeas 2000000 LASER [1.5; 2.5] in
  let radar := mkMeas 2000000 RADAR [2.0; 1.0; 0.0] in
  use_laser_ u = false /\ use_radar_ u = false /\ is_initialized_ u = true
  /\ mget (P_ u) 4 4 = 0.5
  /\ mget (P_ (ProcessMeasurement eigen_reference u laser)) 4 4 = 4.5
  /\ mget (P_ (ProcessMeasurement eigen_reference u radar)) 4 4 = 4.5.
Proof.
  intros u laser radar.
  assert (Hc : configured u)
    by (apply configured_set_use_radar_, configured_set_use_laser_, configured_tracked).
  assert (Hdt : forall m, timestamp_ m = 2000000%Z -> elapsed_seconds u m = 1).
  { intros m Hm. unfold elapsed_seconds. rewrite Hm.
    change (IZR 1000000 / 1000000.0 = 1). lra. }
  split; [reflexivity|]. split; [reflexivity|]. split; [reflexivity|].
  split; [reflexivity|]. split.
  - rewrite ProcessMeasurement_initialized, (Hdt laser eq_refl) by reflexivity.
    destruct (cycle_from_prior _ 1.0 2.0 0 0 1 laser
                (configured_set_time_us_ u (timestamp_ laser) Hc) eq_refl eq_refl)
      as (_ & HP & _).
    rewrite HP. lra.
  - rewrite ProcessMeasurement_initialized, (Hdt radar eq_refl) by reflexivity.
    destruct (cycle_from_prior _ 1.0 2.0 0 0 1 radar
                (configured_set_time_us_ u (timestamp_ radar) Hc) eq_refl eq_refl)
      as (_ & HP & _).
    rewrite HP. lra.
Qed.

(** C3 (counterexample).  With a zero covariance the augmented covariance
    is not positive definite and the reference factorisation reports
    [NumericalIssue]; the cycle runs all the same and overwrites the
    covariance: the yaw-rate variance goes from 0 to 16. *)
Lemma C3_failed_factorisation_overwrites :
  let u := set_P_ (mzero 5 5) tracked in
  let m := mkMeas 2000000 LASER [1.5; 2.5] in
  info (llt eigen_reference (augmented_covariance (set_time_us_ (timestamp_ m) u)))
  = NumericalIssue
  /\ mget (P_ u) 4 4 = 0
  /\ mget (P_ (ProcessMeasurement eigen_reference u m)) 4 4 = 16.
Proof.
  intros u m.
  assert (Hc : configured (set_time_us_ (timestamp_ m) u)).
  { apply configured_set_time_us_, configured_set_P_; [exact configured_tracked|].
    apply dims_mzero. }
  assert (Haug : augmented_covariance (set_time_us_ (timestamp_ m) u)
                 = diag [0; 0; 0; 0; 0; 1.5 * 1.5; 2.0 * 2.0]).
  { apply (augmented_covariance_diag _ 0 0 0 0 0 Hc). reflexivity. }
  destruct (configured_weights _ Hc) as [Hlam Hw].
  split; [|split; [reflexivity|]].
  - rewrite Haug. cbn [llt eigen_reference]. rewrite llt_reference_zero_pivot. reflexivity.
  - rewrite ProcessMeasurement_initialized by reflexivity.
    change (elapsed_seconds u m) with (IZR 1000000 / 1000000.0).
    pose proof (cycle_at_rest eigen_reference (set_time_us_ (timestamp_ m) u)
                  1.0 2.0 0 0 (sqrt 5) 0 0 0 0 0 (1.5 * 1.5) (2.0 * 2.0)
                  (cf_wf _ Hc) eq_refl (sqrt_lt_R0 5 ltac:(lra)) Hlam
                  ltac:(rewrite Haug; cbn [llt eigen_reference];
                        rewrite llt_reference_zero_pivot; reflexivity)
                  Hw inverse_reference_nonempty (IZR 1000000 / 1000000.0) m) as H.
    cbv zeta in H. destruct H as (_ & HP & _). rewrite HP. lra.
Qed.

(** C3 (amended).  [ProcessMeasurement] has no failure result and tests
    neither the factorisation nor S.  For every Eigen implementation the
    state after an initialised call is x = x_pred + K z_diff and
    P = P_pred - K S K^T with K = Tc * inverse(S), computed from whatever
    [matrixL()] and [inverse()] return; another implementation that returns
    the same two matrices gives the same state, whatever [info()] says.  And
    when the factorisation fails at its first pivot (state at rest,
    covariance diag(0, d1, d2, d3, d4): [NumericalIssue], the matrix left as
    it was), a LIDAR cycle does not keep the prior estimate: the yaw-rate
    variance becomes d4^2 + 16 t^2 and the heading yaw + yawd t (all values
    at most 1000 in absolute value). *)
Theorem C3_status_never_read (E : EigenOps) (u : UKF) (m : MeasurementPackage) :
  is_initialized_ u = true ->
  let t := elapsed_seconds u m in
  let u0 := set_time_us_ (timestamp_ m) u in
  let u3 := Prediction E u0 t in
  let u' := ProcessMeasurement E u m in
  let raw := raw_measurements_ m in
  match sensor_type_ m with
  | LASER =>
      let u4 := PredictLidarMeasurement u3 in
      let K := mmul (UpdateLidar_Tc u4) (inverse E (S_l_ u4)) in
      x_ u' = vadd (x_ u3) (mat_vec K (vsub [vget raw 0; vget raw 1] (z_pred_l_ u4)))
      /\ P_ u' = msub (P_ u3) (mmul (mmul K (S_l_ u4)) (transpose K))
  | RADAR =>
      let u4 := PredictRadarMeasurement u3 in
      let K := mmul (UpdateRadar_Tc u4) (inverse E (S_r_ u4)) in
      x_ u' = vadd (x_ u3)
                (mat_vec K
                   (normalize_at 1
                      (vsub [vget raw 0; vget raw 1; vget raw 2] (z_pred_r_ u4))))
      /\ P_ u' = msub (P_ u3) (mmul (mmul K (S_r_ u4)) (transpose K))
  end
  /\ (forall E2 : EigenOps,
        (forall M, matrixL (llt E M) = matrixL (llt E2 M)) ->
        (forall M, inverse E M = inverse E2 M) ->
        ProcessMeasurement E2 u m = u')
  /\ (forall px py yaw yawd d1 d2 d3 d4 : R,
        configured u -> x_ u = [px; py; 0; yaw; yawd] ->
        P_ u = diag [0; d1; d2; d3; d4] ->
        llt E (augmented_covariance u0)
        = mkLLT (diag [0; d1; d2; d3; d4; 1.5 * 1.5; 2.0 * 2.0]) NumericalIssue ->
        (forall S : Matrix, S <> [] -> inverse E S <> []) ->
        sensor_type_ m = LASER ->
        moderate [px; py; yaw; yawd; d1; d2; d3; d4; t] ->
        mget (P_ u') 4 4 = d4 ^ 2 + 16 * t ^ 2
        /\ vget (x_ u') 3 = yaw + yawd * t).
Proof.
  intros Hinit t u0 u3 u' raw.
  assert (Hu' : u' = Update E u3 m).
  { unfold u', u3, u0, t. apply ProcessMeasurement_initialized. exact Hinit. }
  split; [|split].
  - rewrite Hu'. unfold Update. destruct (sensor_type_ m); split; reflexivity.
  - intros E2 HL Hinv. unfold u'.
    unfold ProcessMeasurement, Update, Prediction, GenerateAugmentedSigmaPoints,
      UpdateLidar, UpdateRadar.
    rewrite <- HL. cbv zeta.
    destruct (negb (is_initialized_ u)); [reflexivity|].
    destruct (sensor_type_ m); rewrite <- Hinv; reflexivity.
  - intros px py yaw yawd d1 d2 d3 d4 Hc Hx HP Hllt Hinv Hm _.
    assert (Hc0 : configured u0) by (apply configured_set_time_us_; exact Hc).
    destruct (configured_weights _ Hc0) as [Hlam Hw].
    pose proof (cycle_at_rest E u0 px py yaw yawd (sqrt 5)
                  0 d1 d2 d3 d4 (1.5 * 1.5) (2.0 * 2.0)
                  (cf_wf _ Hc0) Hx (sqrt_lt_R0 5 ltac:(lra)) Hlam
                  ltac:(rewrite Hllt; reflexivity) Hw Hinv t m) as H.
    cbv zeta in H. fold u3 in H. rewrite <- Hu' in H.
    destruct H as (_ & HP44 & H3).
    split; [rewrite HP44; lra | exact (H3 Hm)].
Qed.

Lemma llt_reference_first_pivot (d1 d2 d3 d4 a b : R) :
  llt_reference (diag [0; d1; d2; d3; d4; a; b])
  = mkLLT (diag [0; d1; d2; d3; d4; a; b]) NumericalIssue.
Proof.
  unfold llt_reference.
  change (length (diag [0; d1; d2; d3; d4; a; b])) with 7%nat.
  cbn [seq llt_unblocked].
  assert (Hp : llt_pivot (diag [0; d1; d2; d3; d4; a; b]) 0 = 0 - 0) by reflexivity.
  rewrite Hp. destruct (Rle_dec (0 - 0) 0) as [_|Hn]; [|exfalso; lra].
  reflexivity.
Qed.

Lemma configured_degenerate : configured degenerate.
Proof.
  apply configured_set_P_; [exact configured_tracked|]. apply dims_explicit; reflexivity.
Qed.

Lemma degenerate_factorisation_fails (ts : Z) :
  llt eigen_reference (augmented_covariance (set_time_us_ ts degenerate))
  = mkLLT (diag [0; 1; 1; 0.5; 0.5; 1.5 * 1.5; 2.0 * 2.0]) NumericalIssue.
Proof.
  rewrite (augmented_covariance_diag _ 0 1 1 0.5 0.5
             (configured_set_time_us_ _ ts configured_degenerate) eq_refl).
  apply llt_reference_first_pivot.
Qed.

Lemma one_second_on : elapsed_seconds degenerate (mkMeas 2000000 LASER [1.5; 2.5]) = 1.
Proof. change (IZR 1000000 / 1000000.0 = 1). lra. Qed.

Lemma degenerate_moderate :
  moderate [1.0; 2.0; 0; 0; 1; 1; 0.5; 0.5;
            elapsed_seconds degenerate (mkMeas 2000000 LASER [1.5; 2.5])].
Proof.
  rewrite one_second_on.
  repeat (apply Forall_cons; [apply Rabs_le; lra|]). apply Forall_nil.
Qed.

Lemma C3_status_never_read_witness :
  let m := mkMeas 2000000 LASER [1.5; 2.5] in
  let t := elapsed_seconds degenerate m in
  info (llt eigen_reference (augmented_covariance (set_time_us_ (timestamp_ m) degenerate)))
  = NumericalIssue
  /\ ProcessMeasurement eigen_silent degenerate m
     = ProcessMeasurement eigen_reference degenerate m
  /\ mget (P_ (ProcessMeasurement eigen_reference degenerate m)) 4 4
     = 0.5 ^ 2 + 16 * t ^ 2
  /\ vget (x_ (ProcessMeasurement eigen_reference degenerate m)) 3 = 0 + 0 * t.
Proof.
  pose proof (C3_status_never_read eigen_reference degenerate
                (mkMeas 2000000 LASER [1.5; 2.5]) eq_refl) as H.
  cbv zeta in H. destruct H as (_ & Hsame & Hfail).
  split; [rewrite degenerate_factorisation_fails; reflexivity|].
  split; [exact (Hsame eigen_silent (fun M => eq_refl) (fun M => eq_refl))|].
  exact (Hfail 1.0 2.0 0 0 1 1 0.5 0.5 configured_degenerate eq_refl eq_refl
           (degenerate_factorisation_fails 2000000) inverse_reference_nonempty eq_refl
           degenerate_moderate).
Defined.


(* ================================================================== *)
(** * The radar projection *)

Lemma PredictRadarMeasurement_body_spec (Xsig_pred M : Matrix) (i : nat) :
  (i < length M)%nat -> Forall (fun c => length c = 3%nat) M ->
  PredictRadarMeasurement_body Xsig_pred M i = upd i (radar_point (col Xsig_pred i)) M.
Proof.
  intros Hi HM.
  assert (Hc : length (col M i) = 3%nat).
  { rewrite Forall_forall in HM. apply HM. apply nth_In. exact Hi. }
  unfold PredictRadarMeasurement_body, radar_point, mget. cbv zeta.
  rewrite (mset_col 0), !mset_upd by exact Hi.
  destruct (col M i) as [|c0 [|c1 [|c2 [|]]]]; try discriminate. reflexivity.
Qed.

Lemma PredictRadarMeasurement_Zsig_columns (u : UKF) :
  well_formed u ->
  PredictRadarMeasurement_Zsig u
  = map (fun i => radar_point (col (Xsig_pred_ u) i)) (seq 0 15).
Proof.
  intros Hwf. unfold PredictRadarMeasurement_Zsig.
  rewrite (mfill_dims 3 15) by exact (wf_Zsig_radar u Hwf).
  rewrite (wf_n_aug u Hwf). change (2 * 7 + 1)%nat with (length (mzero 3 15)).
  apply (fold_left_overwrite _ _ (fun c => length c = 3%nat)).
  - intros M i Hi HM. apply PredictRadarMeasurement_body_spec; assumption.
  - intros i. reflexivity.
  - apply (dims_mzero 3 15).
Qed.

Lemma radar_rho_zero_iff (px py : R) : radar_rho exact px py = 0 <-> px = 0 /\ py = 0.
Proof.
  unfold radar_rho. cbn [d_sqrt d_add d_mul exact].
  split.
  - intros H. apply sqrt_eq_0 in H; [|nra]. split; nra.
  - intros [-> ->]. rewrite Rmult_0_l, Rplus_0_l. apply sqrt_0.
Qed.

(** C2 (amended).  The radar projection of every predicted sigma point
    divides by the range itself, with no floor.  As long as no intermediate
    underflows or overflows (one coordinate at least 1e-150 from the origin,
    position and speed at most 1e150) the range sqrt(px^2 + py^2) is
    positive and the range rate is the quotient
    (px v cos(yaw) + py v sin(yaw)) / range.  Near the origin the output is
    not finite: in binary64, px = 1e-200 and py = 0 with a unit radial speed
    give a range of 0 (the square underflows) and an infinite range rate. *)
Theorem C2_range_rate_divides_by_range (u : UKF) (i : nat) :
  well_formed u -> (i < 15)%nat -> radar_safe (col (Xsig_pred_ u) i) ->
  let p := col (Xsig_pred_ u) i in
  let z := col (Zsig_radar (PredictRadarMeasurement u)) i in
  let px := vget p 0 in
  let py := vget p 1 in
  let v := vget p 2 in
  let yaw := vget p 3 in
  let rho := sqrt (px * px + py * py) in
  (vget z 0 = rho /\ 0 < rho)
  /\ vget z 2 = (px * (cos yaw * v) + py * (sin yaw * v)) / rho
  /\ vget z 2 * rho = px * v * cos yaw + py * v * sin yaw
  /\ (radar_rho binary64 0x1.87e92154ef7acp-665%float 0%float = 0%float
      /\ radar_r_dot binary64 0x1.87e92154ef7acp-665%float 0%float 1%float 0%float = infinity
      /\ b64_finite (radar_r_dot binary64 0x1.87e92154ef7acp-665%float 0%float 1%float 0%float) = false).
Proof.
  intros Hwf Hi Hsafe p z px py v yaw rho.
  assert (Hz : z = radar_point p).
  { unfold z, PredictRadarMeasurement. cbv zeta.
    cbn [Zsig_radar set_S_r_ set_z_pred_r_ set_Zsig_radar].
    rewrite PredictRadarMeasurement_Zsig_columns by exact Hwf.
    unfold col at 1. rewrite nth_map_seq by exact Hi. reflexivity. }
  assert (Hne : px <> 0 \/ py <> 0).
  { destruct Hsafe as (Hfar & _). fold p in Hfar. fold px py in Hfar.
    pose proof tiny_positive as Ht.
    destruct Hfar as [H|H]; [left | right]; intros H0; rewrite H0, Rabs_R0 in H; lra. }
  assert (Hpos : 0 < rho).
  { pose proof (sqrt_pos (px * px + py * py)) as Hge. fold rho in Hge.
    destruct Hge as [Hgt|Heq]; [exact Hgt|].
    symmetry in Heq. apply radar_rho_zero_iff in Heq. destruct Heq, Hne; contradiction. }
  rewrite Hz. unfold radar_point. cbn [vget nth].
  fold (vget p 0) (vget p 1) (vget p 2) (vget p 3). fold px py v yaw.
  change (radar_rho exact px py) with rho.
  change (radar_r_dot exact px py (cos yaw * v) (sin yaw * v))
    with ((px * (cos yaw * v) + py * (sin yaw * v)) / rho).
  split; [split; [reflexivity | exact Hpos]|]. split; [reflexivity|].
  split; [field; lra|].
  repeat split; vm_compute; reflexivity.
Qed.

Lemma well_formed_approaching : well_formed approaching.
Proof.
  apply well_formed_set_Xsig_pred_; [exact (cf_wf tracked configured_tracked)|].
  apply dims_explicit; reflexivity.
Qed.

Lemma radar_safe_approaching : radar_safe (col (Xsig_pred_ approaching) 0).
Proof.
  pose proof tiny_below_one as Ht. pose proof one_below_huge as Hh.
  change (col (Xsig_pred_ approaching) 0) with [3; 4; 2; 0; 0].
  unfold radar_safe. cbn [vget nth].
  rewrite !Rabs_pos_eq by lra. repeat split; lra.
Qed.

Lemma C2_range_rate_divides_by_range_witness :
  let z := col (Zsig_radar (PredictRadarMeasurement approaching)) 0 in
  (vget z 0 = sqrt (3 * 3 + 4 * 4) /\ 0 < sqrt (3 * 3 + 4 * 4))
  /\ vget z 2 = (3 * (cos 0 * 2) + 4 * (sin 0 * 2)) / sqrt (3 * 3 + 4 * 4).
Proof.
  pose proof (C2_range_rate_divides_by_range approaching 0 well_formed_approaching
                ltac:(lia) radar_safe_approaching) as H.
  cbv zeta in H. destruct H as (Hrho & Hdot & _).
  split; [exact Hrho | exact Hdot].
Defined.

Lemma configured_InitializeUKF (m : MeasurementPackage) :
  configured (InitializeUKF UKF_new m).
Proof.
  constructor; try (unfold InitializeUKF; destruct (sensor_type_ m); reflexivity).
  apply InitializeUKF_wf, well_formed_new.
Qed.

(** C2 (counterexample).  A filter initialised by LIDAR [0, 0] receives a
    RADAR measurement: the first predicted sigma point is the origin, its
    range -- the divisor of its range rate -- is zero, and in binary64 the
    quotient 0 / sqrt(0) the code computes there is a NaN. *)
Lemma C2_range_rate_not_guarded :
  let u := InitializeUKF UKF_new (mkMeas 1000000 LASER [0.0; 0.0]) in
  let m := mkMeas 2000000 RADAR [1.0; 0.5; 0.0] in
  let u' := ProcessMeasurement eigen_reference u m in
  mget (Xsig_pred_ u') 0 0 = 0 /\ mget (Xsig_pred_ u') 1 0 = 0
  /\ mget (Zsig_radar u') 0 0 = 0
  /\ PrimFloat.is_nan (radar_r_dot binary64 0%float 0%float 0%float 0%float) = true
  /\ b64_finite (radar_r_dot binary64 0%float 0%float 0%float 0%float) = false.
Proof.
  intros u m u'.
  assert (Hc : configured (set_time_us_ (timestamp_ m) u))
    by apply configured_set_time_us_, configured_InitializeUKF.
  destruct (configured_weights _ Hc) as [Hlam Hw].
  assert (HL : matrixL (llt eigen_reference
                          (augmented_covariance (set_time_us_ (timestamp_ m) u)))
               = diag [sqrt 1; sqrt 1; sqrt 1; sqrt 0.5; sqrt 0.5;
                       sqrt (1.5 * 1.5); sqrt (2.0 * 2.0)]).
  { rewrite (augmented_covariance_diag _ 1 1 1 0.5 0.5 Hc eq_refl).
    cbn [llt eigen_reference]. rewrite llt_reference_diag7 by lra. reflexivity. }
  destruct (Prediction_diag eigen_reference (set_time_us_ (timestamp_ m) u)
              0.0 0.0 0 0 0 (sqrt 5) _ _ _ _ _ _ _ (cf_wf _ Hc) eq_refl
              (sqrt_lt_R0 5 ltac:(lra)) Hlam HL Hw (elapsed_seconds u m))
    as (mx & my & _ & _ & _ & _ & _ & HX & Hwf3).
  assert (Hu' : u' = UpdateRadar eigen_reference
                       (PredictRadarMeasurement
                          (Prediction eigen_reference (set_time_us_ (timestamp_ m) u)
                             (elapsed_seconds u m))) m).
  { unfold u'. rewrite ProcessMeasurement_initialized by reflexivity. reflexivity. }
  set (u3 := Prediction eigen_reference (set_time_us_ (timestamp_ m) u)
               (elapsed_seconds u m)) in *.
  assert (HXu' : Xsig_pred_ u' = Xsig_pred_ u3) by (rewrite Hu'; reflexivity).
  assert (HZu' : Zsig_radar u' = PredictRadarMeasurement_Zsig u3)
    by (rewrite Hu'; reflexivity).
  assert (H0 : mget (Xsig_pred_ u3) 0 0 = 0)
    by (rewrite HX; cbv [sigma_pred mget col vget nth]; lra).
  assert (H1 : mget (Xsig_pred_ u3) 1 0 = 0)
    by (rewrite HX; cbv [sigma_pred mget col vget nth]; lra).
  rewrite HXu', HZu'. split; [exact H0|]. split; [exact H1|]. split.
  - rewrite PredictRadarMeasurement_Zsig_columns by exact Hwf3.
    unfold mget, col at 1. rewrite nth_map_seq by lia.
    unfold radar_point. cbn [vget nth].
    apply radar_rho_zero_iff. split; [exact H0 | exact H1].
  - split; vm_compute; reflexivity.
Qed.

(* ================================================================== *)
(** * The angle-normalisation loops in binary64 *)

(** A double above [M_PI] that the subtraction of [2. * M_PI] leaves
    unchanged keeps the first loop running for ever. *)
Lemma while_above_b64_stuck (a : float) :
  d_gt binary64 a (d_M_PI binary64) = true ->
  d_sub binary64 a (d_mul binary64 (d_two binary64) (d_M_PI binary64)) = a ->
  forall fuel, while_above binary64 fuel a = None.
Proof.
  intros Hgt Hsub fuel. induction fuel as [|fuel IH]; [reflexivity|].
  cbn [while_above]. rewrite Hgt, Hsub. exact IH.
Qed.

Lemma while_below_b64_stuck (a : float) :
  d_lt binary64 a (d_opp binary64 (d_M_PI binary64)) = true ->
  d_add binary64 a (d_mul binary64 (d_two binary64) (d_M_PI binary64)) = a ->
  forall fuel, while_below binary64 fuel a = None.
Proof.
  intros Hlt Hadd fuel. induction fuel as [|fuel IH]; [reflexivity|].
  cbn [while_below]. rewrite Hlt, Hadd. exact IH.
Qed.

(** C10 (counterexample).  1e18 is a finite double; 1e18 - 2 * M_PI rounds
    back to 1e18, so the first loop never leaves it: for every amount of
    fuel the loops have not terminated. *)
Lemma C10_finite_input_diverges :
  b64_finite 1e18%float = true
  /\ PrimFloat.sub 1e18%float (PrimFloat.mul 2%float M_PI_b64) = 1e18%float
  /\ forall fuel, angle_loops binary64 fuel 1e18%float = None.
Proof.
  split; [vm_compute; reflexivity|]. split; [vm_compute; reflexivity|].
  intros fuel. unfold angle_loops.
  rewrite (while_above_b64_stuck 1e18%float); [reflexivity | | ];
    vm_compute; reflexivity.
Qed.

(** C10 (amended).  In exact arithmetic the two loops terminate on every
    input: some amount of fuel, and every larger one, returns a value, and
    the value lies in [-PI, PI].  In binary64 they do not terminate on
    either infinity (and, by the lemma above, on a finite double large
    enough to absorb the step); on a NaN both conditions are false and the
    NaN is returned at once. *)
Theorem C10_angle_loops_terminate :
  (forall a : R,
     exists (fuel : nat) (b : R),
       (forall fuel', (fuel <= fuel')%nat -> angle_loops exact fuel' a = Some b)
       /\ - PI <= b <= PI)
  /\ (forall fuel, angle_loops binary64 fuel infinity = None)
  /\ (forall fuel, angle_loops binary64 fuel neg_infinity = None)
  /\ angle_loops binary64 1 nan = Some nan.
Proof.
  split; [|split; [|split]].
  - intros a. destruct (angle_loops_exact a) as (b & Hb & Hr & _).
    exists (loop_fuel a), b. split; [|exact Hr].
    intros fuel' Hle. apply (angle_loops_fuel_mono (loop_fuel a)); assumption.
  - intros fuel. unfold angle_loops.
    rewrite (while_above_b64_stuck infinity); [reflexivity | | ];
      vm_compute; reflexivity.
  - intros fuel. unfold angle_loops. destruct fuel as [|fuel]; [reflexivity|].
    cbn [while_above].
    replace (d_gt binary64 neg_infinity (d_M_PI binary64)) with false
      by (vm_compute; reflexivity).
    apply (while_below_b64_stuck neg_infinity); vm_compute; reflexivity.
  - vm_compute. reflexivity.
Qed.

(* ================================================================== *)
(** * The cross-correlation of the lidar update *)

(** The heading-to-py coefficient of the cross-correlation on the cruising
    filter, one second on: the loop of [UpdateLidar] and the loop with the
    heading deviation normalised differ by (2 PI / 5) sin 5. *)
Lemma cruising_cross_correlation :
  let m := mkMeas 2000000 LASER [2.0; 2.0] in
  let u3 := Prediction eigen_reference (set_time_us_ (timestamp_ m) cruising) 1 in
  let u4 := PredictLidarMeasurement u3 in
  mget (UpdateLidar_Tc u4) 3 1 - mget (UpdateLidar_Tc_spec u4) 3 1
  = 2 * PI / 5 * sin 5.
Proof.
  pose proof yawd_guard_bounds as Hguard.
  intros m u3 u4.
  assert (Hc : configured (set_time_us_ (timestamp_ m) cruising)).
  { apply configured_set_time_us_, configured_set_P_;
      [apply configured_set_x_; [exact configured_tracked | reflexivity]|].
    apply dims_explicit; reflexivity. }
  destruct (configured_weights _ Hc) as [Hlam Hw].
  assert (HL : matrixL (llt eigen_reference
                          (augmented_covariance (set_time_us_ (timestamp_ m) cruising)))
               = diag [sqrt 1; sqrt 1; sqrt 1; sqrt 5; sqrt 0.5;
                       sqrt (1.5 * 1.5); sqrt (2.0 * 2.0)]).
  { rewrite (augmented_covariance_diag _ 1 1 1 5 0.5 Hc eq_refl).
    cbn [llt eigen_reference]. rewrite llt_reference_diag7 by lra. reflexivity. }
  destruct (Prediction_diag eigen_reference (set_time_us_ (timestamp_ m) cruising)
              1.0 2.0 1.0 0 0 (sqrt 5) _ _ _ _ _ _ _ (cf_wf _ Hc) eq_refl
              (sqrt_lt_R0 5 ltac:(lra)) Hlam HL Hw 1)
    as (mx & my & Hx3 & _ & _ & _ & Hw3 & HX3 & Hwf3).
  fold u3 in Hx3, Hw3, HX3, Hwf3.
  pose proof (PredictLidarMeasurement_Zsig_at_rest u3 _ _ _ _ _ _ _ _ _ _ _ _ _ _
                Hwf3 HX3) as HZ.
  destruct (PredictLidarMeasurement_shape u3 _ _ _ _ _ _ _ _ _ _ _ _ _ _ _
              Hwf3 Hw3 HX3) as [(a & b & Hz) _].
  fold u4 in Hz.
  assert (HZ4 : Zsig_lidar u4 = PredictLidarMeasurement_Zsig u3) by reflexivity.
  assert (Hx4 : x_ u4 = x_ u3) by reflexivity.
  assert (HX4 : Xsig_pred_ u4 = Xsig_pred_ u3) by reflexivity.
  assert (Hw4 : weights_ u4 = weights_ u3) by reflexivity.
  assert (Hn4 : n_aug_ u4 = 7%nat) by exact (wf_n_aug u3 Hwf3).
  assert (Hnx4 : n_x_ u4 = 5%nat) by exact (wf_n_x u3 Hwf3).
  assert (Hnz4 : n_z_lidar_ u4 = 2%nat) by exact (wf_n_z_lidar u3 Hwf3).
  unfold UpdateLidar_Tc, UpdateLidar_Tc_spec, normalize_at.
  rewrite Hz, HZ4, HZ, Hx4, Hx3, HX4, HX3, Hw4, Hw3, Hn4, Hnx4, Hnz4.
  unfold sigma_pred, sigma_pred_half. eval_lists.
  pose proof PI2_3_2 as Hpi_lo. pose proof PI_4 as Hpi_hi.
  assert (Hs5 : 2 < sqrt 5 < 3).
  { split.
    - rewrite <- (sqrt_square 2) by lra. apply sqrt_lt_1; lra.
    - rewrite <- (sqrt_square 3) at 1 by lra. apply sqrt_lt_1; lra. }
  assert (Hq : 1 < sqrt 5 * sqrt 0.5 < 2).
  { rewrite <- sqrt_mult by lra. split.
    - rewrite <- sqrt_1 at 1. apply sqrt_lt_1; lra.
    - rewrite <- (sqrt_square 2) at 1 by lra. apply sqrt_lt_1; lra. }
  set (q := sqrt 5 * sqrt 0.5) in *.
  rewrite (sqrt_sqrt 5), sqrt_1, (sqrt_square 1.5), (sqrt_square 2.0) by lra.
  set (s5 := sqrt 5) in *.
  assert (A1 : ctrv_dy 0 0 1 = 0).
  { unfold ctrv_dy. destruct (Rgt_dec (Rabs 0) yawd_guard) as [Hgt|_];
      [rewrite Rabs_R0 in Hgt; lra|]. rewrite sin_0. ring. }
  assert (A2 : ctrv_dy (0 + 5) 0 1 = sin 5).
  { unfold ctrv_dy. destruct (Rgt_dec (Rabs 0) yawd_guard) as [Hgt|_];
      [rewrite Rabs_R0 in Hgt; lra|]. rewrite Rplus_0_l. ring. }
  assert (A3 : ctrv_dy (0 + Ropp 5) 0 1 = - sin 5).
  { unfold ctrv_dy. destruct (Rgt_dec (Rabs 0) yawd_guard) as [Hgt|_];
      [rewrite Rabs_R0 in Hgt; lra|]. rewrite Rplus_0_l, sin_neg. ring. }
  assert (A4 : ctrv_dy 0 (0 + q) 1 = (1 - cos q) / q).
  { unfold ctrv_dy. destruct (Rgt_dec (Rabs (0 + q)) yawd_guard) as [_|Hle].
    - rewrite cos_0. replace (0 + (0 + q) * 1) with q by ring.
      rewrite Rplus_0_l. reflexivity.
    - exfalso. apply Hle. rewrite Rabs_pos_eq; lra. }
  assert (A5 : ctrv_dy 0 (0 + - q) 1 = - ((1 - cos q) / q)).
  { unfold ctrv_dy. destruct (Rgt_dec (Rabs (0 + - q)) yawd_guard) as [_|Hle].
    - rewrite cos_0. replace (0 + (0 + - q) * 1) with (- q) by ring.
      rewrite cos_neg, Rplus_0_l. field. lra.
    - exfalso. apply Hle. rewrite Rplus_0_l, Rabs_Ropp, Rabs_pos_eq; lra. }
  rewrite A1, A2, A3, A4, A5.
  repeat match goal with
         | |- context [angle_normalization ?a] =>
             first [ rewrite (angle_normalization_id a) by (split; lra)
                   | rewrite (angle_normalization_above a) by (split; lra)
                   | rewrite (angle_normalization_below a) by (split; lra) ]
         end.
  clearbody q s5. norm_decimals. rewrite sin_0. field. lra.
Qed.

(** C9.  On the cruising filter (speed 1 m/s, heading variance 5 rad^2) a
    LIDAR measurement one second after the last one reaches [UpdateLidar]
    with heading deviations of +-5 rad in two sigma points.  [UpdateLidar]
    uses them as they are; with the normalisation that [UpdateRadar] and
    [PredictMeanAndCovariance] apply, the cross-correlation would differ in
    its heading row. *)
Theorem C9_lidar_cross_correlation_not_normalized :
  let m := mkMeas 2000000 LASER [2.0; 2.0] in
  let u4 :=
    PredictLidarMeasurement
      (Prediction eigen_reference (set_time_us_ (timestamp_ m) cruising)
         (elapsed_seconds cruising m)) in
  mget (UpdateLidar_Tc u4) 3 1 - mget (UpdateLidar_Tc_spec u4) 3 1
  = 2 * PI / 5 * sin 5
  /\ sin 5 < 0
  /\ UpdateLidar_Tc u4 <> UpdateLidar_Tc_spec u4.
Proof.
  intros m u4.
  pose proof PI2_3_2 as Hlo. pose proof PI_4 as Hhi.
  assert (Hsin : sin 5 < 0) by (apply sin_lt_0; lra).
  assert (Hdt : elapsed_seconds cruising m = 1).
  { change (IZR 1000000 / 1000000.0 = 1). lra. }
  assert (Hdiff : mget (UpdateLidar_Tc u4) 3 1 - mget (UpdateLidar_Tc_spec u4) 3 1
                  = 2 * PI / 5 * sin 5).
  { unfold u4. rewrite Hdt. exact cruising_cross_correlation. }
  split; [exact Hdiff|]. split; [exact Hsin|].
  intros Heq. rewrite Heq in Hdiff. nra.
Qed.

(* ================================================================== *)
(** * The CTRV step of one sigma point *)







(* ================================================================== *)
(** * Further properties of the angle-normalisation loops *)

Lemma while_above_shift (fuel : nat) (a b : R) :
  while_above exact fuel a = Some b ->
  exists k : nat, b = a - 2 * PI * INR k.
Proof.
  revert a. induction fuel as [|fuel IH]; intros a H; [discriminate|].
  rewrite while_above_step in H.
  destruct (Rgtb a PI).
  - destruct (IH _ H) as (k & Hk). exists (S k). rewrite S_INR. lra.
  - injection H as <-. exists 0%nat. simpl. lra.
Qed.

Lemma while_below_shift (fuel : nat) (a b : R) :
  while_below exact fuel a = Some b ->
  exists k : nat, b = a + 2 * PI * INR k.
Proof.
  revert a. induction fuel as [|fuel IH]; intros a H; [discriminate|].
  rewrite while_below_step in H.
  destruct (Rltb a (- PI)).
  - destruct (IH _ H) as (k & Hk). exists (S k). rewrite S_INR. lra.
  - injection H as <-. exists 0%nat. simpl. lra.
Qed.

(** What the two loops leave: a value of [[-PI, PI]] that differs from the
    input by a whole number of turns, above [-PI] when the input was above
    [PI] and below [PI] when the input was below [-PI]. *)
Lemma angle_normalization_char (a : R) :
  exists k : Z,
    angle_normalization a = a + 2 * PI * IZR k
    /\ - PI <= angle_normalization a <= PI
    /\ (PI < a -> - PI < angle_normalization a)
    /\ (a < - PI -> angle_normalization a < PI).
Proof.
  pose proof PI_RGT_0 as Hpi.
  unfold angle_normalization.
  destruct (loop_fuel_covers a) as (n & Hn & Hcov).
  rewrite Hn. unfold angle_loops.
  assert (Habs : - Rabs a <= a <= Rabs a).
  { split; [pose proof (Rle_abs (- a)) as H; rewrite Rabs_Ropp in H; lra | apply Rle_abs]. }
  destruct (while_above_terminates n a (S n)) as (b & Hb & Hub & Hid & Hlow); [lra | lia |].
  rewrite Hb.
  destruct (while_above_shift _ _ _ Hb) as (j & Hj).
  destruct (Rle_or_lt a PI) as [Hle|Hgt].
  - rewrite (Hid Hle).
    destruct (while_below_terminates n a (S n)) as (c & Hc & Hlb & Hid' & Hup); [lra | lia |].
    rewrite Hc. destruct (while_below_shift _ _ _ Hc) as (i & Hi).
    exists (Z.of_nat i). rewrite <- INR_IZR_INZ.
    split; [exact Hi|]. split; [|split].
    + split; [exact Hlb|].
      destruct (Rle_or_lt (- PI) a) as [Hin|Hout]; [rewrite (Hid' Hin); exact Hle|].
      left. apply Hup. exact Hout.
    + intros Habove. lra.
    + intros Hout. apply Hup. exact Hout.
  - specialize (Hlow Hgt).
    destruct (while_below_terminates 0 b (S n)) as (c & Hc & Hlb & Hid' & _);
      [simpl; lra | lia |].
    rewrite Hc, (Hid' ltac:(lra)).
    exists (- Z.of_nat j)%Z. rewrite opp_IZR, <- INR_IZR_INZ.
    split; [lra|]. split; [lra|]. split; [intros _; exact Hlow | intros Hout; lra].
Qed.

(** Two values of [[-PI, PI]] a whole number of turns apart, not the two
    ends of the interval, are equal. *)
Lemma turns_apart (b c : R) (k : Z) :
  - PI <= b <= PI -> - PI <= c <= PI -> c - b < 2 * PI -> b - c < 2 * PI ->
  c = b + 2 * PI * IZR k -> c = b.
Proof.
  intros Hb Hc H1 H2 Hk. pose proof PI_RGT_0 as Hpi.
  assert (Hz : (k = 0)%Z).
  { assert (Hlo : (-1 < k)%Z) by (apply lt_IZR; simpl; nra).
    assert (Hhi : (k < 1)%Z) by (apply lt_IZR; simpl; nra).
    lia. }
  subst k. simpl in Hk. lra.
Qed.

Lemma angle_normalization_odd (a : R) :
  angle_normalization (- a) = - angle_normalization a.
Proof.
  pose proof PI_RGT_0 as Hpi.
  destruct (angle_normalization_char a) as (k & Hk & Hr & Habove & Hbelow).
  destruct (angle_normalization_char (- a)) as (k' & Hk' & Hr' & Habove' & Hbelow').
  destruct (Rle_or_lt a PI) as [Hle|Hgt].
  - destruct (Rle_or_lt (- PI) a) as [Hin|Hout].
    + rewrite !angle_normalization_id by lra. reflexivity.
    + specialize (Hbelow Hout). specialize (Habove' ltac:(lra)).
      apply (turns_apart _ _ (k + k')%Z); try lra.
      rewrite plus_IZR. lra.
  - specialize (Habove Hgt). specialize (Hbelow' ltac:(lra)).
    apply (turns_apart _ _ (k + k')%Z); try lra.
    rewrite plus_IZR. lra.
Qed.


(* ================================================================== *)
(** * The member functions keep the sizes of the members *)

Lemma dims_upd (r c i : nat) (v : Vector) (M : Matrix) :
  dims r c M -> length v = r -> dims r c (upd i v M).
Proof.
  intros [Hlen Hcols] Hv. split; [rewrite upd_length; exact Hlen|].
  clear Hlen. revert i. induction M as [|m M IH]; intros [|i]; cbn [upd]; try constructor;
    try exact Hv; try exact (Forall_inv Hcols); try exact (Forall_inv_tail Hcols).
  apply IH. exact (Forall_inv_tail Hcols).
Qed.

Lemma dims_mset (r c i j : nat) (v : R) (M : Matrix) :
  dims r c M -> dims r c (mset i j v M).
Proof.
  intros HM. rewrite mset_col.
  destruct (Nat.lt_ge_cases j c) as [Hlt|Hge].
  - apply dims_upd; [exact HM|]. rewrite upd_length. apply (length_col r c); assumption.
  - destruct HM as [Hlen Hcols]. split; [rewrite upd_length; exact Hlen|].
    assert (Hid : forall (A : Type) (k : nat) (x : A) (l : list A),
               (length l <= k)%nat -> upd k x l = l).
    { intros A k x l. revert k. induction l as [|h t IH]; intros [|k] Hk; cbn in *;
        try reflexivity; try lia. f_equal. apply IH. lia. }
    rewrite Hid by lia. exact Hcols.
Qed.

Lemma dims_mzero_fill (r c : nat) (M : Matrix) : dims r c M -> dims r c (mfill M 0).
Proof. intros HM. rewrite (mfill_dims r c) by exact HM. apply dims_mzero. Qed.

Lemma length_vadd (x y : Vector) : length x = length y -> length (vadd x y) = length x.
Proof. apply length_map2. Qed.

Lemma length_overwrite_head {A : Type} (n : nat) (src dst : list A) :
  length (overwrite_head n src dst) = length dst.
Proof.
  revert src dst. induction n as [|n IH]; intros [|a src] [|b dst]; cbn; auto.
Qed.

Lemma length_augmented_mean (u : UKF) : well_formed u -> length (augmented_mean u) = 7%nat.
Proof.
  intros Hwf. unfold augmented_mean. rewrite length_overwrite_head, (wf_n_aug u Hwf).
  apply repeat_length.
Qed.

Lemma dims_overwrite_topleft (r c n k : nat) (src dst : Matrix) :
  dims r c dst -> dims r c (overwrite_topleft n k src dst).
Proof.
  intros [Hlen Hcols]. subst c.
  revert src dst Hcols. induction k as [|k IH]; intros [|a src] [|b dst] Hcols;
    cbn [overwrite_topleft]; try (split; [reflexivity | exact Hcols]).
  destruct (IH src dst (Forall_inv_tail Hcols)) as [Hl Hc].
  split; [cbn [length]; rewrite Hl; reflexivity|].
  constructor; [|exact Hc].
  rewrite length_overwrite_head. exact (Forall_inv Hcols).
Qed.

Lemma augmented_covariance_dims (u : UKF) :
  well_formed u -> dims 7 7 (augmented_covariance u).
Proof.
  intros Hwf. unfold augmented_covariance. rewrite (wf_n_aug u Hwf).
  do 2 apply dims_mset. apply dims_overwrite_topleft, dims_mzero.
Qed.

Lemma GenerateAugmentedSigmaPoints_shaped (E : EigenOps) (u : UKF) :
  well_shaped E -> well_formed u -> well_formed (GenerateAugmentedSigmaPoints E u).
Proof.
  intros HE Hwf. unfold GenerateAugmentedSigmaPoints.
  apply well_formed_set_Xsig_aug_; [exact Hwf|].
  pose proof (ws_llt E HE _ (augmented_covariance_dims u Hwf)) as HL.
  pose proof (length_augmented_mean u Hwf) as Hx.
  set (L := matrixL (llt E (augmented_covariance u))) in *.
  set (g := sqrt (lambda_ u + INR (n_aug_ u))).
  rewrite (wf_n_aug u Hwf).
  assert (Hinv : forall l X, (forall i, In i l -> (i < 7)%nat) -> dims 7 15 X ->
            dims 7 15
              (fold_left
                 (fun X i =>
                    set_col (i + 1 + 7)
                      (vsub (augmented_mean u) (vscale g (col L i)))
                      (set_col (i + 1)
                         (vadd (augmented_mean u) (vscale g (col L i))) X))
                 l X)).
  { induction l as [|i l IH]; intros X Hl HX; [exact HX|].
    cbn [fold_left]. apply IH; [intros j Hj; apply Hl; right; exact Hj|].
    assert (Hc : length (vscale g (col L i)) = 7%nat).
    { rewrite length_vscale. apply (length_col 7 7); [exact HL|]. apply Hl. left. reflexivity. }
    unfold set_col. apply dims_upd; [apply dims_upd; [exact HX|]|].
    - rewrite length_vadd; rewrite Hx; [reflexivity | symmetry; exact Hc].
    - rewrite length_vsub; rewrite Hx; [reflexivity | symmetry; exact Hc]. }
  apply Hinv.
  - intros i Hi. apply in_seq in Hi. lia.
  - unfold set_col. apply dims_upd; [|exact Hx].
    apply dims_mzero_fill. exact (wf_Xsig_aug u Hwf).
Qed.

Lemma SigmaPointPrediction_shaped (u : UKF) (t : R) :
  well_formed u -> well_formed (SigmaPointPrediction u t).
Proof.
  intros Hwf. unfold SigmaPointPrediction at 1.
  apply well_formed_set_Xsig_pred_; [exact Hwf|].
  change (dims 5 15 (Xsig_pred_ (SigmaPointPrediction u t))).
  rewrite SigmaPointPrediction_columns by exact Hwf.
  split; [reflexivity|].
  apply Forall_forall. intros c Hc. apply in_map_iff in Hc.
  destruct Hc as (i & <- & _). reflexivity.
Qed.

(** A weighted sum of columns, as the three mean loops accumulate it. *)
Lemma length_weighted_sum (n : nat) (F : nat -> Vector) (l : list nat) :
  (forall i, In i l -> length (F i) = n) ->
  forall x, length x = n -> length (fold_left (fun x i => vadd x (F i)) l x) = n.
Proof.
  induction l as [|i l IH]; intros HF x Hx; [exact Hx|].
  cbn [fold_left]. apply IH; [intros j Hj; apply HF; right; exact Hj|].
  rewrite length_vadd; [exact Hx|]. rewrite Hx. symmetry. apply HF. left. reflexivity.
Qed.

Lemma length_vfill (x : Vector) (v : R) : length (vfill x v) = length x.
Proof. apply length_map. Qed.

Lemma PredictMeanAndCovariance_x_length (u : UKF) :
  well_formed u -> length (PredictMeanAndCovariance_x u) = 5%nat.
Proof.
  intros Hwf. unfold PredictMeanAndCovariance_x. rewrite (wf_n_aug u Hwf).
  apply (length_weighted_sum 5
           (fun i => vscale (vget (weights_ u) i) (col (Xsig_pred_ u) i))).
  - intros i Hi. apply in_seq in Hi. rewrite length_vscale.
    apply (length_col 5 15); [exact (wf_Xsig_pred u Hwf) | lia].
  - rewrite length_vfill. exact (wf_x u Hwf).
Qed.

Lemma PredictMeanAndCovariance_P_dims (u : UKF) (x : Vector) :
  well_formed u -> length x = 5%nat -> dims 5 5 (PredictMeanAndCovariance_P u x).
Proof.
  intros Hwf Hx. unfold PredictMeanAndCovariance_P. rewrite (wf_n_aug u Hwf).
  apply (fold_madd_dims 5 5
           (fun i => outer (vscale (vget (weights_ u) i)
                              (normalize_at 3 (vsub (col (Xsig_pred_ u) i) x)))
                       (normalize_at 3 (vsub (col (Xsig_pred_ u) i) x))));
    [|apply dims_mzero_fill; exact (wf_P u Hwf)].
  intros i Hi. apply in_seq in Hi.
  pose proof (length_col 5 15 _ i (wf_Xsig_pred u Hwf) ltac:(lia)) as HX.
  pose proof (dims_outer (vscale (vget (weights_ u) i)
                            (normalize_at 3 (vsub (col (Xsig_pred_ u) i) x)))
                (normalize_at 3 (vsub (col (Xsig_pred_ u) i) x))) as Hd.
  rewrite length_vscale, !length_normalize_at, !length_vsub in Hd;
    rewrite ?HX, ?Hx in *; auto.
Qed.

Lemma PredictMeanAndCovariance_shaped (u : UKF) :
  well_formed u -> well_formed (PredictMeanAndCovariance u).
Proof.
  intros Hwf. unfold PredictMeanAndCovariance.
  apply well_formed_set_P_; [apply well_formed_set_x_; [exact Hwf|]|].
  - apply PredictMeanAndCovariance_x_length. exact Hwf.
  - apply PredictMeanAndCovariance_P_dims; [exact Hwf|].
    apply PredictMeanAndCovariance_x_length. exact Hwf.
Qed.

Lemma Prediction_shaped (E : EigenOps) (u : UKF) (t : R) :
  well_shaped E -> well_formed u -> well_formed (Prediction E u t).
Proof.
  intros HE Hwf. unfold Prediction.
  apply PredictMeanAndCovariance_shaped, SigmaPointPrediction_shaped,
    GenerateAugmentedSigmaPoints_shaped; assumption.
Qed.

Lemma dims_fold_mset (r c : nat) (body : Matrix -> nat -> Matrix) (l : list nat) :
  (forall M i, dims r c M -> dims r c (body M i)) ->
  forall M, dims r c M -> dims r c (fold_left body l M).
Proof.
  intros Hbody. induction l as [|i l IH]; intros M HM; [exact HM|].
  cbn [fold_left]. apply IH, Hbody, HM.
Qed.

Lemma dims_diag (d : list R) : dims (length d) (length d) (diag d).
Proof.
  unfold diag. split; [rewrite length_map, length_seq; reflexivity|].
  apply Forall_forall. intros c Hc. apply in_map_iff in Hc.
  destruct Hc as (i & <- & _). rewrite upd_length. apply repeat_length.
Qed.

Lemma PredictLidarMeasurement_shaped (u : UKF) :
  well_formed u -> well_formed (PredictLidarMeasurement u).
Proof.
  intros Hwf.
  assert (HZ : dims 2 15 (PredictLidarMeasurement_Zsig u)).
  { unfold PredictLidarMeasurement_Zsig. apply dims_fold_mset.
    - intros M i HM. unfold PredictLidarMeasurement_body. cbv zeta. do 2 apply dims_mset.
      exact HM.
    - apply dims_mzero_fill. exact (wf_Zsig_lidar u Hwf). }
  assert (Hz : length (PredictLidarMeasurement_z_pred u (PredictLidarMeasurement_Zsig u))
               = 2%nat).
  { unfold PredictLidarMeasurement_z_pred. rewrite (wf_n_aug u Hwf).
    apply (length_weighted_sum 2
             (fun i => vscale (vget (weights_ u) i)
                         (col (PredictLidarMeasurement_Zsig u) i))).
    - intros i Hi. apply in_seq in Hi. rewrite length_vscale.
      apply (length_col 2 15); [exact HZ | lia].
    - rewrite length_vfill. exact (wf_z_pred_l u Hwf). }
  assert (HS : dims 2 2 (PredictLidarMeasurement_S u (PredictLidarMeasurement_Zsig u)
                           (PredictLidarMeasurement_z_pred u
                              (PredictLidarMeasurement_Zsig u)))).
  { unfold PredictLidarMeasurement_S. cbv zeta. rewrite (wf_n_aug u Hwf).
    apply dims_madd; [|apply (dims_diag [_; _])].
    set (z := PredictLidarMeasurement_z_pred u (PredictLidarMeasurement_Zsig u)) in *.
    apply (fold_madd_dims 2 2
             (fun i => outer (vscale (vget (weights_ u) i)
                                (vsub (col (PredictLidarMeasurement_Zsig u) i) z))
                         (vsub (col (PredictLidarMeasurement_Zsig u) i) z)));
      [|apply dims_mzero_fill; exact (wf_S_l u Hwf)].
    intros i Hi. apply in_seq in Hi.
    pose proof (length_col 2 15 _ i HZ ltac:(lia)) as Hc.
    pose proof (dims_outer (vscale (vget (weights_ u) i)
                              (vsub (col (PredictLidarMeasurement_Zsig u) i) z))
                  (vsub (col (PredictLidarMeasurement_Zsig u) i) z)) as Hd.
    rewrite length_vscale, !length_vsub in Hd; rewrite ?Hc, ?Hz in *; auto. }
  unfold PredictLidarMeasurement. cbv zeta.
  destruct Hwf. constructor; assumption.
Qed.

Lemma PredictRadarMeasurement_shaped (u : UKF) :
  well_formed u -> well_formed (PredictRadarMeasurement u).
Proof.
  intros Hwf.
  assert (HZ : dims 3 15 (PredictRadarMeasurement_Zsig u)).
  { unfold PredictRadarMeasurement_Zsig. apply dims_fold_mset.
    - intros M i HM. unfold PredictRadarMeasurement_body. cbv zeta. do 3 apply dims_mset.
      exact HM.
    - apply dims_mzero_fill. exact (wf_Zsig_radar u Hwf). }
  assert (Hz : length (PredictRadarMeasurement_z_pred u (PredictRadarMeasurement_Zsig u))
               = 3%nat).
  { unfold PredictRadarMeasurement_z_pred. rewrite (wf_n_aug u Hwf).
    apply (length_weighted_sum 3
             (fun i => vscale (vget (weights_ u) i)
                         (col (PredictRadarMeasurement_Zsig u) i))).
    - intros i Hi. apply in_seq in Hi. rewrite length_vscale.
      apply (length_col 3 15); [exact HZ | lia].
    - rewrite length_vfill. exact (wf_z_pred_r u Hwf). }
  assert (HS : dims 3 3 (PredictRadarMeasurement_S u (PredictRadarMeasurement_Zsig u)
                           (PredictRadarMeasurement_z_pred u
                              (PredictRadarMeasurement_Zsig u)))).
  { unfold PredictRadarMeasurement_S. cbv zeta. rewrite (wf_n_aug u Hwf).
    apply dims_madd; [|apply (dims_diag [_; _; _])].
    set (z := PredictRadarMeasurement_z_pred u (PredictRadarMeasurement_Zsig u)) in *.
    apply (fold_madd_dims 3 3
             (fun i => outer (vscale (vget (weights_ u) i)
                                (normalize_at 1
                                   (vsub (col (PredictRadarMeasurement_Zsig u) i) z)))
                         (normalize_at 1
                            (vsub (col (PredictRadarMeasurement_Zsig u) i) z))));
      [|apply dims_mzero_fill; exact (wf_S_r u Hwf)].
    intros i Hi. apply in_seq in Hi.
    pose proof (length_col 3 15 _ i HZ ltac:(lia)) as Hc.
    pose proof (dims_outer (vscale (vget (weights_ u) i)
                              (normalize_at 1
                                 (vsub (col (PredictRadarMeasurement_Zsig u) i) z)))
                  (normalize_at 1 (vsub (col (PredictRadarMeasurement_Zsig u) i) z))) as Hd.
    rewrite length_vscale, !length_normalize_at, !length_vsub in Hd;
      rewrite ?Hc, ?Hz in *; auto. }
  unfold PredictRadarMeasurement. cbv zeta.
  destruct Hwf. constructor; assumption.
Qed.

(** The product [M * N] has the rows of [M] and the columns of [N]. *)
Lemma dims_mmul (M N : Matrix) : dims (rows M) (length N) (mmul M N).
Proof.
  unfold mmul. split; [apply length_map|].
  apply Forall_forall. intros c Hc. apply in_map_iff in Hc.
  destruct Hc as (b & <- & _). unfold mat_vec. rewrite length_map, length_seq. reflexivity.
Qed.

Lemma rows_dims (r c : nat) (M : Matrix) : dims r (S c) M -> rows M = r.
Proof. intros HM. unfold rows. apply (length_col r (S c)); [exact HM | lia]. Qed.

Lemma dims_transpose (r c : nat) (M : Matrix) :
  dims r c M -> dims c (rows M) (transpose M).
Proof.
  intros [Hlen _]. unfold transpose. split; [rewrite length_map, length_seq; reflexivity|].
  apply Forall_forall. intros v Hv. apply in_map_iff in Hv.
  destruct Hv as (i & <- & _). unfold row. rewrite length_map. exact Hlen.
Qed.

Lemma dims_msub (r c : nat) (M N : Matrix) :
  dims r c M -> dims r c N -> dims r c (msub M N).
Proof.
  intros [HM HMc] [HN HNc]. unfold msub. split.
  - rewrite length_map2; [exact HM|].
    etransitivity; [exact HM | symmetry; exact HN].
  - clear HM HN. revert N HNc.
    induction M as [|m M IH]; intros [|n N] HNc; cbn [map2]; try constructor.
    + unfold vsub. rewrite length_map2; [exact (Forall_inv HMc)|].
      etransitivity; [exact (Forall_inv HMc) | symmetry; exact (Forall_inv HNc)].
    + apply IH; [exact (Forall_inv_tail HMc) | exact (Forall_inv_tail HNc)].
Qed.

(** The two assignments that end an update (ukf.cpp:441-442, 514-515). *)
Lemma update_shaped (n : nat) (Tc S Sinv P : Matrix) (x z_diff : Vector) :
  dims 5 (Datatypes.S n) Tc -> dims (Datatypes.S n) (Datatypes.S n) S ->
  dims (Datatypes.S n) (Datatypes.S n) Sinv ->
  length x = 5%nat -> dims 5 5 P ->
  let K := mmul Tc Sinv in
  dims 5 (Datatypes.S n) K
  /\ length (vadd x (mat_vec K z_diff)) = 5%nat
  /\ dims 5 5 (msub P (mmul (mmul K S) (transpose K))).
Proof.
  intros HTc HS HSinv Hx HP K.
  assert (HK : dims 5 (Datatypes.S n) K).
  { pose proof (dims_mmul Tc Sinv) as H.
    rewrite (rows_dims _ _ _ HTc), (proj1 HSinv) in H. exact H. }
  split; [exact HK|]. split.
  - rewrite length_vadd; [exact Hx|]. rewrite Hx. unfold mat_vec.
    rewrite length_map, length_seq. symmetry. exact (rows_dims _ _ _ HK).
  - apply dims_msub; [exact HP|].
    pose proof (dims_mmul (mmul K S) (transpose K)) as H.
    pose proof (dims_mmul K S) as HKS.
    rewrite (rows_dims _ _ _ HK), (proj1 HS) in HKS.
    rewrite (rows_dims _ _ _ HKS) in H.
    pose proof (dims_transpose _ _ _ HK) as HKt.
    rewrite (proj1 HKt), (rows_dims _ _ _ HK) in H. exact H.
Qed.

Lemma UpdateLidar_shaped (E : EigenOps) (u : UKF) (m : MeasurementPackage) :
  well_shaped E -> well_formed u -> well_formed (UpdateLidar E u m).
Proof.
  intros HE Hwf. unfold UpdateLidar. cbv zeta.
  destruct (update_shaped 1 (UpdateLidar_Tc u) (S_l_ u) (inverse E (S_l_ u)) (P_ u) (x_ u)
              (vsub [vget (raw_measurements_ m) 0; vget (raw_measurements_ m) 1]
                 (z_pred_l_ u))
              (UpdateLidar_Tc_dims u Hwf) (wf_S_l u Hwf)
              (ws_inverse E HE 2%nat _ (wf_S_l u Hwf)) (wf_x u Hwf) (wf_P u Hwf))
    as (_ & Hx & HP).
  apply well_formed_set_P_; [apply well_formed_set_x_; [exact Hwf | exact Hx] | exact HP].
Qed.

Lemma UpdateRadar_shaped (E : EigenOps) (u : UKF) (m : MeasurementPackage) :
  well_shaped E -> well_formed u -> well_formed (UpdateRadar E u m).
Proof.
  intros HE Hwf. unfold UpdateRadar. cbv zeta.
  destruct (update_shaped 2 (UpdateRadar_Tc u) (S_r_ u) (inverse E (S_r_ u)) (P_ u) (x_ u)
              (normalize_at 1
                 (vsub [vget (raw_measurements_ m) 0; vget (raw_measurements_ m) 1;
                        vget (raw_measurements_ m) 2] (z_pred_r_ u)))
              (UpdateRadar_Tc_dims u Hwf) (wf_S_r u Hwf)
              (ws_inverse E HE 3%nat _ (wf_S_r u Hwf)) (wf_x u Hwf) (wf_P u Hwf))
    as (_ & Hx & HP).
  apply well_formed_set_P_; [apply well_formed_set_x_; [exact Hwf | exact Hx] | exact HP].
Qed.

Lemma Update_shaped (E : EigenOps) (u : UKF) (m : MeasurementPackage) :
  well_shaped E -> well_formed u -> well_formed (Update E u m).
Proof.
  intros HE Hwf. unfold Update. destruct (sensor_type_ m).
  - apply UpdateLidar_shaped, PredictLidarMeasurement_shaped; assumption.
  - apply UpdateRadar_shaped, PredictRadarMeasurement_shaped; assumption.
Qed.

Lemma ProcessMeasurement_shaped (E : EigenOps) (u : UKF) (m : MeasurementPackage) :
  well_shaped E -> well_formed u -> well_formed (ProcessMeasurement E u m).
Proof.
  intros HE Hwf. unfold ProcessMeasurement.
  destruct (negb (is_initialized_ u)); [apply InitializeUKF_wf; exact Hwf|].
  cbv zeta. apply Update_shaped, Prediction_shaped; try assumption.
  apply well_formed_set_time_us_. exact Hwf.
Qed.

(* ================================================================== *)
(** * The reference routines have the shapes the filter relies on *)

Lemma llt_unblocked_dims (r c : nat) (ks : list nat) (size : nat) (mat : Matrix) :
  dims r c mat -> dims r c (fst (llt_unblocked ks size mat)).
Proof.
  revert mat. induction ks as [|k ks IH]; intros mat Hd; [exact Hd|].
  cbn [llt_unblocked]. cbv zeta.
  destruct (Rle_dec (llt_pivot mat k) 0); [exact Hd|].
  apply IH. unfold llt_column. apply dims_fold_mset.
  - intros M i HM. apply dims_mset. exact HM.
  - apply dims_mset. exact Hd.
Qed.

Lemma lower_triangle_dims (r c : nat) (M : Matrix) :
  dims r c M -> dims r c (lower_triangle M).
Proof.
  intros [Hlen Hcols]. unfold lower_triangle.
  split; [rewrite length_map, length_seq; exact Hlen|].
  apply Forall_forall. intros v Hv. apply in_map_iff in Hv.
  destruct Hv as (j & <- & Hj). apply in_seq in Hj.
  rewrite length_map, length_seq.
  apply (length_col r c); [split; assumption | lia].
Qed.

Lemma eigen_reference_shaped : well_shaped eigen_reference.
Proof.
  constructor.
  - intros M HM. cbn [llt eigen_reference]. unfold llt_reference.
    pose proof (llt_unblocked_dims 7 7 (seq 0 (length M)) (length M) M HM) as H.
    destruct (llt_unblocked (seq 0 (length M)) (length M) M) as [mat status].
    cbn [matrixL]. apply lower_triangle_dims. exact H.
  - intros n M [Hlen _]. cbn [inverse eigen_reference]. unfold inverse_reference.
    rewrite Hlen. split; [rewrite length_map, length_seq; reflexivity|].
    apply Forall_forall. intros v Hv. apply in_map_iff in Hv.
    destruct Hv as (j & <- & _). rewrite length_map, length_seq. reflexivity.
Qed.

(* ================================================================== *)
(** * A matrix of known size, opened into its coefficients *)

Ltac open_matrix M H :=
  let Hlen := fresh "Hlen" in
  let Hcols := fresh "Hcols" in
  destruct H as [Hlen Hcols];
  repeat (let c := fresh "c" in
          destruct M as [|c M]; [discriminate Hlen|];
          let Hc := fresh "Hc" in
          pose proof (Forall_inv Hcols) as Hc; cbv beta in Hc;
          apply Forall_inv_tail in Hcols;
          open_list c);
  destruct M; [|discriminate Hlen]; clear Hlen Hcols.

(* ================================================================== *)
(** * The sigma points and the predicted mean, for any factor *)




(* ================================================================== *)
(** * The lidar measurement model is linear *)

Section LidarLinear.

Variable u : UKF.
Hypothesis Hwf : well_formed u.

Let u3 : UKF := PredictMeanAndCovariance u.
Let u4 : UKF := PredictLidarMeasurement u3.

Lemma PredictLidarMeasurement_mean :
  z_pred_l_ u4 = [vget (x_ u3) 0; vget (x_ u3) 1].
Proof.
  pose proof (wf_Xsig_pred u Hwf) as HX. pose proof (wf_weights u Hwf) as Hw.
  pose proof (wf_Zsig_lidar u Hwf) as HZ.
  unfold u4, u3, PredictLidarMeasurement, PredictMeanAndCovariance. cbv zeta.
  cbn [z_pred_l_ x_ set_S_l_ set_z_pred_l_ set_Zsig_lidar set_P_ set_x_].
  unfold PredictLidarMeasurement_z_pred, PredictLidarMeasurement_Zsig,
    PredictLidarMeasurement_body, PredictMeanAndCovariance_x.
  cbn [weights_ n_aug_ Xsig_pred_ Zsig_lidar z_pred_l_ x_ set_P_ set_x_].
  rewrite (wf_n_aug u Hwf), (mfill_dims 2 15) by exact HZ.
  rewrite (vfill_length 2) by exact (wf_z_pred_l u Hwf).
  rewrite (vfill_length 5) by exact (wf_x u Hwf).
  set (X := Xsig_pred_ u) in *. set (w := weights_ u) in *. clearbody X w.
  open_matrix X HX. open_list w.
  eval_lists. reflexivity.
Qed.

Lemma PredictLidarMeasurement_covariance (r c : nat) :
  (r < 2)%nat -> (c < 2)%nat ->
  mget (S_l_ u4) r c
  = mget (P_ u3) r c
    + mget (diag [std_laspx_ u * std_laspx_ u; std_laspy_ u * std_laspy_ u]) r c.
Proof.
  intros Hr Hc.
  pose proof (wf_Xsig_pred u Hwf) as HX. pose proof (wf_weights u Hwf) as Hw.
  pose proof (wf_Zsig_lidar u Hwf) as HZ.
  pose proof (PredictMeanAndCovariance_x_length u Hwf) as Hx.
  pose proof PredictLidarMeasurement_mean as Hz.
  assert (HS : S_l_ u4
               = PredictLidarMeasurement_S u3 (PredictLidarMeasurement_Zsig u3)
                   (z_pred_l_ u4)) by reflexivity.
  rewrite HS, Hz.
  change (x_ u3) with (PredictMeanAndCovariance_x u).
  change (P_ u3) with (PredictMeanAndCovariance_P u (PredictMeanAndCovariance_x u)).
  unfold PredictLidarMeasurement_S, PredictLidarMeasurement_Zsig,
    PredictLidarMeasurement_body, PredictMeanAndCovariance_P, normalize_at.
  change (weights_ u3) with (weights_ u). change (n_aug_ u3) with (n_aug_ u).
  change (Xsig_pred_ u3) with (Xsig_pred_ u). change (Zsig_lidar u3) with (Zsig_lidar u).
  change (S_l_ u3) with (S_l_ u).
  change (std_laspx_ u3) with (std_laspx_ u). change (std_laspy_ u3) with (std_laspy_ u).
  rewrite (wf_n_aug u Hwf), (mfill_dims 2 15) by exact HZ.
  rewrite (mfill_dims 2 2) by exact (wf_S_l u Hwf).
  rewrite (mfill_dims 5 5) by exact (wf_P u Hwf).
  set (x := PredictMeanAndCovariance_x u) in *.
  set (X := Xsig_pred_ u) in *. set (w := weights_ u) in *. clearbody X w x.
  open_matrix X HX. open_list w. open_list x.
  destruct r as [|[|r]]; [| |lia]; (destruct c as [|[|c]]; [| |lia]); eval_lists; ring.
Qed.

Lemma UpdateLidar_Tc_covariance (r c : nat) :
  (r < 5)%nat -> r <> 3%nat -> (c < 2)%nat ->
  mget (UpdateLidar_Tc u4) r c = mget (P_ u3) r c.
Proof.
  intros Hr Hr3 Hc.
  pose proof (wf_Xsig_pred u Hwf) as HX. pose proof (wf_weights u Hwf) as Hw.
  pose proof (wf_Zsig_lidar u Hwf) as HZ.
  pose proof (PredictMeanAndCovariance_x_length u Hwf) as Hx.
  pose proof PredictLidarMeasurement_mean as Hz.
  unfold UpdateLidar_Tc. rewrite Hz.
  change (Zsig_lidar u4) with (PredictLidarMeasurement_Zsig u3).
  change (x_ u4) with (PredictMeanAndCovariance_x u).
  change (x_ u3) with (PredictMeanAndCovariance_x u).
  change (P_ u3) with (PredictMeanAndCovariance_P u (PredictMeanAndCovariance_x u)).
  unfold PredictLidarMeasurement_Zsig, PredictLidarMeasurement_body,
    PredictMeanAndCovariance_P, normalize_at.
  change (weights_ u4) with (weights_ u). change (n_aug_ u4) with (n_aug_ u).
  change (n_x_ u4) with (n_x_ u). change (n_z_lidar_ u4) with (n_z_lidar_ u).
  change (Xsig_pred_ u4) with (Xsig_pred_ u).
  change (Xsig_pred_ u3) with (Xsig_pred_ u). change (Zsig_lidar u3) with (Zsig_lidar u).
  change (n_aug_ u3) with (n_aug_ u).
  rewrite (wf_n_aug u Hwf), (wf_n_x u Hwf), (wf_n_z_lidar u Hwf),
    (mfill_dims 2 15) by exact HZ.
  rewrite (mfill_dims 5 5) by exact (wf_P u Hwf).
  set (x := PredictMeanAndCovariance_x u) in *.
  set (X := Xsig_pred_ u) in *. set (w := weights_ u) in *. clearbody X w x.
  open_matrix X HX. open_list w. open_list x.
  destruct r as [|[|[|[|[|r]]]]]; try lia; try congruence;
    (destruct c as [|[|c]]; [| |lia]); eval_lists; ring.
Qed.

End LidarLinear.

(* ================================================================== *)
(** * Whole turns, the clock and the innovation *)


Lemma ProcessMeasurement_first (E : EigenOps) (u : UKF) (m : MeasurementPackage) :
  is_initialized_ u = false -> ProcessMeasurement E u m = InitializeUKF u m.
Proof. intros H. unfold ProcessMeasurement. rewrite H. reflexivity. Qed.

Lemma Update_initialized (E : EigenOps) (u : UKF) (t : R) (m : MeasurementPackage) :
  let u' := Update E (Prediction E u t) m in
  is_initialized_ u' = is_initialized_ u /\ time_us_ u' = time_us_ u
  /\ std_laspx_ u' = std_laspx_ u /\ std_laspy_ u' = std_laspy_ u.
Proof. unfold Update. destruct (sensor_type_ m); repeat split; reflexivity. Qed.

Lemma dot_zeros (r : Vector) (n : nat) : dot r (repeat 0 n) = 0.
Proof.
  unfold dot. revert n. induction r as [|a r IH]; intros [|n]; cbn; try reflexivity.
  change (a * 0 + dot r (repeat 0 n) = 0). fold (dot r (repeat 0 n)) in IH.
  unfold dot in *. rewrite IH. ring.
Qed.

Lemma mat_vec_zeros (K : Matrix) (n : nat) : mat_vec K (repeat 0 n) = repeat 0 (rows K).
Proof.
  unfold mat_vec. generalize (rows K) as m. intros m. generalize 0%nat as s.
  induction m as [|m IH]; intros s; cbn [seq map repeat]; [reflexivity|].
  rewrite dot_zeros, IH. reflexivity.
Qed.

Lemma vadd_zeros (x : Vector) : vadd x (repeat 0 (length x)) = x.
Proof.
  unfold vadd. induction x as [|a x IH]; cbn; [reflexivity|].
  rewrite IH. f_equal. ring.
Qed.

Lemma gain_rows (E : EigenOps) (n : nat) (Tc S : Matrix) :
  well_shaped E -> dims 5 (Datatypes.S n) Tc -> dims (Datatypes.S n) (Datatypes.S n) S ->
  rows (mmul Tc (inverse E S)) = 5%nat.
Proof.
  intros HE HTc HS.
  pose proof (ws_inverse E HE _ _ HS) as Hinv.
  pose proof (dims_mmul Tc (inverse E S)) as HK.
  rewrite (rows_dims 5 n Tc HTc), (proj1 Hinv) in HK.
  exact (rows_dims 5 n _ HK).
Qed.

Lemma Update_matching_measurement (E : EigenOps) (u : UKF) (m : MeasurementPackage) :
  well_shaped E -> well_formed u ->
  raw_measurements_ m
  = match sensor_type_ m with
    | LASER => z_pred_l_ (PredictLidarMeasurement u)
    | RADAR => z_pred_r_ (PredictRadarMeasurement u)
    end ->
  x_ (Update E u m) = x_ u.
Proof.
  intros HE Hwf Hm. pose proof PI_RGT_0 as Hpi.
  unfold Update. destruct (sensor_type_ m).
  - pose proof (PredictLidarMeasurement_shaped u Hwf) as Hwf'.
    set (u' := PredictLidarMeasurement u) in *.
    assert (Hx : x_ u' = x_ u) by reflexivity. rewrite <- Hx. clearbody u'.
    unfold UpdateLidar. cbv zeta. cbn [x_ set_P_ set_x_]. rewrite Hm.
    pose proof (wf_z_pred_l u' Hwf') as Hz.
    set (z := z_pred_l_ u') in *.
    assert (Hd : vsub [vget z 0; vget z 1] z = repeat 0 2).
    { clearbody z. open_list z. cbn. f_equal; [ring|]. f_equal. ring. }
    rewrite Hd, mat_vec_zeros.
    rewrite (gain_rows E 1 _ _ HE (UpdateLidar_Tc_dims u' Hwf') (wf_S_l u' Hwf')).
    rewrite <- (wf_x u' Hwf'). apply vadd_zeros.
  - pose proof (PredictRadarMeasurement_shaped u Hwf) as Hwf'.
    set (u' := PredictRadarMeasurement u) in *.
    assert (Hx : x_ u' = x_ u) by reflexivity. rewrite <- Hx. clearbody u'.
    unfold UpdateRadar. cbv zeta. cbn [x_ set_P_ set_x_]. rewrite Hm.
    pose proof (wf_z_pred_r u' Hwf') as Hz.
    set (z := z_pred_r_ u') in *.
    assert (Hd : normalize_at 1 (vsub [vget z 0; vget z 1; vget z 2] z) = repeat 0 3).
    { clearbody z. open_list z. unfold normalize_at. cbn [vsub map2 vget nth vset upd].
      replace (a0 - a0) with 0 by ring.
      rewrite angle_normalization_id by lra.
      cbn. f_equal; [ring|]. f_equal. f_equal. ring. }
    rewrite Hd, mat_vec_zeros.
    rewrite (gain_rows E 2 _ _ HE (UpdateRadar_Tc_dims u' Hwf') (wf_S_r u' Hwf')).
    rewrite <- (wf_x u' Hwf'). apply vadd_zeros.
Qed.

(* ================================================================== *)
(** * The radar projection and the first radar measurement *)






(* ================================================================== *)
(** * The path of one sigma point *)




(* ================================================================== *)
(** * The sigma points about the mean *)


(* ================================================================== *)
(** * A lidar cycle from a state that moves along x *)

Lemma sigma_pred_straight (px py v gamma t : R) (l : list R) :
  gamma * nth 4 l 0 > yawd_guard ->
  sigma_pred px py v 0 0 gamma t l = straight_points px py v gamma t l.
Proof.
  pose proof yawd_guard_bounds as Hguard.
  intros Hd. set (d := gamma * nth 4 l 0) in *.
  assert (Hrest : ~ Rabs 0 > yawd_guard) by (rewrite Rabs_R0; lra).
  assert (Hturn : Rabs (0 + d) > yawd_guard) by (rewrite Rplus_0_l, Rabs_pos_eq; lra).
  assert (Hturn' : Rabs (0 + - d) > yawd_guard)
    by (rewrite Rplus_0_l, Rabs_Ropp, Rabs_pos_eq; lra).
  assert (A0x : ctrv_dx 0 0 t = t).
  { unfold ctrv_dx. destruct (Rgt_dec (Rabs 0) yawd_guard); [contradiction|].
    rewrite cos_0. ring. }
  assert (A0y : ctrv_dy 0 0 t = 0).
  { unfold ctrv_dy. destruct (Rgt_dec (Rabs 0) yawd_guard); [contradiction|].
    rewrite sin_0. ring. }
  assert (A3x : forall a, ctrv_dx (0 + a) 0 t = t * cos a).
  { intros a. unfold ctrv_dx. destruct (Rgt_dec (Rabs 0) yawd_guard); [contradiction|].
    rewrite Rplus_0_l. reflexivity. }
  assert (A3y : forall a, ctrv_dy (0 + a) 0 t = t * sin a).
  { intros a. unfold ctrv_dy. destruct (Rgt_dec (Rabs 0) yawd_guard); [contradiction|].
    rewrite Rplus_0_l. reflexivity. }
  assert (A4x : ctrv_dx 0 (0 + d) t = sin (d * t) / d).
  { unfold ctrv_dx. destruct (Rgt_dec (Rabs (0 + d)) yawd_guard); [|contradiction].
    rewrite sin_0. replace (0 + (0 + d) * t) with (d * t) by ring.
    rewrite Rplus_0_l. unfold Rdiv, Rminus. ring. }
  assert (A4y : ctrv_dy 0 (0 + d) t = (1 - cos (d * t)) / d).
  { unfold ctrv_dy. destruct (Rgt_dec (Rabs (0 + d)) yawd_guard); [|contradiction].
    rewrite cos_0. replace (0 + (0 + d) * t) with (d * t) by ring.
    rewrite Rplus_0_l. reflexivity. }
  assert (A5x : ctrv_dx 0 (0 + - d) t = sin (d * t) / d).
  { unfold ctrv_dx. destruct (Rgt_dec (Rabs (0 + - d)) yawd_guard); [|contradiction].
    rewrite sin_0. replace (0 + (0 + - d) * t) with (- (d * t)) by ring.
    rewrite sin_neg, Rplus_0_l. field. lra. }
  assert (A5y : ctrv_dy 0 (0 + - d) t = - ((1 - cos (d * t)) / d)).
  { unfold ctrv_dy. destruct (Rgt_dec (Rabs (0 + - d)) yawd_guard); [|contradiction].
    rewrite cos_0. replace (0 + (0 + - d) * t) with (- (d * t)) by ring.
    rewrite cos_neg, Rplus_0_l. field. lra. }
  unfold sigma_pred, sigma_pred_half, straight_points, straight_half.
  cbv beta iota zeta delta [app]. fold d.
  rewrite A0x, A0y, !A3x, !A3y, A4x, A4y, A5x, A5y, cos_0, sin_0, cos_neg, sin_neg.
  list_eq ltac:(list_eq ltac:(ring)).
Qed.

Lemma inverse_reference_diag2 (a b : R) :
  a <> 0 -> b <> 0 ->
  inverse_reference [[a; 0]; [0; b]] = [[/ a; 0]; [0; / b]].
Proof.
  pose proof yawd_guard_bounds as Hguard.
  intros Ha Hb. eval_lists.
  list_eq ltac:(list_eq ltac:(field; auto)).
Qed.

(** Row [r] of the corrected state when the innovation covariance is
    diagonal. *)
Lemma gain_row_diag2 (Tc : Matrix) (x : Vector) (s0 s1 z0 z1 : R) (r : nat) :
  dims 5 2 Tc -> length x = 5%nat -> (r < 5)%nat -> s0 <> 0 -> s1 <> 0 ->
  vget (vadd x (mat_vec (mmul Tc (inverse_reference [[s0; 0]; [0; s1]])) [z0; z1])) r
  = vget x r + mget Tc r 0 / s0 * z0 + mget Tc r 1 / s1 * z1.
Proof.
  pose proof yawd_guard_bounds as Hguard.
  intros [Hlen Hcols] Hx Hr H0 H1.
  rewrite inverse_reference_diag2 by assumption.
  destruct Tc as [|c0 [|c1 [|c2 Tc]]]; try discriminate.
  pose proof (Forall_inv Hcols) as Hc0.
  pose proof (Forall_inv (Forall_inv_tail Hcols)) as Hc1.
  cbv beta in Hc0, Hc1.
  open_list c0. open_list c1. open_list x.
  do 5 (destruct r as [|r]; [eval_lists; unfold Rdiv; ring|]). lia.
Qed.

Lemma straight_S00_pos (std v gamma t l0 l2 l3 l4 l5 : R) :
  gamma * gamma = 5 -> std <> 0 -> 0 < straight_S00 std v gamma t l0 l2 l3 l4 l5.
Proof.
  pose proof yawd_guard_bounds as Hguard.
  intros Hg Hstd. unfold straight_S00. cbv zeta. rewrite Hg.
  set (e4 := v * (t * cos (gamma * l3)) - v * t).
  set (e5 := v * (sin (gamma * l4 * t) / (gamma * l4)) - v * t).
  set (A := (gamma * l0) ^ 2 + (gamma * l2 * t) ^ 2 + (/ 2 * (gamma * l5) * t ^ 2) ^ 2).
  assert (HA : 0 <= A) by (unfold A; nra).
  assert (Hs : 0 < std * std) by nra.
  nra.
Qed.

Lemma straight_S11_pos (std v gamma t l1 l3 l4 : R) :
  gamma * gamma = 5 -> std <> 0 -> 0 < straight_S11 std v gamma t l1 l3 l4.
Proof.
  pose proof yawd_guard_bounds as Hguard.
  intros Hg Hstd. unfold straight_S11. cbv zeta. rewrite Hg.
  set (A := (gamma * l1) ^ 2 + (v * (t * sin (gamma * l3))) ^ 2
            + (v * ((1 - cos (gamma * l4 * t)) / (gamma * l4))) ^ 2).
  assert (HA : 0 <= A).
  { unfold A. repeat apply Rplus_le_le_0_compat; apply pow2_ge_0. }
  assert (Hs : 0 < std * std) by nra.
  nra.
Qed.

Section StraightLidar.

Variable u : UKF.
Variables px py v gamma t l0 l1 l2 l3 l4 l5 l6 : R.
Let w : R := / (2 * (gamma * gamma)).
Let zx : R := straight_mean_x px v gamma t l3 l4.
Hypothesis Hgamma : 0 < gamma.
Hypothesis Hd : gamma * l4 > yawd_guard.
Hypothesis Hwf : well_formed u.
Hypothesis Hw : weights_ u = (1 - 14 * w) :: repeat w 14.
Hypothesis HX : Xsig_pred_ u = straight_points px py v gamma t [l0; l1; l2; l3; l4; l5; l6].

Lemma PredictMeanAndCovariance_x_straight :
  PredictMeanAndCovariance_x u = [zx; py; v; 0; 0].
Proof.
  pose proof yawd_guard_bounds as Hguard.
  unfold PredictMeanAndCovariance_x.
  rewrite (vfill_length 5) by exact (wf_x u Hwf).
  rewrite Hw, (wf_n_aug u Hwf), HX.
  unfold straight_points, straight_half. eval_lists.
  unfold zx, straight_mean_x, w. cbv zeta. list_eq ltac:(field; repeat split; nra).
Qed.

Lemma PredictLidarMeasurement_Zsig_straight :
  PredictLidarMeasurement_Zsig u
  = map (fun c => [vget c 0; vget c 1])
      (straight_points px py v gamma t [l0; l1; l2; l3; l4; l5; l6]).
Proof.
  pose proof yawd_guard_bounds as Hguard.
  unfold PredictLidarMeasurement_Zsig, PredictLidarMeasurement_body.
  rewrite (mfill_dims 2 15) by exact (wf_Zsig_lidar u Hwf).
  rewrite HX, (wf_n_aug u Hwf).
  unfold straight_points, straight_half. eval_lists. reflexivity.
Qed.

Lemma PredictLidarMeasurement_z_pred_straight :
  PredictLidarMeasurement_z_pred u (PredictLidarMeasurement_Zsig u) = [zx; py].
Proof.
  pose proof yawd_guard_bounds as Hguard.
  rewrite PredictLidarMeasurement_Zsig_straight.
  unfold PredictLidarMeasurement_z_pred.
  rewrite (vfill_length 2) by exact (wf_z_pred_l u Hwf).
  rewrite Hw, (wf_n_aug u Hwf).
  unfold straight_points, straight_half. eval_lists.
  unfold zx, straight_mean_x, w. cbv zeta. list_eq ltac:(field; repeat split; nra).
Qed.

Lemma PredictLidarMeasurement_S_straight :
  PredictLidarMeasurement_S u (PredictLidarMeasurement_Zsig u) [zx; py]
  = [[straight_S00 (std_laspx_ u) v gamma t l0 l2 l3 l4 l5; 0];
     [0; straight_S11 (std_laspy_ u) v gamma t l1 l3 l4]].
Proof.
  pose proof yawd_guard_bounds as Hguard.
  rewrite PredictLidarMeasurement_Zsig_straight.
  unfold PredictLidarMeasurement_S.
  rewrite (mfill_dims 2 2) by exact (wf_S_l u Hwf).
  rewrite Hw, (wf_n_aug u Hwf).
  unfold straight_points, straight_half. eval_lists.
  unfold straight_S00, straight_S11, zx, straight_mean_x, w. cbv zeta.
  list_eq ltac:(list_eq ltac:(field; repeat split; nra)).
Qed.

End StraightLidar.

(** The heading row of the cross-correlation that [UpdateLidar] forms on
    the straight state: nothing against x, [straight_Tc31] against y. *)
Lemma UpdateLidar_Tc_straight (u : UKF) (px py v gamma t l0 l1 l2 l3 l4 l5 l6 : R) :
  let w := / (2 * (gamma * gamma)) in
  let zx := straight_mean_x px v gamma t l3 l4 in
  let X := straight_points px py v gamma t [l0; l1; l2; l3; l4; l5; l6] in
  gamma * l4 > yawd_guard ->
  well_formed u ->
  weights_ u = (1 - 14 * w) :: repeat w 14 ->
  Xsig_pred_ u = X ->
  Zsig_lidar u = map (fun c => [vget c 0; vget c 1]) X ->
  z_pred_l_ u = [zx; py] ->
  x_ u = [zx; py; v; 0; 0] ->
  dims 5 2 (UpdateLidar_Tc u)
  /\ mget (UpdateLidar_Tc u) 3 0 = 0
  /\ mget (UpdateLidar_Tc u) 3 1 = straight_Tc31 v gamma t l3 l4.
Proof.
  pose proof yawd_guard_bounds as Hguard.
  intros w zx X Hd Hwf Hw HX HZ Hz Hx.
  unfold UpdateLidar_Tc.
  rewrite Hw, (wf_n_aug u Hwf), (wf_n_x u Hwf), (wf_n_z_lidar u Hwf), HX, HZ, Hz, Hx.
  unfold X, straight_points, straight_half. eval_lists.
  split; [apply dims_explicit; reflexivity|].
  split; [ring|]. unfold straight_Tc31, zx, straight_mean_x, w. cbv zeta. field. repeat split; nra.
Qed.

Section StraightCycle.

Variable u : UKF.
Variables px py v t d0 d1 d2 d3 d4 z0 z1 : R.
Variable m : MeasurementPackage.

Hypothesis Hc : configured u.
Hypothesis Hx : x_ u = [px; py; v; 0; 0].
Hypothesis HP : P_ u = diag [d0; d1; d2; d3; d4].
Hypothesis Hd0 : 0 < d0.
Hypothesis Hd1 : 0 < d1.
Hypothesis Hd2 : 0 < d2.
Hypothesis Hd3 : 0 < d3.
Hypothesis Hd4 : 0 < d4.
Hypothesis Hyawd : sqrt 5 * sqrt d4 > yawd_guard.
Hypothesis Hm : sensor_type_ m = LASER.
Hypothesis Hraw : raw_measurements_ m = [z0; z1].
Hypothesis Hlx : std_laspx_ u <> 0.
Hypothesis Hly : std_laspy_ u <> 0.

(** The heading after one lidar cycle from a state that moves along x with
    a diagonal covariance: the gain on the y innovation has no reason to
    keep it in any interval. *)
Lemma straight_cycle_heading :
  vget (x_ (Update eigen_reference (Prediction eigen_reference u t) m)) 3
  = straight_Tc31 v (sqrt 5) t (sqrt d3) (sqrt d4)
    / straight_S11 (std_laspy_ u) v (sqrt 5) t (sqrt d1) (sqrt d3) (sqrt d4)
    * (z1 - py).
Proof.
  pose proof yawd_guard_bounds as Hguard.
  destruct (configured_weights u Hc) as [Hlam Hw].
  pose proof (sqrt_lt_R0 5 ltac:(lra)) as Hg.
  assert (Hgg : sqrt 5 * sqrt 5 = 5) by (apply sqrt_sqrt; lra).
  assert (HL : matrixL (llt eigen_reference (augmented_covariance u))
               = diag [sqrt d0; sqrt d1; sqrt d2; sqrt d3; sqrt d4;
                       sqrt (1.5 * 1.5); sqrt (2.0 * 2.0)]).
  { rewrite (augmented_covariance_diag u d0 d1 d2 d3 d4 Hc HP).
    cbn [llt eigen_reference]. rewrite llt_reference_diag7 by lra. reflexivity. }
  pose proof (SigmaPointPrediction_wf eigen_reference u px py v 0 0 (sqrt 5) _ _ _ _ _ _ _
                (cf_wf u Hc) Hx Hg Hlam HL t) as Hwf2.
  destruct (u2_fields eigen_reference u px py v 0 0 (sqrt 5) _ _ _ _ _ _ _
              (cf_wf u Hc) Hx Hg Hlam HL Hw t) as (Hw2 & _ & _ & HX2).
  destruct (Prediction_diag eigen_reference u px py v 0 0 (sqrt 5) _ _ _ _ _ _ _
              (cf_wf u Hc) Hx Hg Hlam HL Hw t)
    as (mx & my & _ & _ & _ & _ & Hw3 & HX3 & Hwf3).
  rewrite sigma_pred_straight in HX2, HX3 by exact Hyawd.
  set (u2 := SigmaPointPrediction (GenerateAugmentedSigmaPoints eigen_reference u) t) in *.
  set (u3 := Prediction eigen_reference u t) in *.
  assert (Hmean : x_ u3 = PredictMeanAndCovariance_x u2) by reflexivity.
  rewrite (PredictMeanAndCovariance_x_straight u2 px py v (sqrt 5) t _ _ _ _ _ _ _
             Hg Hyawd Hwf2 Hw2 HX2) in Hmean.
  unfold Update. rewrite Hm.
  set (u4 := PredictLidarMeasurement u3).
  pose proof (PredictLidarMeasurement_z_pred_straight u3 px py v (sqrt 5) t _ _ _ _ _ _ _
                Hg Hyawd Hwf3 Hw3 HX3) as Hz.
  assert (Hz4 : z_pred_l_ u4
                = PredictLidarMeasurement_z_pred u3 (PredictLidarMeasurement_Zsig u3))
    by reflexivity.
  rewrite Hz in Hz4.
  assert (HS4 : S_l_ u4
                = PredictLidarMeasurement_S u3 (PredictLidarMeasurement_Zsig u3)
                    (PredictLidarMeasurement_z_pred u3 (PredictLidarMeasurement_Zsig u3)))
    by reflexivity.
  rewrite Hz in HS4.
  rewrite (PredictLidarMeasurement_S_straight u3 px py v (sqrt 5) t _ _ _ _ _ _ _
             Hg Hyawd Hwf3 Hw3 HX3) in HS4.
  change (std_laspx_ u3) with (std_laspx_ u) in HS4.
  change (std_laspy_ u3) with (std_laspy_ u) in HS4.
  assert (HZ4 : Zsig_lidar u4 = PredictLidarMeasurement_Zsig u3) by reflexivity.
  rewrite (PredictLidarMeasurement_Zsig_straight u3 px py v (sqrt 5) t _ _ _ _ _ _ _
             Hwf3 HX3) in HZ4.
  assert (Hwf4 : well_formed u4).
  { destruct Hwf3. constructor; try assumption.
    - change (dims 2 15 (Zsig_lidar u4)). rewrite HZ4. apply dims_explicit; reflexivity.
    - change (length (z_pred_l_ u4) = 2%nat). rewrite Hz4. reflexivity.
    - change (dims 2 2 (S_l_ u4)). rewrite HS4. apply dims_explicit; reflexivity. }
  destruct (UpdateLidar_Tc_straight u4 px py v (sqrt 5) t _ _ _ _ _ _ _ Hyawd Hwf4
              Hw3 HX3 HZ4 Hz4 Hmean) as (HTd & HT0 & HT1).
  unfold UpdateLidar. cbv zeta. cbn [x_ set_x_ set_P_ inverse eigen_reference].
  rewrite HS4, Hraw, Hz4. cbn [vget nth vsub map2].
  change (x_ u4) with (x_ u3).
  rewrite gain_row_diag2.
  - rewrite HT0, HT1, Hmean. cbn [vget nth]. unfold Rdiv. ring.
  - exact HTd.
  - rewrite Hmean. reflexivity.
  - lia.
  - apply Rgt_not_eq, Rlt_gt, straight_S00_pos; [exact Hgg | exact Hlx].
  - apply Rgt_not_eq, Rlt_gt, straight_S11_pos; [exact Hgg | exact Hly].
Qed.

End StraightCycle.

(* ================================================================== *)
(** * A radar cycle at no elapsed time from a state at rest *)

Lemma ctrv_dx_still (yaw yawd : R) : ctrv_dx yaw yawd 0 = 0.
Proof.
  pose proof yawd_guard_bounds as Hguard.
  unfold ctrv_dx. destruct (Rgt_dec (Rabs yawd) yawd_guard) as [_|_]; [|ring].
  rewrite Rmult_0_r, Rplus_0_r. unfold Rdiv. ring.
Qed.

Lemma ctrv_dy_still (yaw yawd : R) : ctrv_dy yaw yawd 0 = 0.
Proof.
  pose proof yawd_guard_bounds as Hguard.
  unfold ctrv_dy. destruct (Rgt_dec (Rabs yawd) yawd_guard) as [_|_]; [|ring].
  rewrite Rmult_0_r, Rplus_0_r. unfold Rdiv. ring.
Qed.

Lemma sigma_pred_still (px py gamma : R) (l : list R) :
  sigma_pred px py 0 0 0 gamma 0 l = still_points px py gamma l.
Proof.
  unfold sigma_pred, sigma_pred_half, still_points, still_half.
  cbv beta iota zeta delta [app]. rewrite !ctrv_dx_still, !ctrv_dy_still.
  list_eq ltac:(list_eq ltac:(ring)).
Qed.

Lemma radar_point_ahead (x y v h yd : R) :
  0 < x ->
  radar_point [x; y; v; h; yd]
  = [sqrt (x * x + y * y); atan (y / x);
     (x * (cos h * v) + y * (sin h * v)) / sqrt (x * x + y * y)].
Proof.
  intros Hx. unfold radar_point, atan2. cbn [vget nth].
  destruct (Rlt_dec 0 x) as [_|Hn]; [reflexivity | contradiction].
Qed.

Lemma radar_point_on_axis (x v h yd : R) :
  0 < x -> radar_point [x; 0; v; h; yd] = [x; 0; cos h * v].
Proof.
  intros Hx. rewrite radar_point_ahead by exact Hx.
  replace (x * x + 0 * 0) with (x * x) by ring. rewrite sqrt_square by lra.
  replace (0 / x) with 0 by (unfold Rdiv; ring). rewrite atan_0.
  apply f_equal2; [reflexivity|]. apply f_equal2; [reflexivity|].
  apply f_equal2; [|reflexivity]. field. lra.
Qed.

Lemma inverse_reference_diag3 (a b c : R) :
  a <> 0 -> b <> 0 -> c <> 0 ->
  inverse_reference (diag [a; b; c]) = diag [/ a; / b; / c].
Proof.
  intros Ha Hb Hc. eval_lists.
  list_eq ltac:(list_eq ltac:(field; auto)).
Qed.

Section StillRadar.

Variable u : UKF.
Variables p gamma l0 l1 l2 l3 l4 l5 l6 : R.
Let w : R := / (2 * (gamma * gamma)).
Let rho2 : R := sqrt (p * p + gamma * l1 * (gamma * l1)).
Let theta : R := atan (gamma * l1 / p).
Hypothesis Hgamma : 0 < gamma.
Hypothesis Hwf : well_formed u.
Hypothesis Hw : weights_ u = (1 - 14 * w) :: repeat w 14.
Hypothesis HX : Xsig_pred_ u = still_points p 0 gamma [l0; l1; l2; l3; l4; l5; l6].
Hypothesis Hl0 : 0 < gamma * l0 < p.
Hypothesis Hl3 : - PI <= gamma * l3 <= PI.

Lemma PredictMeanAndCovariance_P_still :
  PredictMeanAndCovariance_P u [p; 0; 0; 0; 0]
  = diag [l0 * l0; l1 * l1; l2 * l2; l3 * l3; l4 * l4].
Proof.
  pose proof PI_RGT_0 as Hpi.
  unfold PredictMeanAndCovariance_P. rewrite Hw, (wf_n_aug u Hwf), HX.
  rewrite (mfill_dims 5 5) by exact (wf_P u Hwf).
  unfold still_points, still_half, normalize_at. eval_lists.
  replace (0 - 0) with 0 by ring.
  replace (gamma * l3 - 0) with (gamma * l3) by ring.
  replace (- (gamma * l3) - 0) with (- (gamma * l3)) by ring.
  rewrite !angle_normalization_id by lra.
  unfold w.
  list_eq ltac:(list_eq ltac:(field; lra)).
Qed.

Lemma PredictRadarMeasurement_Zsig_still :
  PredictRadarMeasurement_Zsig u = still_radar p gamma l0 l1 l2.
Proof.
  rewrite PredictRadarMeasurement_Zsig_columns by exact Hwf. rewrite HX.
  unfold still_points, still_half, still_radar, still_radar_half.
  cbv beta iota zeta delta [map seq app nth col].
  rewrite !radar_point_on_axis by lra.
  rewrite !radar_point_ahead by lra.
  rewrite cos_0, sin_0.
  replace (0 + gamma * l1) with (gamma * l1) by ring.
  replace (0 + - (gamma * l1)) with (- (gamma * l1)) by ring.
  replace (- (gamma * l1) / p) with (- (gamma * l1 / p)) by (field; lra).
  rewrite atan_opp.
  replace (p * p + - (gamma * l1) * - (gamma * l1))
    with (p * p + gamma * l1 * (gamma * l1)) by ring.
  list_eq ltac:(list_eq ltac:(first [reflexivity | unfold Rdiv; ring])).
Qed.

Lemma PredictRadarMeasurement_z_pred_still :
  PredictRadarMeasurement_z_pred u (still_radar p gamma l0 l1 l2)
  = [p + 2 * w * (rho2 - p); 0; 0].
Proof.
  unfold PredictRadarMeasurement_z_pred.
  rewrite (vfill_length 3) by exact (wf_z_pred_r u Hwf).
  rewrite Hw, (wf_n_aug u Hwf).
  unfold still_radar, still_radar_half. eval_lists.
  fold rho2 theta.
  list_eq ltac:(ring).
Qed.

Lemma PredictRadarMeasurement_S_still :
  PredictRadarMeasurement_S u (still_radar p gamma l0 l1 l2)
    [p + 2 * w * (rho2 - p); 0; 0]
  = diag [l0 * l0 + 2 * w * (1 - 2 * w) * (rho2 - p) ^ 2 + std_radr_ u * std_radr_ u;
          2 * w * theta ^ 2 + std_radphi_ u * std_radphi_ u;
          l2 * l2 + std_radrd_ u * std_radrd_ u].
Proof.
  pose proof PI_RGT_0 as Hpi.
  pose proof (atan_bound (gamma * l1 / p)) as Hth. fold theta in Hth.
  unfold PredictRadarMeasurement_S.
  rewrite (mfill_dims 3 3) by exact (wf_S_r u Hwf).
  rewrite Hw, (wf_n_aug u Hwf).
  unfold still_radar, still_radar_half, normalize_at. eval_lists.
  fold rho2 theta.
  replace (0 - 0) with 0 by ring.
  replace (theta - 0) with theta by ring.
  replace (- theta - 0) with (- theta) by ring.
  rewrite !angle_normalization_id by lra.
  unfold w.
  list_eq ltac:(list_eq ltac:(field; lra)).
Qed.

Section Update.

Variables zr s0 s1 s2 : R.
Hypothesis HZ : Zsig_radar u = still_radar p gamma l0 l1 l2.
Hypothesis Hz : z_pred_r_ u = [zr; 0; 0].
Hypothesis Hx : x_ u = [p; 0; 0; 0; 0].
Hypothesis HP : P_ u = diag [l0 * l0; l1 * l1; l2 * l2; l3 * l3; l4 * l4].
Hypothesis HS : S_r_ u = diag [s0; s1; s2].
Hypothesis Hs0 : s0 <> 0.
Hypothesis Hs1 : s1 <> 0.
Hypothesis Hs2 : s2 <> 0.

Lemma UpdateRadar_Tc_still :
  UpdateRadar_Tc u
  = [[l0 * l0; 0; 0; 0; 0]; [0; 2 * w * (gamma * l1) * theta; 0; 0; 0]; [0; 0; l2 * l2; 0; 0]].
Proof.
  pose proof PI_RGT_0 as Hpi.
  pose proof (atan_bound (gamma * l1 / p)) as Hth. fold theta in Hth.
  unfold UpdateRadar_Tc.
  rewrite Hw, (wf_n_aug u Hwf), (wf_n_x u Hwf), (wf_n_z_radar u Hwf), HX, HZ, Hz, Hx.
  unfold still_points, still_half, still_radar, still_radar_half, normalize_at. eval_lists.
  fold theta.
  replace (0 - 0) with 0 by ring.
  replace (theta - 0) with theta by ring.
  replace (- theta - 0) with (- theta) by ring.
  replace (gamma * l3 - 0) with (gamma * l3) by ring.
  replace (- (gamma * l3) - 0) with (- (gamma * l3)) by ring.
  rewrite !angle_normalization_id by lra.
  unfold w.
  list_eq ltac:(list_eq ltac:(field; lra)).
Qed.

Lemma UpdateRadar_still (m : MeasurementPackage) (rho phi rho_dot : R) :
  raw_measurements_ m = [rho; phi; rho_dot] ->
  - PI <= phi <= PI ->
  let u' := UpdateRadar eigen_reference u m in
  x_ u' = [p + l0 * l0 / s0 * (rho - zr);
           2 * w * (gamma * l1) * theta / s1 * phi;
           l2 * l2 / s2 * rho_dot; 0; 0]
  /\ P_ u' = diag [l0 * l0 - (l0 * l0) ^ 2 / s0;
                   l1 * l1 - (2 * w * (gamma * l1) * theta) ^ 2 / s1;
                   l2 * l2 - (l2 * l2) ^ 2 / s2;
                   l3 * l3; l4 * l4].
Proof.
  intros Hraw Hphi.
  unfold UpdateRadar. cbv zeta. cbn [x_ P_ set_x_ set_P_ inverse eigen_reference].
  rewrite UpdateRadar_Tc_still, HS, inverse_reference_diag3, Hraw, Hz, Hx, HP by assumption.
  unfold normalize_at. eval_lists.
  replace (phi - 0) with phi by ring.
  rewrite angle_normalization_id by exact Hphi.
  split.
  - list_eq ltac:(unfold Rdiv; ring).
  - list_eq ltac:(list_eq ltac:(field; auto)).
Qed.

End Update.

End StillRadar.


Section StillCycle.

Variable u : UKF.
Variables p d0 d1 d2 d3 d4 rho phi rho_dot : R.
Variable m : MeasurementPackage.

Hypothesis Hc : configured u.
Hypothesis Hx : x_ u = [p; 0; 0; 0; 0].
Hypothesis HP : P_ u = diag [d0; d1; d2; d3; d4].
Hypothesis Hd0 : 0 < d0.
Hypothesis Hd1 : 0 < d1.
Hypothesis Hd2 : 0 < d2.
Hypothesis Hd3 : 0 < d3.
Hypothesis Hd4 : 0 < d4.
Hypothesis Hahead : sqrt 5 * sqrt d0 < p.
Hypothesis Hspread : sqrt 5 * sqrt d3 <= PI.
Hypothesis Hm : sensor_type_ m = RADAR.
Hypothesis Hraw : raw_measurements_ m = [rho; phi; rho_dot].
Hypothesis Hphi : - PI <= phi <= PI.
Hypothesis Hr : std_radr_ u <> 0.
Hypothesis Hrphi : std_radphi_ u <> 0.
Hypothesis Hrd : std_radrd_ u <> 0.

(** A radar cycle at no elapsed time from a state at rest on the x axis:
    the speed becomes the measured range rate scaled by
    d2 / (d2 + std_radrd^2), heading and yaw rate stay zero and the
    covariance stays diagonal and positive. *)
Lemma still_radar_cycle :
  let u' := Update eigen_reference (Prediction eigen_reference u 0) m in
  exists px' k D0 D1 D2,
    x_ u' = [px'; k * phi; d2 / (d2 + std_radrd_ u * std_radrd_ u) * rho_dot; 0; 0]
    /\ P_ u' = diag [D0; D1; D2; d3; d4]
    /\ 0 < D0 /\ 0 < D1 <= d1 /\ 0 < D2
    /\ configured u'.
Proof.
  destruct (configured_weights u Hc) as [Hlam Hw].
  pose proof (sqrt_lt_R0 5 ltac:(lra)) as Hg.
  assert (Hgg : sqrt 5 * sqrt 5 = 5) by (apply sqrt_sqrt; lra).
  pose proof (sqrt_lt_R0 d0 Hd0) as Hl0. pose proof (sqrt_lt_R0 d1 Hd1) as Hl1.
  pose proof (sqrt_lt_R0 d3 Hd3) as Hl3.
  pose proof PI_RGT_0 as Hpi.
  assert (HL : matrixL (llt eigen_reference (augmented_covariance u))
               = diag [sqrt d0; sqrt d1; sqrt d2; sqrt d3; sqrt d4;
                       sqrt (1.5 * 1.5); sqrt (2.0 * 2.0)]).
  { rewrite (augmented_covariance_diag u d0 d1 d2 d3 d4 Hc HP).
    cbn [llt eigen_reference]. rewrite llt_reference_diag7 by lra. reflexivity. }
  pose proof (SigmaPointPrediction_wf eigen_reference u p 0 0 0 0 (sqrt 5) _ _ _ _ _ _ _
                (cf_wf u Hc) Hx Hg Hlam HL 0) as Hwf2.
  destruct (u2_fields eigen_reference u p 0 0 0 0 (sqrt 5) _ _ _ _ _ _ _
              (cf_wf u Hc) Hx Hg Hlam HL Hw 0) as (Hw2 & _ & _ & HX2).
  destruct (Prediction_diag eigen_reference u p 0 0 0 0 (sqrt 5) _ _ _ _ _ _ _
              (cf_wf u Hc) Hx Hg Hlam HL Hw 0)
    as (mx & my & Hx3 & Hrest & _ & _ & Hw3 & HX3 & Hwf3).
  destruct (Hrest eq_refl) as [-> ->].
  replace (0 + 0 * 0) with 0 in Hx3 by ring.
  rewrite sigma_pred_still in HX2, HX3.
  set (u2 := SigmaPointPrediction (GenerateAugmentedSigmaPoints eigen_reference u) 0) in *.
  set (u3 := Prediction eigen_reference u 0) in *.
  assert (Hgl0 : 0 < sqrt 5 * sqrt d0 < p) by (split; [nra | lra]).
  assert (Hgl3 : - PI <= sqrt 5 * sqrt d3 <= PI) by (split; [nra | lra]).
  assert (HP3 : P_ u3 = PredictMeanAndCovariance_P u2 (x_ u3)) by reflexivity.
  rewrite Hx3 in HP3.
  rewrite (PredictMeanAndCovariance_P_still u2 p (sqrt 5) _ _ _ _ _ _ _
             Hg Hwf2 Hw2 HX2 Hgl3) in HP3.
  unfold Update. rewrite Hm.
  set (u4 := PredictRadarMeasurement u3).
  pose proof (PredictRadarMeasurement_Zsig_still u3 p (sqrt 5) _ _ _ _ _ _ _
                Hwf3 HX3 Hgl0) as HZ.
  assert (HZ4 : Zsig_radar u4 = PredictRadarMeasurement_Zsig u3) by reflexivity.
  assert (Hz4 : z_pred_r_ u4
                = PredictRadarMeasurement_z_pred u3 (PredictRadarMeasurement_Zsig u3))
    by reflexivity.
  assert (HS4 : S_r_ u4
                = PredictRadarMeasurement_S u3 (PredictRadarMeasurement_Zsig u3)
                    (PredictRadarMeasurement_z_pred u3 (PredictRadarMeasurement_Zsig u3)))
    by reflexivity.
  rewrite HZ in HZ4, Hz4, HS4.
  rewrite (PredictRadarMeasurement_z_pred_still u3 p (sqrt 5) _ _ _ Hwf3 Hw3) in Hz4, HS4.
  rewrite (PredictRadarMeasurement_S_still u3 p (sqrt 5) _ _ _ Hg Hwf3 Hw3) in HS4.
  change (std_radr_ u3) with (std_radr_ u) in HS4.
  change (std_radphi_ u3) with (std_radphi_ u) in HS4.
  change (std_radrd_ u3) with (std_radrd_ u) in HS4.
  rewrite Hgg, !sqrt_sqrt in HS4 by lra. rewrite Hgg in Hz4.
  rewrite !sqrt_sqrt in HP3 by lra.
  set (theta := atan (sqrt 5 * sqrt d1 / p)) in *.
  set (eps := sqrt (p * p + sqrt 5 * sqrt d1 * (sqrt 5 * sqrt d1)) - p) in *.
  set (zr := p + 2 * / (2 * 5) * eps) in *.
  set (s0 := d0 + 2 * / (2 * 5) * (1 - 2 * / (2 * 5)) * eps ^ 2
             + std_radr_ u * std_radr_ u) in *.
  set (s1 := 2 * / (2 * 5) * theta ^ 2 + std_radphi_ u * std_radphi_ u) in *.
  set (s2 := d2 + std_radrd_ u * std_radrd_ u) in *.
  assert (Hrr : 0 < std_radr_ u * std_radr_ u) by nra.
  assert (Hrpp : 0 < std_radphi_ u * std_radphi_ u) by nra.
  assert (Hrdd : 0 < std_radrd_ u * std_radrd_ u) by nra.
  assert (Hs0 : d0 < s0) by (unfold s0; nra).
  assert (Hs1 : 0 < s1) by (unfold s1; nra).
  assert (Hs2 : d2 < s2) by (unfold s2; lra).
  assert (Hwf4 : well_formed u4).
  { destruct Hwf3. constructor; try assumption.
    - change (length (z_pred_r_ u4) = 3%nat). rewrite Hz4. reflexivity.
    - change (dims 3 3 (S_r_ u4)). rewrite HS4. apply dims_explicit; reflexivity.
    - change (dims 3 15 (Zsig_radar u4)). rewrite HZ4. apply dims_explicit; reflexivity. }
  destruct (UpdateRadar_still u4 p (sqrt 5) (sqrt d0) (sqrt d1) (sqrt d2) (sqrt d3)
              (sqrt d4) _ _ Hg Hwf4 Hw3 HX3 Hgl3 zr s0 s1 s2 HZ4 Hz4 Hx3
              ltac:(rewrite !sqrt_sqrt by lra; exact HP3) HS4
              ltac:(lra) ltac:(lra) ltac:(lra) m rho phi rho_dot Hraw Hphi)
    as [Hx' HP'].
  rewrite Hgg in Hx', HP'.
  rewrite (sqrt_sqrt d0), (sqrt_sqrt d2) in Hx' by lra.
  rewrite (sqrt_sqrt d0), (sqrt_sqrt d1), (sqrt_sqrt d2), (sqrt_sqrt d3), (sqrt_sqrt d4)
    in HP' by lra.
  fold theta in Hx', HP'.
  set (u' := UpdateRadar eigen_reference u4 m) in *.
  set (tau := 2 * / (2 * 5) * (sqrt 5 * sqrt d1) * theta) in *.
  assert (Htau : tau ^ 2 = d1 * (theta ^ 2 / 5)).
  { unfold tau. replace ((2 * / (2 * 5) * (sqrt 5 * sqrt d1) * theta) ^ 2)
      with ((sqrt 5 * sqrt 5) * (sqrt d1 * sqrt d1) * (theta ^ 2 / 25)) by field.
    rewrite Hgg, sqrt_sqrt by lra. field. }
  exists (p + d0 / s0 * (rho - zr)), (tau / s1),
    (d0 - d0 ^ 2 / s0), (d1 - tau ^ 2 / s1), (d2 - d2 ^ 2 / s2).
  split; [exact Hx'|]. split; [exact HP'|].
  split.
  { replace (d0 - d0 ^ 2 / s0) with (d0 * ((s0 - d0) / s0)) by (field; lra).
    apply Rmult_lt_0_compat; [exact Hd0|]. apply Rdiv_lt_0_compat; lra. }
  split.
  { rewrite Htau.
    replace (d1 - d1 * (theta ^ 2 / 5) / s1)
      with (d1 * ((s1 - theta ^ 2 / 5) / s1)) by (field; lra).
    replace (s1 - theta ^ 2 / 5) with (std_radphi_ u * std_radphi_ u)
      by (unfold s1; field).
    assert (Hq : 0 < std_radphi_ u * std_radphi_ u / s1 <= 1).
    { split; [apply Rdiv_lt_0_compat; lra|].
      apply (Rmult_le_reg_r s1); [exact Hs1|].
      unfold Rdiv. rewrite Rmult_assoc, Rinv_l by lra.
      pose proof (pow2_ge_0 theta). unfold s1. lra. }
    split; nra. }
  split.
  { replace (d2 - d2 ^ 2 / s2) with (d2 * ((s2 - d2) / s2)) by (field; lra).
    apply Rmult_lt_0_compat; [exact Hd2|]. apply Rdiv_lt_0_compat; lra. }
  constructor.
  - destruct Hwf4. constructor; try assumption.
    + change (length (x_ u') = 5%nat). rewrite Hx'. reflexivity.
    + change (dims 5 5 (P_ u')). rewrite HP'. apply dims_explicit; reflexivity.
  - exact (cf_std_a u Hc).
  - exact (cf_std_yawdd u Hc).
  - exact (cf_lambda u Hc).
  - exact (cf_weights u Hc).
Qed.

End StillCycle.

Lemma spread_half : 1.58 < sqrt 5 * sqrt 0.5 < 1.59.
Proof.
  rewrite <- sqrt_mult by lra. split.
  - rewrite <- (sqrt_square 1.58) by lra. apply sqrt_lt_1; lra.
  - rewrite <- (sqrt_square 1.59) at 1 by lra. apply sqrt_lt_1; lra.
Qed.

Lemma swerve_radar_cycle :
  let u2 := ProcessMeasurement eigen_reference
              (ProcessMeasurement eigen_reference UKF_new first_return) radar_return in
  exists px' D0 D1 D2,
    x_ u2 = [px'; 0; 1; 0; 0]
    /\ P_ u2 = diag [D0; D1; D2; 0.5; 0.5]
    /\ 0 < D0 /\ 0 < D1 <= 1 /\ 0 < D2
    /\ configured u2
    /\ is_initialized_ u2 = true /\ time_us_ u2 = 1000000%Z
    /\ std_laspx_ u2 = 0.15 /\ std_laspy_ u2 = 0.15.
Proof.
  pose proof PI2_3_2 as Hpi_lo. pose proof PI_4 as Hpi_hi.
  pose proof spread_half as Hq.
  assert (Hs5 : 2 < sqrt 5 < 3).
  { split.
    - rewrite <- (sqrt_square 2) by lra. apply sqrt_lt_1; lra.
    - rewrite <- (sqrt_square 3) at 1 by lra. apply sqrt_lt_1; lra. }
  rewrite (ProcessMeasurement_first _ UKF_new first_return eq_refl).
  set (u1 := InitializeUKF UKF_new first_return).
  rewrite ProcessMeasurement_initialized by reflexivity.
  replace (elapsed_seconds u1 radar_return) with 0
    by (change (0 = IZR 0 / 1000000.0); unfold Rdiv; ring).
  assert (Hc1 : configured (set_time_us_ (timestamp_ radar_return) u1))
    by apply configured_set_time_us_, configured_InitializeUKF.
  destruct (still_radar_cycle (set_time_us_ (timestamp_ radar_return) u1) 10 1 1 1 0.5 0.5
              10 0 1.09 radar_return Hc1 eq_refl eq_refl
              ltac:(lra) ltac:(lra) ltac:(lra) ltac:(lra) ltac:(lra)
              ltac:(rewrite sqrt_1; lra) ltac:(lra)
              eq_refl eq_refl ltac:(lra)
              ltac:(change (0.3 <> 0); lra) ltac:(change (0.03 <> 0); lra)
              ltac:(change (0.3 <> 0); lra))
    as (px' & k & D0 & D1 & D2 & Hx2 & HP2 & HD0 & HD1 & HD2 & Hc2).
  destruct (Update_initialized eigen_reference (set_time_us_ (timestamp_ radar_return) u1) 0 radar_return)
    as (Hi2 & Ht2 & Hlx2 & Hly2).
  change (std_radrd_ (set_time_us_ (timestamp_ radar_return) u1)) with 0.3 in Hx2.
  replace (k * 0) with 0 in Hx2 by ring.
  replace (1 / (1 + 0.3 * 0.3) * 1.09) with 1 in Hx2 by lra.
  cbv zeta. exists px', D0, D1, D2.
  split; [exact Hx2|]. split; [exact HP2|]. split; [exact HD0|]. split; [exact HD1|].
  split; [exact HD2|]. split; [exact Hc2|]. split; [exact Hi2|]. split; [exact Ht2|].
  split; [exact Hlx2 | exact Hly2].
Qed.

Lemma heading_gain (u2 : UKF) (px' D0 D1 D2 : R) :
  x_ u2 = [px'; 0; 1; 0; 0] ->
  P_ u2 = diag [D0; D1; D2; 0.5; 0.5] ->
  0 < D0 -> 0 < D1 <= 1 -> 0 < D2 ->
  configured u2 ->
  is_initialized_ u2 = true -> time_us_ u2 = 1000000%Z ->
  std_laspx_ u2 = 0.15 -> std_laspy_ u2 = 0.15 ->
  exists g, 0.15 <= g
    /\ forall z0 z1 : R,
         vget (x_ (ProcessMeasurement eigen_reference u2
                     (mkMeas 2500000 LASER [z0; z1]))) 3
         = g * z1.
Proof.
  intros Hx2 HP2 HD0 HD1 HD2 Hc2 Hi2 Ht2 Hlx2 Hly2.
  pose proof PI2_3_2 as Hpi_lo. pose proof PI_4 as Hpi_hi.
  pose proof spread_half as Hq.
  exists (straight_Tc31 1 (sqrt 5) 1.5 (sqrt 0.5) (sqrt 0.5)
          / straight_S11 0.15 1 (sqrt 5) 1.5 (sqrt D1) (sqrt 0.5) (sqrt 0.5)).
  split.
  - unfold straight_Tc31, straight_S11. cbv zeta.
    rewrite (sqrt_sqrt 5) by lra.
    set (q := sqrt 5 * sqrt 0.5) in *.
    assert (Hsin : 0 <= sin q <= 1).
    { split; [apply sin_ge_0; lra|]. apply SIN_bound. }
    assert (Hcos : -1 <= cos (q * 1.5) <= 0).
    { split; [apply COS_bound|]. apply cos_le_0; lra. }
    set (sq := sin q) in *. set (cq := cos (q * 1.5)) in *.
    assert (HD : 0 <= (sqrt 5 * sqrt D1) ^ 2 <= 5).
    { replace ((sqrt 5 * sqrt D1) ^ 2) with ((sqrt 5 * sqrt 5) * (sqrt D1 * sqrt D1))
        by ring.
      rewrite !sqrt_sqrt by lra. lra. }
    set (A := (sqrt 5 * sqrt D1) ^ 2) in *.
    set (r := (1 - cq) / q).
    assert (Hr : 0 <= r <= 1.27).
    { unfold r. split.
      - apply Rmult_le_pos; [lra|]. apply Rlt_le, Rinv_0_lt_compat. lra.
      - apply (Rmult_le_reg_r q); [lra|].
        unfold Rdiv. rewrite Rmult_assoc, Rinv_l by lra. nra. }
    set (T := 2 * / (2 * 5) * 1 * 1.5 * (q * sq + (1 - cq))).
    set (S11 := 2 * / (2 * 5) * (A + (1 * (1.5 * sq)) ^ 2 + (1 * r) ^ 2) + 0.15 * 0.15).
    assert (HT : 0.3 <= T) by (unfold T; nra).
    assert (HS : 0 < S11 < 2) by (unfold S11; split; nra).
    apply (Rmult_le_reg_r S11); [lra|].
    unfold Rdiv. rewrite Rmult_assoc, Rinv_l by lra. nra.
  - intros z0 z1. set (m2 := mkMeas 2500000 LASER [z0; z1]).
    rewrite ProcessMeasurement_initialized by exact Hi2.
    replace (elapsed_seconds u2 m2) with 1.5
      by (unfold elapsed_seconds; rewrite Ht2;
          change (1.5 = IZR 1500000 / 1000000.0); lra).
    rewrite (straight_cycle_heading (set_time_us_ (timestamp_ m2) u2)
               px' 0 1 1.5 D0 D1 D2 0.5 0.5 z0 z1 m2
               (configured_set_time_us_ u2 _ Hc2) Hx2 HP2 HD0 (proj1 HD1) HD2
               ltac:(lra) ltac:(lra) ltac:(pose proof yawd_guard_bounds; lra)
               eq_refl eq_refl
               ltac:(change (std_laspx_ u2 <> 0); lra)
               ltac:(change (std_laspy_ u2 <> 0); lra)).
    change (std_laspy_ (set_time_us_ (timestamp_ m2) u2)) with (std_laspy_ u2).
    rewrite Hly2. ring.
Qed.

Lemma heading_follows_offset :
  exists g, 0.15 <= g
    /\ forall z0 z1 : R,
         vget (x_ (ProcessMeasurement eigen_reference
                     (ProcessMeasurement eigen_reference
                        (ProcessMeasurement eigen_reference UKF_new first_return)
                        radar_return)
                     (mkMeas 2500000 LASER [z0; z1]))) 3
         = g * z1.
Proof.
  destruct swerve_radar_cycle
    as (px' & D0 & D1 & D2 & Hx & HP & H0 & H1 & H2 & Hc & Hi & Ht & Hlx & Hly).
  set (u2 := ProcessMeasurement eigen_reference
               (ProcessMeasurement eigen_reference UKF_new first_return) radar_return)
    in *.
  clearbody u2.
  exact (heading_gain u2 px' D0 D1 D2 Hx HP H0 H1 H2 Hc Hi Ht Hlx Hly).
Qed.

(* ================================================================== *)
(** * Invariants of [ProcessMeasurement] *)

(** X1.  Every call of [ProcessMeasurement] keeps the sizes the
    constructor gave the members: on a filter whose vectors and matrices
    have those sizes, with an LLT factor and an inverse of the size of their
    argument, the filter it returns has them too, for either sensor and
    whether or not the filter was initialised. *)
Theorem X1_sizes_are_kept (E : EigenOps) (u : UKF) (m : MeasurementPackage) :
  well_shaped E -> well_formed u -> well_formed (ProcessMeasurement E u m).
Proof. intros HE Hwf. apply ProcessMeasurement_shaped; assumption. Qed.

Lemma X1_sizes_are_kept_witness :
  well_formed
    (ProcessMeasurement eigen_reference tracked (mkMeas 2000000 RADAR [2.0; 1.0; 0.5])).
Proof.
  exact (X1_sizes_are_kept eigen_reference tracked (mkMeas 2000000 RADAR [2.0; 1.0; 0.5])
           eigen_reference_shaped (cf_wf tracked configured_tracked)).
Defined.

(** X5.  [ProcessMeasurement] never writes the noise parameters, the
    spreading parameter, the dimensions or the two flags, and once the
    filter is initialised it never writes the weights again. *)
Theorem X5_parameters_are_never_written (E : EigenOps) (u : UKF)
    (m : MeasurementPackage) :
  let u' := ProcessMeasurement E u m in
  (std_a_ u' = std_a_ u /\ std_yawdd_ u' = std_yawdd_ u
   /\ std_laspx_ u' = std_laspx_ u /\ std_laspy_ u' = std_laspy_ u
   /\ std_radr_ u' = std_radr_ u /\ std_radphi_ u' = std_radphi_ u
   /\ std_radrd_ u' = std_radrd_ u)
  /\ (lambda_ u' = lambda_ u /\ n_x_ u' = n_x_ u /\ n_aug_ u' = n_aug_ u
      /\ n_z_radar_ u' = n_z_radar_ u /\ n_z_lidar_ u' = n_z_lidar_ u)
  /\ (use_laser_ u' = use_laser_ u /\ use_radar_ u' = use_radar_ u)
  /\ (is_initialized_ u = true -> weights_ u' = weights_ u).
Proof.
  cbv zeta. unfold ProcessMeasurement, Update, InitializeUKF.
  destruct (is_initialized_ u); cbn [negb]; destruct (sensor_type_ m);
    repeat split; try reflexivity; intros H; discriminate H.
Qed.

(** X6.  The flags [use_laser_] and [use_radar_] are never read: for
    every state, measurement and value of the two flags, the state and the
    covariance after [ProcessMeasurement] are those of the same call with
    the flags untouched, and the flags come out as they went in. *)
Theorem X6_flags_are_never_read (E : EigenOps) (u : UKF) (m : MeasurementPackage)
    (laser radar : bool) :
  let v := ProcessMeasurement E (set_use_radar_ radar (set_use_laser_ laser u)) m in
  x_ v = x_ (ProcessMeasurement E u m)
  /\ P_ v = P_ (ProcessMeasurement E u m)
  /\ use_laser_ v = laser /\ use_radar_ v = radar.
Proof.
  cbv zeta. rewrite ProcessMeasurement_use_radar, ProcessMeasurement_use_laser.
  repeat split; reflexivity.
Qed.

(* ================================================================== *)
(** * The angle loops *)

(** X7.  In exact arithmetic the two loops return their input moved by a
    whole number of turns: with enough iterations they return
    [a + 2 PI k] for an integer [k], a value of [-PI, PI]; an input above
    [PI] never comes out as [-PI] and an input below [-PI] never as [PI];
    an input already in [-PI, PI], both ends included, is returned as it
    is. *)
Theorem X7_loops_remove_whole_turns (a : R) :
  exists k : Z,
    angle_loops exact (loop_fuel a) a = Some (a + 2 * PI * IZR k)
    /\ - PI <= a + 2 * PI * IZR k <= PI
    /\ (PI < a -> - PI < a + 2 * PI * IZR k)
    /\ (a < - PI -> a + 2 * PI * IZR k < PI)
    /\ (- PI <= a <= PI -> k = 0%Z).
Proof.
  pose proof PI_RGT_0 as Hpi.
  destruct (angle_normalization_char a) as (k & Hk & Hr & Habove & Hbelow).
  exists k. rewrite <- Hk.
  split.
  - unfold angle_normalization.
    destruct (angle_loops_exact a) as (b & Hb & _). rewrite Hb. reflexivity.
  - split; [exact Hr|]. split; [exact Habove|]. split; [exact Hbelow|].
    intros Hin. rewrite (angle_normalization_id a Hin) in Hk.
    assert (Hz : IZR k = 0) by nra.
    apply eq_IZR. exact Hz.
Qed.

(** X8.  The two loops are odd: the value they leave for [- a] is the
    opposite of the value they leave for [a]. *)
Theorem X8_loops_are_odd (a : R) :
  angle_normalization (- a) = - angle_normalization a.
Proof. apply angle_normalization_odd. Qed.




(* ================================================================== *)
(** * Prediction *)




(* ================================================================== *)
(** * The lidar measurement model *)

(** X14.  The lidar model is linear, so after [PredictMeanAndCovariance]
    the predicted lidar measurement is the position of the predicted state
    and the innovation covariance is the position block of the predicted
    covariance plus the measurement noise
    diag(std_laspx^2, std_laspy^2), for any sigma points and weights. *)
Theorem X14_lidar_prediction_is_position_block (u : UKF) (r c : nat) :
  well_formed u -> (r < 2)%nat -> (c < 2)%nat ->
  let u3 := PredictMeanAndCovariance u in
  let u4 := PredictLidarMeasurement u3 in
  z_pred_l_ u4 = [vget (x_ u3) 0; vget (x_ u3) 1]
  /\ mget (S_l_ u4) r c
     = mget (P_ u3) r c
       + mget (diag [std_laspx_ u * std_laspx_ u; std_laspy_ u * std_laspy_ u]) r c.
Proof.
  intros Hwf Hr Hc. split.
  - apply PredictLidarMeasurement_mean. exact Hwf.
  - apply PredictLidarMeasurement_covariance; assumption.
Qed.

Lemma X14_lidar_prediction_is_position_block_witness :
  let u3 := PredictMeanAndCovariance tracked in
  let u4 := PredictLidarMeasurement u3 in
  z_pred_l_ u4 = [vget (x_ u3) 0; vget (x_ u3) 1]
  /\ mget (S_l_ u4) 1 1
     = mget (P_ u3) 1 1
       + mget (diag [std_laspx_ tracked * std_laspx_ tracked;
                     std_laspy_ tracked * std_laspy_ tracked]) 1 1.
Proof.
  exact (X14_lidar_prediction_is_position_block tracked 1 1
           (cf_wf tracked configured_tracked) ltac:(lia) ltac:(lia)).
Defined.

(** X15.  In the lidar update that follows, the cross-correlation [Tc]
    is the two position columns of the predicted covariance in every row
    but the heading row (row 3, where the covariance wraps the heading
    difference and [Tc] does not). *)
Theorem X15_lidar_cross_correlation_is_covariance (u : UKF) (r c : nat) :
  well_formed u -> (r < 5)%nat -> r <> 3%nat -> (c < 2)%nat ->
  let u3 := PredictMeanAndCovariance u in
  mget (UpdateLidar_Tc (PredictLidarMeasurement u3)) r c = mget (P_ u3) r c.
Proof. intros Hwf Hr Hr3 Hc. apply UpdateLidar_Tc_covariance; assumption. Qed.

Lemma X15_lidar_cross_correlation_is_covariance_witness :
  let u3 := PredictMeanAndCovariance tracked in
  mget (UpdateLidar_Tc (PredictLidarMeasurement u3)) 4 1 = mget (P_ u3) 4 1.
Proof.
  exact (X15_lidar_cross_correlation_is_covariance tracked 4 1
           (cf_wf tracked configured_tracked) ltac:(lia) ltac:(lia) ltac:(lia)).
Defined.

(* ================================================================== *)
(** * The update *)

(** X16.  A measurement equal to the predicted measurement leaves the
    state where the prediction put it, for either sensor: the innovation is
    zero (for radar, also after the loops), and the gain multiplies it.  The
    innovation covariance is taken regular and, for radar, every predicted
    sigma point within the range where its projection neither underflows
    nor overflows, so that the gain is finite. *)
Theorem X16_matching_measurement_keeps_state (E : EigenOps) (u : UKF)
    (m : MeasurementPackage) :
  well_shaped E -> well_formed u ->
  match sensor_type_ m with
  | LASER => det 2 (S_l_ (PredictLidarMeasurement u)) <> 0
  | RADAR =>
      det 3 (S_r_ (PredictRadarMeasurement u)) <> 0
      /\ forall i : nat, (i < 15)%nat -> radar_safe (col (Xsig_pred_ u) i)
  end ->
  raw_measurements_ m
  = match sensor_type_ m with
    | LASER => z_pred_l_ (PredictLidarMeasurement u)
    | RADAR => z_pred_r_ (PredictRadarMeasurement u)
    end ->
  x_ (Update E u m) = x_ u.
Proof. intros HE Hwf _ Hm. apply Update_matching_measurement; assumption. Qed.

Lemma approaching_noise :
  S_l_ (PredictLidarMeasurement approaching)
  = [[0.15 * 0.15; 0]; [0; 0.15 * 0.15]].
Proof.
  unfold PredictLidarMeasurement. cbv zeta. cbn [S_l_ set_S_l_].
  unfold PredictLidarMeasurement_S, PredictLidarMeasurement_z_pred,
    PredictLidarMeasurement_Zsig, PredictLidarMeasurement_body.
  change (std_laspx_ approaching) with 0.15. change (std_laspy_ approaching) with 0.15.
  change (n_aug_ approaching) with 7%nat.
  change (Xsig_pred_ approaching) with (repeat [3; 4; 2; 0; 0] 15).
  change (Zsig_lidar approaching) with (mzero 2 15).
  change (z_pred_l_ approaching) with (vzero 2).
  change (S_l_ approaching) with (mzero 2 2).
  change (weights_ approaching)
    with (init_weights exact (IZR (3 - 5)) 7 (vzero 15)).
  rewrite init_weights_exact by reflexivity.
  eval_lists.
  list_eq ltac:(list_eq ltac:(simpl; lra)).
Qed.

Lemma approaching_regular :
  match sensor_type_ (mkMeas 2000000 LASER (z_pred_l_ (PredictLidarMeasurement approaching)))
  with
  | LASER => det 2 (S_l_ (PredictLidarMeasurement approaching)) <> 0
  | RADAR =>
      det 3 (S_r_ (PredictRadarMeasurement approaching)) <> 0
      /\ forall i : nat, (i < 15)%nat -> radar_safe (col (Xsig_pred_ approaching) i)
  end.
Proof.
  cbn [sensor_type_]. rewrite approaching_noise.
  eval_lists. lra.
Qed.

Lemma X16_matching_measurement_keeps_state_witness :
  let m := mkMeas 2000000 LASER (z_pred_l_ (PredictLidarMeasurement approaching)) in
  x_ (Update eigen_reference approaching m) = x_ approaching.
Proof.
  exact (X16_matching_measurement_keeps_state eigen_reference approaching
           (mkMeas 2000000 LASER (z_pred_l_ (PredictLidarMeasurement approaching)))
           eigen_reference_shaped well_formed_approaching approaching_regular eq_refl).
Defined.

(* ================================================================== *)
(** * The radar measurement model *)






(* ================================================================== *)
(** * Whole cycles of the reference filter *)

(** X21.  A RADAR measurement [rho, phi, rho_dot] that carries the
    timestamp of the last measurement, fused into an estimate at rest on
    the x axis at [p] (diagonal positive covariance, [p] beyond the spread
    [sqrt 5 sqrt d0] of the sigma points, heading spread within [PI]), sets
    the speed to [d2 / (d2 + std_radrd^2) * rho_dot], the scalar Kalman gain
    on the range rate; heading and yaw rate stay zero, the covariance stays
    diagonal and positive, and the lateral variance does not grow. *)
Theorem X21_radar_fusion_at_rest (u : UKF) (m : MeasurementPackage)
    (p d0 d1 d2 d3 d4 rho phi rho_dot : R) :
  configured u -> is_initialized_ u = true -> timestamp_ m = time_us_ u ->
  x_ u = [p; 0; 0; 0; 0] ->
  P_ u = diag [d0; d1; d2; d3; d4] ->
  0 < d0 -> 0 < d1 -> 0 < d2 -> 0 < d3 -> 0 < d4 ->
  sqrt 5 * sqrt d0 < p -> sqrt 5 * sqrt d3 <= PI ->
  sensor_type_ m = RADAR -> raw_measurements_ m = [rho; phi; rho_dot] ->
  - PI <= phi <= PI ->
  std_radr_ u <> 0 -> std_radphi_ u <> 0 -> std_radrd_ u <> 0 ->
  let u' := ProcessMeasurement eigen_reference u m in
  exists px' k D0 D1 D2 : R,
    x_ u' = [px'; k * phi; d2 / (d2 + std_radrd_ u * std_radrd_ u) * rho_dot; 0; 0]
    /\ P_ u' = diag [D0; D1; D2; d3; d4]
    /\ 0 < D0 /\ 0 < D1 <= d1 /\ 0 < D2.
Proof.
  intros Hc Hi Ht Hx HP H0 H1 H2 H3 H4 Hahead Hspread Hm Hraw Hphi Hr Hrphi Hrd.
  cbv zeta. rewrite ProcessMeasurement_initialized by exact Hi.
  replace (elapsed_seconds u m) with 0
    by (unfold elapsed_seconds; rewrite Ht, Z.sub_diag;
        change (wrap64 0) with 0%Z; unfold Rdiv; ring).
  destruct (still_radar_cycle (set_time_us_ (timestamp_ m) u) p d0 d1 d2 d3 d4
              rho phi rho_dot m (configured_set_time_us_ u _ Hc) Hx HP
              H0 H1 H2 H3 H4 Hahead Hspread Hm Hraw Hphi Hr Hrphi Hrd)
    as (px' & k & D0 & D1 & D2 & Hx' & HP' & HD0 & HD1 & HD2 & _).
  exists px', k, D0, D1, D2.
  split; [exact Hx'|]. split; [exact HP'|]. split; [exact HD0|].
  split; [exact HD1 | exact HD2].
Qed.

Lemma first_return_ahead : sqrt 5 * sqrt 1 < 10.
Proof.
  rewrite sqrt_1, Rmult_1_r. rewrite <- (sqrt_square 10) by lra.
  apply sqrt_lt_1; lra.
Qed.

Lemma prior_heading_spread : sqrt 5 * sqrt 0.5 <= PI.
Proof. pose proof spread_half. pose proof PI2_3_2. lra. Qed.

Lemma zero_is_a_bearing : - PI <= 0 <= PI.
Proof. pose proof PI_RGT_0. lra. Qed.

Lemma X21_radar_fusion_at_rest_witness :
  let u := InitializeUKF UKF_new first_return in
  let u' := ProcessMeasurement eigen_reference u radar_return in
  exists px' k D0 D1 D2 : R,
    x_ u' = [px'; k * 0; 1 / (1 + std_radrd_ u * std_radrd_ u) * 1.09; 0; 0]
    /\ P_ u' = diag [D0; D1; D2; 0.5; 0.5]
    /\ 0 < D0 /\ 0 < D1 <= 1 /\ 0 < D2.
Proof.
  exact (X21_radar_fusion_at_rest (InitializeUKF UKF_new first_return) radar_return
           10 1 1 1 0.5 0.5 10 0 1.09
           (configured_InitializeUKF first_return) eq_refl eq_refl eq_refl eq_refl
           ltac:(lra) ltac:(lra) ltac:(lra) ltac:(lra) ltac:(lra)
           first_return_ahead prior_heading_spread eq_refl eq_refl zero_is_a_bearing
           ltac:(change (0.3 <> 0); lra) ltac:(change (0.03 <> 0); lra)
           ltac:(change (0.3 <> 0); lra)).
Defined.

(** X22.  The heading of the estimate is not confined to [-PI, PI]: after
    a first LIDAR return at (10, 0) and a RADAR return [10, 0, 1.09] with
    the same timestamp, a LIDAR return [z0, z1] 1.5 s later sets the
    heading to [g * z1] for one gain [g >= 0.15] that does not depend on the
    return, so a lateral offset of 30 m gives a heading above 4.5 rad. *)
Theorem X22_heading_follows_lateral_offset :
  exists g : R,
    0.15 <= g
    /\ forall z0 z1 : R,
         vget (x_ (ProcessMeasurement eigen_reference
                     (ProcessMeasurement eigen_reference
                        (ProcessMeasurement eigen_reference UKF_new first_return)
                        radar_return)
                     (mkMeas 2500000 LASER [z0; z1]))) 3
         = g * z1.
Proof. exact heading_follows_offset. Qed.

(* ================================================================== *)
(** * The heading of the estimate *)

Lemma PredictMeanAndCovariance_heading (u : UKF) :
  well_formed u ->
  vget (x_ (PredictMeanAndCovariance u)) 3
  = fold_left (fun s i => s + vget (weights_ u) i * mget (Xsig_pred_ u) 3 i)
      (seq 0 15) 0.
Proof.
  intros Hwf.
  pose proof (wf_Xsig_pred u Hwf) as HX. pose proof (wf_weights u Hwf) as Hw.
  unfold PredictMeanAndCovariance. cbv zeta. cbn [x_ set_P_ set_x_].
  unfold PredictMeanAndCovariance_x.
  rewrite (wf_n_aug u Hwf), (vfill_length 5) by exact (wf_x u Hwf).
  set (X := Xsig_pred_ u) in *. set (w := weights_ u) in *. clearbody X w.
  open_matrix X HX. open_list w.
  eval_lists. reflexivity.
Qed.

Lemma inverse_shaped_nonempty (E : EigenOps) (n : nat) (S : Matrix) :
  well_shaped E -> dims (Datatypes.S n) (Datatypes.S n) S -> inverse E S <> [].
Proof.
  intros HE HS Habs. destruct (ws_inverse E HE _ _ HS) as [Hlen _].
  rewrite Habs in Hlen. discriminate.
Qed.

(** C4 (counterexample).  After a first LIDAR return at (10, 0) and a RADAR
    return [10, 0, 1.09] with the same timestamp the heading of the estimate
    is 0; a LIDAR return [11.5, 30] 1.5 s later leaves it above PI. *)
Lemma C4_heading_leaves_range :
  let m := mkMeas 2500000 LASER [11.5; 30] in
  is_initialized_ moving = true
  /\ vget (x_ moving) 3 = 0
  /\ PI < vget (x_ (ProcessMeasurement eigen_reference moving m)) 3.
Proof.
  cbv zeta. unfold moving. pose proof PI_4 as Hpi.
  destruct swerve_radar_cycle
    as (px' & D0 & D1 & D2 & Hx & _ & _ & _ & _ & _ & Hi & _).
  destruct heading_follows_offset as (g & Hg & Hh).
  rewrite (Hh 11.5 30).
  set (u2 := ProcessMeasurement eigen_reference
               (ProcessMeasurement eigen_reference UKF_new first_return) radar_return)
    in *.
  clearbody u2.
  split; [exact Hi|]. split; [rewrite Hx; reflexivity | lra].
Qed.

(** C4 (amended).  Nothing re-normalises the heading of the estimate.  The
    predicted heading is the plain weighted sum of the sigma-point headings;
    the heading after [UpdateLidar] or [UpdateRadar] is the heading before
    it plus the heading coefficient of the gain correction [K * z_diff]; only
    heading differences pass through the loops.  So from a state at rest,
    whatever diagonal factor the LLT returns, the heading after a LIDAR
    cycle is yaw + yawd * t, in whatever interval that falls (all values at
    most 1000 in absolute value). *)
Theorem C4_update_adds_gain_correction (E : EigenOps) (u : UKF)
    (m : MeasurementPackage) :
  well_shaped E -> well_formed u ->
  let raw := raw_measurements_ m in
  let K_l := mmul (UpdateLidar_Tc u) (inverse E (S_l_ u)) in
  let K_r := mmul (UpdateRadar_Tc u) (inverse E (S_r_ u)) in
  vget (x_ (PredictMeanAndCovariance u)) 3
  = fold_left (fun s i => s + vget (weights_ u) i * mget (Xsig_pred_ u) 3 i)
      (seq 0 15) 0
  /\ vget (x_ (UpdateLidar E u m)) 3
     = vget (x_ u) 3
       + vget (mat_vec K_l (vsub [vget raw 0; vget raw 1] (z_pred_l_ u))) 3
  /\ vget (x_ (UpdateRadar E u m)) 3
     = vget (x_ u) 3
       + vget (mat_vec K_r
                 (normalize_at 1
                    (vsub [vget raw 0; vget raw 1; vget raw 2] (z_pred_r_ u)))) 3
  /\ (forall px py yaw yawd l0 l1 l2 l3 l4 l5 l6 : R,
        let t := elapsed_seconds u m in
        let u0 := set_time_us_ (timestamp_ m) u in
        is_initialized_ u = true -> configured u ->
        x_ u = [px; py; 0; yaw; yawd] ->
        matrixL (llt E (augmented_covariance u0)) = diag [l0; l1; l2; l3; l4; l5; l6] ->
        (forall S : Matrix, S <> [] -> inverse E S <> []) ->
        sensor_type_ m = LASER ->
        moderate [px; py; yaw; yawd; t; l0; l1; l2; l3; l4; l5; l6] ->
        vget (x_ (ProcessMeasurement E u m)) 3 = yaw + yawd * t).
Proof.
  intros HE Hwf raw K_l K_r.
  split; [exact (PredictMeanAndCovariance_heading u Hwf)|]. split; [|split].
  - unfold UpdateLidar. cbv zeta. cbn [x_ set_x_ set_P_].
    apply vget_vadd; [rewrite (wf_x u Hwf); lia|].
    unfold K_l. rewrite (length_gain_correction 5 1); [lia | |].
    + apply UpdateLidar_Tc_dims. exact Hwf.
    + exact (inverse_shaped_nonempty E 1 _ HE (wf_S_l u Hwf)).
  - unfold UpdateRadar. cbv zeta. cbn [x_ set_x_ set_P_].
    apply vget_vadd; [rewrite (wf_x u Hwf); lia|].
    unfold K_r. rewrite (length_gain_correction 5 2); [lia | |].
    + apply UpdateRadar_Tc_dims. exact Hwf.
    + exact (inverse_shaped_nonempty E 2 _ HE (wf_S_r u Hwf)).
  - intros px py yaw yawd l0 l1 l2 l3 l4 l5 l6 t u0 Hi Hc Hx HL Hinv Hm _.
    assert (Hc0 : configured u0) by (apply configured_set_time_us_; exact Hc).
    destruct (configured_weights _ Hc0) as [Hlam Hw].
    rewrite ProcessMeasurement_initialized by exact Hi.
    pose proof (cycle_at_rest E u0 px py yaw yawd (sqrt 5) l0 l1 l2 l3 l4 l5 l6
                  (cf_wf _ Hc0) Hx (sqrt_lt_R0 5 ltac:(lra)) Hlam HL Hw Hinv t m) as H.
    cbv zeta in H. destruct H as (_ & _ & H3). exact (H3 Hm).
Qed.

Lemma well_formed_moving : well_formed moving.
Proof.
  unfold moving.
  apply ProcessMeasurement_shaped; [exact eigen_reference_shaped|].
  apply ProcessMeasurement_shaped; [exact eigen_reference_shaped | exact well_formed_new].
Qed.

Lemma well_formed_moving_predicted :
  well_formed
    (PredictLidarMeasurement
       (Prediction eigen_reference (set_time_us_ 2500000 moving) 1.5)).
Proof.
  apply PredictLidarMeasurement_shaped, Prediction_shaped;
    [exact eigen_reference_shaped|].
  apply well_formed_set_time_us_, well_formed_moving.
Qed.

Lemma C4_update_adds_gain_correction_witness :
  let u := PredictLidarMeasurement
             (Prediction eigen_reference (set_time_us_ 2500000 moving) 1.5) in
  let m := mkMeas 2500000 LASER [11.5; 30] in
  vget (x_ (UpdateLidar eigen_reference u m)) 3
  = vget (x_ u) 3
    + vget (mat_vec (mmul (UpdateLidar_Tc u) (inverse eigen_reference (S_l_ u)))
              (vsub [11.5; 30] (z_pred_l_ u))) 3.
Proof.
  exact (proj1 (proj2
           (C4_update_adds_gain_correction eigen_reference
              (PredictLidarMeasurement
                 (Prediction eigen_reference (set_time_us_ 2500000 moving) 1.5))
              (mkMeas 2500000 LASER [11.5; 30])
              eigen_reference_shaped well_formed_moving_predicted))).
Defined.
